(** * Tokyo-Travel-Agent: the ReAct planning loop and its data tools

    A shallow embedding of [Agent.py] (class [ReActAgent]) and of the part of
    [DataReader.py] its tools reach, followed by the properties the
    specification states about them.

    Conventions.
    - A Python [str] is the list of its code points ([pystr]); literals are
      written in UTF-8 and decoded by [utf8].
    - A Python [float] is a binary64 number: Rocq's primitive [float], whose
      operations are the IEEE 754 ones CPython uses.
    - A Python [int] is a [Z].
    - An exception is a value of [exn]; code that may raise returns an
      [outcome].
    - Library functions the program calls but does not define ([json.loads],
      [json.dumps], float formatting, the chat-completion endpoint, the
      parquet reader) are the fields of the class [Externals]. *)

From Stdlib Require Import ZArith NArith List String Ascii Bool Lia Floats.
From Stdlib Require Uint63.
Import ListNotations.

Set Warnings "-inexact-float,-register-all".
Local Open Scope list_scope.

(* ================================================================== *)
(** * Python strings *)

Module Str.

(** A [str] as the sequence of its Unicode code points. *)
Definition pystr := list N.

Definition cont (b : ascii) : N := N.land (N_of_ascii b) 0x3F.

(** Decoder of the UTF-8 literals of this file. *)
Fixpoint utf8 (s : string) : pystr :=
  match s with
  | EmptyString => []
  | String a s1 =>
    let n := N_of_ascii a in
    if (n <? 0x80)%N then n :: utf8 s1
    else if (n <? 0xE0)%N then
      match s1 with
      | String b s2 => (N.land n 0x1F * 64 + cont b)%N :: utf8 s2
      | _ => [n]
      end
    else if (n <? 0xF0)%N then
      match s1 with
      | String b (String c s3) =>
        (N.land n 0x0F * 4096 + cont b * 64 + cont c)%N :: utf8 s3
      | _ => [n]
      end
    else
      match s1 with
      | String b (String c (String d s4)) =>
        (N.land n 0x07 * 262144 + cont b * 4096 + cont c * 64 + cont d)%N :: utf8 s4
      | _ => [n]
      end
  end.

Definition eqb (a b : pystr) : bool :=
  if list_eq_dec N.eq_dec a b then true else false.

(** [str.isspace] on one code point; it is also the class [\s] of [re] on
    [str] patterns. *)
Definition isspace (c : N) : bool :=
  ((0x09 <=? c) && (c <=? 0x0D) || (0x1C <=? c) && (c <=? 0x20)
   || (c =? 0x85) || (c =? 0xA0) || (c =? 0x1680)
   || (0x2000 <=? c) && (c <=? 0x200A)
   || (c =? 0x2028) || (c =? 0x2029) || (c =? 0x202F) || (c =? 0x205F)
   || (c =? 0x3000))%N.

Definition newline : N := 10%N.
Definition dquote : N := 34%N.
Definition comma : N := 44%N.

Fixpoint lstrip_by (p : N -> bool) (s : pystr) : pystr :=
  match s with
  | [] => []
  | c :: s' => if p c then lstrip_by p s' else s
  end.

Definition rstrip_by (p : N -> bool) (s : pystr) : pystr :=
  rev (lstrip_by p (rev s)).

Definition strip_by (p : N -> bool) (s : pystr) : pystr :=
  rstrip_by p (lstrip_by p s).

(** [s.strip()] *)
Definition strip (s : pystr) : pystr := strip_by isspace s.

(** [s.strip(chars)]: every leading and trailing code point that occurs in
    [chars] is removed. *)
Definition strip_chars (chars : pystr) (s : pystr) : pystr :=
  strip_by (fun c => existsb (N.eqb c) chars) s.

(** [s] with the prefix [p] removed, when [s] starts with [p]. *)
Fixpoint drop_prefix (p s : pystr) : option pystr :=
  match p, s with
  | [], _ => Some s
  | a :: p', b :: s' => if (a =? b)%N then drop_prefix p' s' else None
  | _ :: _, [] => None
  end.

(** The text after the leftmost occurrence of [lit] in [s]. *)
Fixpoint after_first (lit s : pystr) : option pystr :=
  match drop_prefix lit s with
  | Some r => Some r
  | None => match s with
            | [] => None
            | _ :: s' => after_first lit s'
            end
  end.

(** [lit in s] *)
Definition contains (lit s : pystr) : bool :=
  match after_first lit s with Some _ => true | None => false end.

(** The longest prefix free of a line feed: what [.*] matches. *)
Fixpoint take_line (s : pystr) : pystr :=
  match s with
  | [] => []
  | c :: s' => if (c =? newline)%N then [] else c :: take_line s'
  end.

(** [s.split(sep)] for a one-character separator. *)
Fixpoint split (sep : N) (s : pystr) : list pystr :=
  match s with
  | [] => [[]]
  | c :: s' =>
    if (c =? sep)%N then [] :: split sep s'
    else match split sep s' with
         | w :: ws => (c :: w) :: ws
         | [] => [[c]]
         end
  end.

Definition digit (d : N) : N := (48 + d)%N.

Fixpoint digits_of_pos (fuel : nat) (n : N) (acc : pystr) : pystr :=
  match fuel with
  | O => acc
  | S fuel' =>
    let acc' := digit (n mod 10) :: acc in
    if (n / 10 =? 0)%N then acc' else digits_of_pos fuel' (n / 10)%N acc'
  end.

(** [str(n)] for an [int]. *)
Definition str_int (z : Z) : pystr :=
  let n := Z.abs_N z in
  let ds := digits_of_pos (S (N.to_nat (N.log2 n))) n [] in
  if (z <? 0)%Z then 45%N :: ds else ds.

(** [sub] occurs in [s]. *)
Definition occurs_in (sub s : pystr) : Prop :=
  exists a b, s = a ++ sub ++ b.

End Str.
Import Str.
Arguments utf8 s%_string.

(* ================================================================== *)
(** * Python values, exceptions and the call protocol *)

Module Py.

(** The exception classes the program can meet.  All of them derive from
    [Exception]; [OtherException] stands for any further such class. *)
Inductive exn_class :=
| JSONDecodeError
| TypeError
| KeyError
| OverflowError
| OtherException (name : pystr).

(** An exception instance: its class and [str(e)]. *)
Record exn := mk_exn { exn_type : exn_class; exn_str : pystr }.

Inductive outcome (A : Type) :=
| Return (a : A)
| Raise (e : exn).
Arguments Return {A} a.
Arguments Raise {A} e.

Definition bind {A B} (m : outcome A) (k : A -> outcome B) : outcome B :=
  match m with
  | Return a => k a
  | Raise e => Raise e
  end.

(** [except json.JSONDecodeError] *)
Definition is_JSONDecodeError (e : exn) : bool :=
  match exn_type e with JSONDecodeError => true | _ => false end.

(** The values the data tools produce and the JSON codec exchanges. *)
Inductive pyval :=
| PNone
| PBool (b : bool)
| PInt (z : Z)
| PFloat (f : float)
| PStr (s : pystr)
| PList (l : list pyval)
| PDict (d : list (pystr * pyval)).

(** [type(v).__name__] *)
Definition type_name (v : pyval) : pystr :=
  match v with
  | PNone => utf8 "NoneType"
  | PBool _ => utf8 "bool"
  | PInt _ => utf8 "int"
  | PFloat _ => utf8 "float"
  | PStr _ => utf8 "str"
  | PList _ => utf8 "list"
  | PDict _ => utf8 "dict"
  end.

(** [bool(v)] *)
Definition truthy (v : pyval) : bool :=
  match v with
  | PNone => false
  | PBool b => b
  | PInt z => negb (z =? 0)%Z
  | PFloat f => negb (PrimFloat.eqb f 0)
  | PStr s => match s with [] => false | _ => true end
  | PList l => match l with [] => false | _ => true end
  | PDict d => match d with [] => false | _ => true end
  end.

(** [d.get(k)] on the items of a dict. *)
Fixpoint lookup {V} (k : pystr) (d : list (pystr * V)) : option V :=
  match d with
  | [] => None
  | (k', v) :: d' => if Str.eqb k k' then Some v else lookup k d'
  end.

(** [d[k] = v] for a key the dict already has: the item keeps its place. *)
Fixpoint assign (k : pystr) (v : pyval) (d : list (pystr * pyval))
  : list (pystr * pyval) :=
  match d with
  | [] => [(k, v)]
  | (k', v') :: d' =>
    if Str.eqb k k' then (k, v) :: d' else (k', v') :: assign k v d'
  end.

(** How a callable is applied: with no argument, with one positional
    string, or with the items of a dict unpacked as keyword arguments. *)
Inductive call_args :=
| NoArgs
| Positional (s : pystr)
| Keywords (kw : list (pystr * pyval)).

Definition tool := call_args -> outcome pyval.

End Py.
Import Py.

Declare Scope py_scope.
Delimit Scope py_scope with py.
Notation "x <- m ;; k" := (bind m (fun x => k))
  (at level 61, m at next level, right associativity) : py_scope.

(* ================================================================== *)
(** * The environment *)

Module Env.

(** A row of the attractions table (the schema of [init_db.py] and of
    [DataReader._load_data]); [None] is a null cell. *)
Record row := mk_row {
  col_name : option pystr;
  col_city : option pystr;
  col_ward : option pystr;
  col_description : option pystr;
  col_address : option pystr;
  col_latitude : option float;
  col_longitude : option float;
  col_ticket_price : option pystr;
  col_opening_hours : option pystr;
  col_recommended_duration : option pystr;
  col_categories : option pystr;
  col_transportation : option pystr;
  col_nearby_attractions : option pystr;
  col_website : option pystr;
  col_phone : option pystr;
  col_last_updated : option pystr
}.

(** One entry of the conversation state. *)
Record message := mk_message { role : pystr; content : pystr }.

(** What the program reads of a chat completion:
    [response.choices[0].message.content], [response.usage.prompt_tokens]
    and [response.usage.completion_tokens]. *)
Record completion := mk_completion {
  message_content : pystr;
  usage_prompt_tokens : Z;
  usage_completion_tokens : Z
}.

(** The library functions and collaborators the program calls. *)
Class Externals := {
  (** [json.loads(s)] for a [str]; [None] when it raises
      [json.JSONDecodeError]. *)
  json_decode : pystr -> option pyval;
  (** [json.dumps(v, ensure_ascii=False, indent=2)] *)
  json_dumps : pyval -> outcome pystr;
  (** [f"{x:.4f}"] *)
  format_4f : float -> pystr;
  (** [f"{x}"] for a float *)
  format_float : float -> pystr;
  (** [client.chat.completions.create(model=, messages=, temperature=)] *)
  chat_completions_create : pystr -> list message -> float -> outcome completion;
  (** [pl.read_parquet(path)] *)
  read_parquet : pystr -> outcome (list row);
  (** A polars string filter ([keyword], [category] or [ward]) applied
      with an operand that is not a [str]. *)
  filter_non_str : pystr -> pyval -> list row -> outcome (list row);
  (** The interpreter's wording of a [TypeError] for a call whose
      arguments do not fit the callee. *)
  call_error_text : pystr -> call_args -> pystr;
  (** The interpreter's wording of a keyword-unpacking call whose operand
      is no mapping. *)
  not_a_mapping_text : pystr -> pyval -> pystr
}.

End Env.
Import Env.

Local Open Scope py_scope.

(* ================================================================== *)
(** * DataReader.py *)

Module DataReader.

Section WithExternals.
Context {ext : Externals}.

(** [json.loads(v)]: only [str] (and bytes, which the program never has)
    is accepted. *)
Definition json_loads (v : pyval) : outcome pyval :=
  match v with
  | PStr s =>
    match json_decode s with
    | Some r => Return r
    | None => Raise (mk_exn JSONDecodeError (utf8 "Expecting value"))
    end
  | _ =>
    Raise (mk_exn TypeError
      (utf8 "the JSON object must be str, bytes or bytearray, not " ++ type_name v))
  end.

(** [DataReader._load_data] *)
Definition _load_data (db_path : pystr) : list row :=
  match read_parquet db_path with
  | Return df => df
  | Raise _ => []
  end.

Definition cell (o : option pystr) : pyval :=
  match o with Some s => PStr s | None => PNone end.

Definition cell_float (o : option float) : pyval :=
  match o with Some f => PFloat f | None => PNone end.

(** [dict(row)] *)
Definition dict_of_row (r : row) : list (pystr * pyval) :=
  [ (utf8 "name", cell (col_name r));
    (utf8 "city", cell (col_city r));
    (utf8 "ward", cell (col_ward r));
    (utf8 "description", cell (col_description r));
    (utf8 "address", cell (col_address r));
    (utf8 "latitude", cell_float (col_latitude r));
    (utf8 "longitude", cell_float (col_longitude r));
    (utf8 "ticket_price", cell (col_ticket_price r));
    (utf8 "opening_hours", cell (col_opening_hours r));
    (utf8 "recommended_duration", cell (col_recommended_duration r));
    (utf8 "categories", cell (col_categories r));
    (utf8 "transportation", cell (col_transportation r));
    (utf8 "nearby_attractions", cell (col_nearby_attractions r));
    (utf8 "website", cell (col_website r));
    (utf8 "phone", cell (col_phone r));
    (utf8 "last_updated", cell (col_last_updated r)) ].

(** [processed_row[k].split(",") if processed_row[k] else []] on a string
    cell. *)
Definition split_field (o : option pystr) : pyval :=
  match o with
  | Some (c :: s) => PList (map PStr (split comma (c :: s)))
  | _ => PList []
  end.

(** The [transportation] branch of [_df_to_dict_list]: the stored text is
    decoded here, and [{}] stands in when it is empty, null or no JSON. *)
Definition load_transportation (o : option pystr) : pyval :=
  match o with
  | Some (c :: s) =>
    match json_loads (PStr (c :: s)) with
    | Return t => t
    | Raise _ => PDict []
    end
  | _ => PDict []
  end.

Definition process_row (r : row) : pyval :=
  let d := dict_of_row r in
  let d := assign (utf8 "categories") (split_field (col_categories r)) d in
  let d := assign (utf8 "nearby_attractions")
                  (split_field (col_nearby_attractions r)) d in
  let d := assign (utf8 "transportation")
                  (load_transportation (col_transportation r)) d in
  PDict d.

(** [DataReader._df_to_dict_list] *)
Definition _df_to_dict_list (df : list row) : list pyval := map process_row df.

(** [DataReader.get_all_attractions] *)
Definition get_all_attractions (db_path : pystr) : outcome pyval :=
  Return (PList (_df_to_dict_list (_load_data db_path))).

(** [pl.col(c) == s]: a null cell compares to null, which [filter] drops. *)
Definition cell_equals (o : option pystr) (s : pystr) : option bool :=
  option_map (fun c => Str.eqb c s) o.

(** [pl.col(c).str.contains(s, literal=True)] *)
Definition cell_contains (o : option pystr) (s : pystr) : option bool :=
  option_map (fun c => contains s c) o.

(** [|] on nullable booleans. *)
Definition kleene_or (a b : option bool) : option bool :=
  match a, b with
  | Some true, _ | _, Some true => Some true
  | Some false, Some false => Some false
  | _, _ => None
  end.

(** [df.filter(p)] keeps the rows on which [p] is true. *)
Definition df_filter (p : row -> option bool) (df : list row) : list row :=
  filter (fun r => match p r with Some true => true | _ => false end) df.

(** A filter on a string column: polars decides what happens when the
    operand is not a [str]. *)
Definition str_filter (which : pystr) (p : row -> pystr -> option bool)
    (operand : pyval) (df : list row) : outcome (list row) :=
  match operand with
  | PStr s => Return (df_filter (fun r => p r s) df)
  | _ => filter_non_str which operand df
  end.

(** [DataReader.get_attraction_by_name] *)
Definition get_attraction_by_name (db_path : pystr) (name : pyval) : outcome pyval :=
  let df := _load_data db_path in
  filtered_df <-
    str_filter (utf8 "name") (fun r s => cell_equals (col_name r) s) name df ;;
  if (List.length filtered_df =? 0)%nat then Return PNone
  else
    match _df_to_dict_list filtered_df with
    | first :: _ => Return first
    | [] => Return PNone
    end.

Definition keyword_matches (r : row) (keyword : pystr) : option bool :=
  kleene_or (kleene_or (cell_contains (col_name r) keyword)
                       (cell_contains (col_description r) keyword))
            (cell_contains (col_address r) keyword).

(** [DataReader.search_attractions] *)
Definition search_attractions (db_path : pystr) (keyword category ward : pyval)
  : outcome pyval :=
  let df := _load_data db_path in
  df <- (if truthy keyword
         then str_filter (utf8 "keyword") keyword_matches keyword df
         else Return df) ;;
  df <- (if truthy category
         then str_filter (utf8 "category")
                (fun r s => cell_contains (col_categories r) s) category df
         else Return df) ;;
  df <- (if truthy ward
         then str_filter (utf8 "ward")
                (fun r s => cell_equals (col_ward r) s) ward df
         else Return df) ;;
  Return (PList (_df_to_dict_list df)).

(** [DataReader.get_attractions_by_category] *)
Definition get_attractions_by_category (db_path : pystr) (category : pyval)
  : outcome pyval :=
  search_attractions db_path (PStr []) category (PStr []).

(** [DataReader.get_attractions_by_ward] *)
Definition get_attractions_by_ward (db_path : pystr) (ward : pyval)
  : outcome pyval :=
  search_attractions db_path (PStr []) (PStr []) ward.

(** [k in v] *)
Definition has_key (k : pystr) (v : pyval) : bool :=
  match v with
  | PDict d => match lookup k d with Some _ => true | None => false end
  | _ => false
  end.

(** [v[k]] *)
Definition getitem (k : pystr) (v : pyval) : outcome pyval :=
  match v with
  | PDict d =>
    match lookup k d with
    | Some x => Return x
    | None => Raise (mk_exn KeyError k)
    end
  | _ =>
    Raise (mk_exn TypeError
      (utf8 "'" ++ type_name v ++ utf8 "' object is not subscriptable"))
  end.

(** [DataReader.get_transportation_info] *)
Definition get_transportation_info (db_path : pystr) (name : pyval) : outcome pyval :=
  attraction <- get_attraction_by_name db_path name ;;
  if truthy attraction && has_key (utf8 "transportation") attraction then
    match (t <- getitem (utf8 "transportation") attraction ;; json_loads t) with
    | Return v => Return v
    | Raise e => if is_JSONDecodeError e then Return (PDict []) else Raise e
    end
  else Return (PDict []).

(** [attraction.get(k, "")] *)
Definition get_or_empty (k : pystr) (attraction : pyval) : pyval :=
  match attraction with
  | PDict d => match lookup k d with Some v => v | None => PStr [] end
  | _ => PStr []
  end.

(** [DataReader.get_basic_info] *)
Definition get_basic_info (db_path : pystr) (name : pyval) : outcome pyval :=
  attraction <- get_attraction_by_name db_path name ;;
  if truthy attraction then
    Return (PDict
      (map (fun k => (k, get_or_empty k attraction))
           [utf8 "name"; utf8 "description"; utf8 "address"; utf8 "ticket_price";
            utf8 "opening_hours"; utf8 "recommended_duration"]))
  else Return (PDict []).

(** ** The bound methods, as the interpreter applies them *)

Definition bad_call {A} (fname : pystr) (args : call_args) : outcome A :=
  Raise (mk_exn TypeError (call_error_text fname args)).

(** A method with no parameter besides [self]. *)
Definition method0 (fname : pystr) (f : outcome pyval) : tool :=
  fun args =>
    match args with
    | NoArgs | Keywords [] => f
    | _ => bad_call fname args
    end.

(** A method with one required parameter. *)
Definition method1 (fname param : pystr) (f : pyval -> outcome pyval) : tool :=
  fun args =>
    match args with
    | Positional s => f (PStr s)
    | Keywords [(k, v)] => if Str.eqb k param then f v else bad_call fname args
    | _ => bad_call fname args
    end.

Definition or_empty (o : option pyval) : pyval :=
  match o with Some v => v | None => PStr [] end.

(** [search_attractions(self, keyword="", category="", ward="")] *)
Definition search_attractions_method (db_path : pystr) : tool :=
  let fname := utf8 "search_attractions" in
  let params := [utf8 "keyword"; utf8 "category"; utf8 "ward"] in
  fun args =>
    match args with
    | NoArgs => search_attractions db_path (PStr []) (PStr []) (PStr [])
    | Positional s => search_attractions db_path (PStr s) (PStr []) (PStr [])
    | Keywords kw =>
      if forallb (fun kv => existsb (Str.eqb (fst kv)) params) kw then
        search_attractions db_path
          (or_empty (lookup (utf8 "keyword") kw))
          (or_empty (lookup (utf8 "category") kw))
          (or_empty (lookup (utf8 "ward") kw))
      else bad_call fname args
    end.

End WithExternals.
End DataReader.

(* ================================================================== *)
(** * Agent.py *)

Module Agent.

(** The running totals of an agent: [total_cost] and the two counters of
    [total_tokens]. *)
Record account := mk_account {
  spent : float;
  prompt_count : Z;
  completion_count : Z
}.

(** What a run does that its caller can observe besides the answer: a
    request to the model with its reply, the update of the running totals
    for a reply (the cost charged and the totals after it), and a tool
    invocation. *)
Inductive event :=
| ModelCall (model : pystr) (messages : list message) (temperature : float)
            (reply : outcome completion)
| Accounted (response : completion) (cost : float) (totals : account)
| ToolCall (name : pystr) (args : call_args).

(** The fields of a [ReActAgent] the methods below read or write. *)
Record ReActAgent := mk_agent {
  model : pystr;
  budget_limit : float;
  total_cost : float;
  total_prompt_tokens : Z;
  total_completion_tokens : Z;
  max_iterations : nat;
  tools : list (pystr * tool)
}.

Definition account_of (self : ReActAgent) : account :=
  mk_account (total_cost self) (total_prompt_tokens self)
             (total_completion_tokens self).

(** A [{"input": .., "output": ..}] entry: prices per thousand tokens. *)
Record price := mk_price { input : float; output : float }.

Definition qwen_flash : price := mk_price 0.0003 0.0006.
Definition qwen_plus : price := mk_price 0.008 0.008.
Definition qwen_max : price := mk_price 0.04 0.12.

(** [ReActAgent.MODEL_PRICING] *)
Definition MODEL_PRICING : list (pystr * price) :=
  [ (utf8 "qwen-flash", qwen_flash);
    (utf8 "qwen-plus", qwen_plus);
    (utf8 "qwen-max", qwen_max) ].

(** [float(n)] as [n / 1000.0] performs it: rounded to nearest even, and
    an [OverflowError] beyond the binary64 range. *)
Definition float_of_int (z : Z) : outcome float :=
  match binary_normalize prec emax z 0 false with
  | S754_infinity _ =>
    Raise (mk_exn OverflowError (utf8 "int too large to convert to float"))
  | sf => Return (SF2Prim sf)
  end.

(** The price entry [calculate_cost] selects: the model's own, or the one
    of [qwen-flash] for a model the table does not list. *)
Definition pricing_for (m : pystr) : price :=
  match lookup m MODEL_PRICING with
  | None => qwen_flash
  | Some p => p
  end.

(** [ReActAgent.calculate_cost] *)
Definition calculate_cost (self : ReActAgent) (prompt_tokens completion_tokens : Z)
  : outcome float :=
  let pricing := pricing_for (model self) in
  p <- float_of_int prompt_tokens ;;
  let input_cost := (p / 1000.0 * input pricing)%float in
  c <- float_of_int completion_tokens ;;
  let output_cost := (c / 1000.0 * output pricing)%float in
  let total_cost := (input_cost + output_cost)%float in
  Return total_cost.

(** [re.search] for the pattern made of the marker, a greedy run of
    white space and a group that captures any characters but a line feed,
    followed by [.group(1).strip()]; the empty string when nothing matches.
    The leftmost match starts at the leftmost occurrence of the marker,
    since the rest of the pattern matches after any text; the white-space
    run then takes every white-space character that follows, line feeds
    included, and the group takes the text up to the next line feed. *)
Definition search_group (marker response : pystr) : pystr :=
  match after_first marker response with
  | Some rest => strip (take_line (lstrip_by isspace rest))
  | None => []
  end.

(** [ReActAgent.extract_action] *)
Definition extract_action (response : pystr) : pystr * pystr :=
  let action := search_group (utf8 "Action:") response in
  let action_input := search_group (utf8 "Action Input:") response in
  (action, action_input).

Section WithExternals.
Context {ext : Externals}.

(** A computation that may raise, with the events it has produced. *)
Definition traced (A : Type) : Type := list event * outcome A.

Definition ret {A} (a : A) : traced A := ([], Return a).

Definition lift {A} (m : outcome A) : traced A := ([], m).

Definition tbind {A B} (m : traced A) (k : A -> traced B) : traced B :=
  match m with
  | (t, Return a) => let '(t', r) := k a in (t ++ t', r)
  | (t, Raise e) => (t, Raise e)
  end.

(** [try: body except E as e: handler], for the classes [catches] selects. *)
Definition try_except {A} (body : traced A) (catches : exn -> bool)
    (handler : exn -> traced A) : traced A :=
  match body with
  | (t, Return a) => (t, Return a)
  | (t, Raise e) =>
    if catches e then let '(t', r) := handler e in (t ++ t', r)
    else (t, Raise e)
  end.

(** [self.tools[name](...)] *)
Definition call (name : pystr) (f : tool) (args : call_args) : traced pyval :=
  ([ToolCall name args], f args).

(** The call that unpacks [params] as keyword arguments. *)
Definition call_unpacked (name : pystr) (f : tool) (params : pyval) : traced pyval :=
  match params with
  | PDict kw => call name f (Keywords kw)
  | _ => lift (Raise (mk_exn TypeError (not_a_mapping_text name params)))
  end.

Definition single_string_actions : list pystr :=
  [ utf8 "get_attraction_by_name"; utf8 "get_attractions_by_category";
    utf8 "get_attractions_by_ward"; utf8 "get_transportation_info";
    utf8 "get_basic_info" ].

Definition except_Exception (e : exn) : bool := true.

(** [ReActAgent.execute_action] *)
Definition execute_action (self : ReActAgent) (action action_input : pystr)
  : traced pystr :=
  match lookup action (tools self) with
  | Some f =>
    try_except
      (tbind
         (if existsb (Str.eqb action) single_string_actions then
            call action f (Positional (strip_chars [dquote] action_input))
          else if Str.eqb action (utf8 "search_attractions") then
            try_except
              (tbind (lift (DataReader.json_loads (PStr action_input)))
                     (fun params => call_unpacked action f params))
              is_JSONDecodeError
              (fun _ =>
                 call action f
                   (Keywords [(utf8 "keyword",
                               PStr (strip_chars [dquote] action_input))]))
          else call action f NoArgs)
         (fun result => lift (json_dumps result)))
      except_Exception
      (fun e => ret (utf8 "执行动作时出错: " ++ exn_str e))
  | None => ret (utf8 "未知的动作: " ++ action)
  end.

(** The result of a run: what it returned or raised, the agent it leaves
    behind, and its events in order. *)
Record run := mk_run {
  trace : list event;
  agent : ReActAgent;
  result : outcome pystr
}.

(** A run that continues after the events [t]. *)
Definition after (t : list event) (r : run) : run :=
  mk_run (t ++ trace r) (agent r) (result r).

(** Lines joined by line feeds. *)
Fixpoint join_lines (ls : list pystr) : pystr :=
  match ls with
  | [] => []
  | [l] => l
  | l :: ls' => l ++ newline :: join_lines ls'
  end.

Definition system_prompt : pystr :=
  join_lines [
    utf8 "你是一个专业的东京旅游规划助手。使用ReAct模式来思考和行动。";
    utf8 "ReAct模式包含以下步骤：";
    utf8 "1. Thought: 分析当前情况并决定下一步行动";
    utf8 "2. Action: 从以下可用工具中选择一个执行";
    utf8 "   - get_all_attractions: 获取所有景点信息";
    utf8 "   - get_attraction_by_name: 获取特定景点详细信息，需要提供景点名称";
    utf8 "   - search_attractions: 搜索景点，可以提供关键词、分类、区域等参数";
    utf8 "   - get_attractions_by_category: 根据分类获取景点，需要提供分类名称";
    utf8 "   - get_attractions_by_ward: 根据区域获取景点，需要提供区域名称";
    utf8 "   - get_transportation_info: 获取景点的交通信息，需要提供景点名称";
    utf8 "   - get_basic_info: 获取景点的基本信息，需要提供景点名称";
    utf8 "3. Observation: 观察工具执行结果";
    utf8 "4. 重复以上步骤直到可以回答用户问题";
    [];
    utf8 "请严格按照以下格式输出：";
    utf8 "Thought: 你的思考过程";
    utf8 "Action: 工具名称";
    utf8 "Action Input: 工具参数";
    [];
    utf8 "最终回答用户问题时，请提供详细的旅游规划建议。";
    [] ].

(** The initial [history] of [plan_travel]. *)
Definition seed (query : pystr) : list message :=
  [ mk_message (utf8 "system") system_prompt;
    mk_message (utf8 "user") query ].

Definition budget_message (self : ReActAgent) : pystr :=
  utf8 "已达到预算限制（" ++ format_float (budget_limit self)
  ++ utf8 "元），无法继续执行。当前费用：" ++ format_4f (total_cost self)
  ++ utf8 "元".

Definition step_limit_message (self : ReActAgent) : pystr :=
  utf8 "抱歉，我无法在限定的步骤内完成您的请求。当前费用："
  ++ format_4f (total_cost self) ++ utf8 "元".

(** [cost_info], built after the totals were updated. *)
Definition cost_info (self : ReActAgent) (prompt_tokens completion_tokens : Z)
    (cost : float) : pystr :=
  [newline; newline] ++ utf8 "费用信息：本次对话消耗 "
  ++ str_int (prompt_tokens + completion_tokens)
  ++ utf8 " tokens，费用约为 " ++ format_4f cost
  ++ utf8 " 元。总计消耗 "
  ++ str_int (total_prompt_tokens self + total_completion_tokens self)
  ++ utf8 " tokens，总费用 " ++ format_4f (total_cost self) ++ utf8 " 元。".

(** The three updates of the running totals. *)
Definition add_usage (self : ReActAgent) (cost : float)
    (prompt_tokens completion_tokens : Z) : ReActAgent :=
  mk_agent (model self) (budget_limit self)
    (total_cost self + cost)%float
    (total_prompt_tokens self + prompt_tokens)
    (total_completion_tokens self + completion_tokens)
    (max_iterations self) (tools self).

(** [self.total_cost >= self.budget_limit] *)
Definition over_budget (self : ReActAgent) : bool :=
  (budget_limit self <=? total_cost self)%float.

(** The [for] loop of [plan_travel], with [n] iterations left. *)
Fixpoint react_loop (n : nat) (self : ReActAgent) (history : list message) : run :=
  match n with
  | O => mk_run [] self (Return (step_limit_message self))
  | S n' =>
    if over_budget self then mk_run [] self (Return (budget_message self))
    else
      let reply := chat_completions_create (model self) history 0.7 in
      let request := ModelCall (model self) history 0.7 reply in
      match reply with
      | Raise e => mk_run [request] self (Raise e)
      | Return response =>
        let prompt_tokens := usage_prompt_tokens response in
        let completion_tokens := usage_completion_tokens response in
        match calculate_cost self prompt_tokens completion_tokens with
        | Raise e => mk_run [request] self (Raise e)
        | Return cost =>
          let self := add_usage self cost prompt_tokens completion_tokens in
          let accounted := Accounted response cost (account_of self) in
          let answer := message_content response in
          let history := history ++ [mk_message (utf8 "assistant") answer] in
          let '(action, action_input) := extract_action answer in
          match action with
          | [] =>
            mk_run [request; accounted] self
              (Return (answer ++ cost_info self prompt_tokens completion_tokens cost))
          | _ =>
            match execute_action self action action_input with
            | (t, Raise e) => mk_run (request :: accounted :: t) self (Raise e)
            | (t, Return observation) =>
              let observation_message := utf8 "Observation: " ++ observation in
              let history :=
                history ++ [mk_message (utf8 "user") observation_message] in
              after (request :: accounted :: t) (react_loop n' self history)
            end
          end
        end
      end
  end.

(** [ReActAgent.plan_travel] *)
Definition plan_travel (self : ReActAgent) (query : pystr) : run :=
  if over_budget self then mk_run [] self (Return (budget_message self))
  else react_loop (max_iterations self) self (seed query).

(** The registry [__init__] builds over [self.data_reader]. *)
Definition default_tools (db_path : pystr) : list (pystr * tool) :=
  [ (utf8 "get_all_attractions",
     DataReader.method0 (utf8 "get_all_attractions")
       (DataReader.get_all_attractions db_path));
    (utf8 "get_attraction_by_name",
     DataReader.method1 (utf8 "get_attraction_by_name") (utf8 "name")
       (DataReader.get_attraction_by_name db_path));
    (utf8 "search_attractions", DataReader.search_attractions_method db_path);
    (utf8 "get_attractions_by_category",
     DataReader.method1 (utf8 "get_attractions_by_category") (utf8 "category")
       (DataReader.get_attractions_by_category db_path));
    (utf8 "get_attractions_by_ward",
     DataReader.method1 (utf8 "get_attractions_by_ward") (utf8 "ward")
       (DataReader.get_attractions_by_ward db_path));
    (utf8 "get_transportation_info",
     DataReader.method1 (utf8 "get_transportation_info") (utf8 "name")
       (DataReader.get_transportation_info db_path));
    (utf8 "get_basic_info",
     DataReader.method1 (utf8 "get_basic_info") (utf8 "name")
       (DataReader.get_basic_info db_path)) ].

(** [DataReader.__init__]'s default [db_path]. *)
Definition default_db_path : pystr := utf8 "tokyo_attractions.parquet".

(** [ReActAgent.__init__], once the configuration file has been read. *)
Definition __init__ (model : pystr) (budget_limit : float) : ReActAgent :=
  mk_agent model budget_limit 0 0 0 10 (default_tools default_db_path).

End WithExternals.
End Agent.

(* ================================================================== *)
(** * Vocabulary of the properties *)

Module Props.
Import Agent.

(** The number of model calls among the events of a run. *)
Fixpoint model_calls (t : list event) : nat :=
  match t with
  | [] => O
  | ModelCall _ _ _ _ :: t' => S (model_calls t')
  | _ :: t' => model_calls t'
  end.

(** The completions the model returned, in order. *)
Fixpoint replies (t : list event) : list completion :=
  match t with
  | [] => []
  | ModelCall _ _ _ (Return c) :: t' => c :: replies t'
  | _ :: t' => replies t'
  end.

(** The per-call costs that were added to the running total, in order. *)
Fixpoint accounted_costs (t : list event) : list float :=
  match t with
  | [] => []
  | Accounted _ cost _ :: t' => cost :: accounted_costs t'
  | _ :: t' => accounted_costs t'
  end.

(** The completions whose usage was added to the running totals. *)
Fixpoint accounted_replies (t : list event) : list completion :=
  match t with
  | [] => []
  | Accounted response _ _ :: t' => response :: accounted_replies t'
  | _ :: t' => accounted_replies t'
  end.

(** The running totals after the events [t], starting from [a]. *)
Fixpoint closing (a : account) (t : list event) : account :=
  match t with
  | [] => a
  | Accounted _ _ totals :: t' => closing totals t'
  | _ :: t' => closing a t'
  end.

(** The totals after one more call has been charged. *)
Definition charge (a : account) (cost : float) (response : completion) : account :=
  mk_account (spent a + cost)%float
             (prompt_count a + usage_prompt_tokens response)
             (completion_count a + usage_completion_tokens response).

(** The tool invocations of a run, in order. *)
Fixpoint tool_calls (t : list event) : list (pystr * call_args) :=
  match t with
  | [] => []
  | ToolCall name args :: t' => (name, args) :: tool_calls t'
  | _ :: t' => tool_calls t'
  end.

(** The discipline of a run, read off its events from the totals [a] on:
    a request to the model is made only while the total cost is below the
    budget limit, names the agent's model, and no earlier reply is still
    waiting to be accounted; an update of the totals follows the reply it is
    for, which was requested below the budget limit, charges the cost [calculate_cost] gives for that reply's usage, and
    leaves the totals increased by exactly this cost and these counts. *)
Fixpoint audited (self : ReActAgent) (a : account) (pending : option completion)
    (t : list event) : Prop :=
  match t with
  | [] => True
  | ModelCall m _ _ reply :: t' =>
    pending = None /\ m = model self /\
    (budget_limit self <=? spent a)%float = false /\
    audited self a (match reply with Return c => Some c | Raise _ => None end) t'
  | Accounted response cost totals :: t' =>
    pending = Some response /\
    (budget_limit self <=? spent a)%float = false /\
    calculate_cost self (usage_prompt_tokens response)
                   (usage_completion_tokens response) = Return cost /\
    totals = charge a cost response /\
    audited self totals None t'
  | ToolCall _ _ :: t' => pending = None /\ audited self a None t'
  end.

(** The budget is never reached in a run of [self] with events [t]: the
    total cost is below the limit at the start and after every update. *)
Definition below_budget (self : ReActAgent) (t : list event) : Prop :=
  over_budget self = false /\
  forall response cost totals,
    In (Accounted response cost totals) t ->
    (budget_limit self <=? spent totals)%float = false.

(** The model answers every request with a completion that names an action
    and whose usage [calculate_cost] can price. *)
Definition always_acts {ext : Externals} (self : ReActAgent) : Prop :=
  forall m history temperature,
    exists c,
      chat_completions_create m history temperature = Return c /\
      fst (extract_action (message_content c)) <> [] /\
      exists cost,
        calculate_cost self (usage_prompt_tokens c) (usage_completion_tokens c)
        = Return cost.

Definition is_tool_call (e : event) : Prop :=
  match e with ToolCall _ _ => True | _ => False end.

(** The sum of a list of floats as a running total computes it: the
    additions are made in order, starting from [start]. *)
Definition running_sum (start : float) (costs : list float) : float :=
  fold_left PrimFloat.add costs start.

Definition sumZ (l : list Z) : Z := fold_left Z.add l 0%Z.

(** The two fixed formats of observations that report a failure. *)
Definition unknown_action_observation (action : pystr) : pystr :=
  utf8 "未知的动作: " ++ action.

Definition error_observation (e : exn) : pystr :=
  utf8 "执行动作时出错: " ++ exn_str e.

(** The specification's reading of the parser: the rest of the marker's own
    line, stripped. *)
Definition line_after (marker response : pystr) : pystr :=
  match after_first marker response with
  | Some rest => strip (take_line rest)
  | None => []
  end.

(** The specification's reading of the quote handling: one double quote is
    removed at each end of a text that has one at both ends. *)
Definition strip_one_layer (s : pystr) : pystr :=
  match s with
  | q :: rest =>
    if (q =? dquote)%N then
      match rev rest with
      | q' :: inner => if (q' =? dquote)%N then rev inner else s
      | [] => s
      end
    else s
  | [] => s
  end.

(** What [execute_action] makes of the outcome of a tool call: the
    serialized result, or the report of the error raised by the call or by
    the serialization. *)
Definition observation_of {ext : Externals} (r : outcome pyval) : pystr :=
  match r with
  | Return v =>
    match json_dumps v with
    | Return s => s
    | Raise e => error_observation e
    end
  | Raise e => error_observation e
  end.

(** The last tool invocation among the events. *)
Definition final_call (t : list event) : option (pystr * call_args) :=
  last (map Some (tool_calls t)) None.

(** [s] neither starts nor ends with white space. *)
Definition stripped (s : pystr) : Prop :=
  (forall c s', s = c :: s' -> isspace c = false) /\
  (forall c s', s = s' ++ [c] -> isspace c = false).

(** [s] has no double quote at either end. *)
Definition unquoted (s : pystr) : Prop :=
  (forall c s', s = c :: s' -> c <> dquote) /\
  (forall c s', s = s' ++ [c] -> c <> dquote).

(** [value] is what the parser extracts for [marker]: the text after the
    leftmost occurrence of the marker, from the first character that is not
    white space up to the end of that character's line, stripped. *)
Definition extracted_field (marker response value : pystr) : Prop :=
  stripped value /\
  (~ occurs_in marker response -> value = []) /\
  (forall pre rest,
     response = pre ++ marker ++ rest ->
     (forall pre' rest', response = pre' ++ marker ++ rest' ->
        (List.length pre <= List.length pre')%nat) ->
     value = strip (take_line (lstrip_by isspace rest))) /\
  (line_after marker response <> [] -> value = line_after marker response).

(** ** Further vocabulary *)

Definition is_dquote (c : N) : bool := existsb (N.eqb c) [dquote].

Definition search_name : pystr := utf8 "search_attractions".

(** The argument of the fall-back call of the multi-keyword strategy. *)
Definition keyword_only (raw : pystr) : call_args :=
  Keywords [(utf8 "keyword", PStr (strip_chars [dquote] raw))].

Definition not_decode_error (r : outcome pyval) : Prop :=
  forall e, r = Raise e -> is_JSONDecodeError e = false.

Definition name_matches (name : pystr) (r : row) : option bool :=
  DataReader.cell_equals (col_name r) name.

Definition not_str_message (v : pyval) : pystr :=
  utf8 "the JSON object must be str, bytes or bytearray, not " ++ type_name v.

(** The static fields of an agent. *)
Definition configuration (self : ReActAgent) :=
  (model self, budget_limit self, max_iterations self, tools self).

(** The two binary64 parameters, spelled out. *)
Definition fexp64 (e : Z) : Z := Z.max (e - 53) (-1074)%Z.

(** A float of positive sign that is a number: [+0], a positive finite
    number or [+inf]. *)
Definition positive_sign (x : spec_float) : Prop :=
  match x with
  | S754_zero false | S754_infinity false | S754_finite false _ _ => True
  | _ => False
  end.

(** [0 <= x]: as above, or [-0]. *)
Definition not_negative (x : spec_float) : Prop :=
  match x with
  | S754_zero _ | S754_infinity false | S754_finite false _ _ => True
  | _ => False
  end.

(** The share of one kind of token in the cost. *)
Definition share (tokens price : float) : float := (tokens / 1000 * price)%float.

(** The usage of [response] is priced [cost]. *)
Definition priced (self : ReActAgent) (response : completion) (cost : float) : Prop :=
  calculate_cost self (usage_prompt_tokens response)
                 (usage_completion_tokens response) = Return cost.

Definition pending_list (pending : option completion) : list completion :=
  match pending with Some c => [c] | None => [] end.

(** The usage reports hold counts that are not negative. *)
Definition usage_not_negative (c : completion) : Prop :=
  (0 <= usage_prompt_tokens c)%Z /\ (0 <= usage_completion_tokens c)%Z.

End Props.
Import Props.

(* ================================================================== *)
(** * A concrete environment

    Stand-ins for the collaborators, used to run the program on examples:
    a decoder and an encoder for a fragment of JSON, the two float formats,
    a table holding the first record of [init_db.py], and scripted models. *)

Module Demo.
Import Agent.

Definition json_space (c : N) : bool :=
  ((c =? 32) || (c =? 9) || (c =? 10) || (c =? 13))%N.

(** A character a JSON string holds unescaped. *)
Definition plain (c : N) : bool :=
  ((32 <=? c) && negb (c =? 34) && negb (c =? 92))%N.

(** After an opening quote: the text up to the closing quote, and what
    follows it. *)
Fixpoint string_body (s : pystr) : option (pystr * pystr) :=
  match s with
  | [] => None
  | c :: s' =>
    if (c =? dquote)%N then Some ([], s')
    else if plain c then
      match string_body s' with
      | Some (b, r) => Some (c :: b, r)
      | None => None
      end
    else None
  end.

Definition string_literal (s : pystr) : option (pystr * pystr) :=
  match lstrip_by json_space s with
  | q :: s' => if (q =? dquote)%N then string_body s' else None
  | [] => None
  end.

(** The members of an object whose values are strings, after the opening
    brace. *)
Fixpoint members (fuel : nat) (s : pystr) : option (list (pystr * pyval) * pystr) :=
  match fuel with
  | O => None
  | S fuel' =>
    match string_literal s with
    | None => None
    | Some (k, s1) =>
      match lstrip_by json_space s1 with
      | 58%N :: s2 =>
        match string_literal s2 with
        | None => None
        | Some (v, s3) =>
          match lstrip_by json_space s3 with
          | 44%N :: s4 =>
            match members fuel' s4 with
            | Some (kvs, r) =>
              if DataReader.has_key k (PDict kvs) then None else Some ((k, PStr v) :: kvs, r)
            | None => None
            end
          | 125%N :: r => Some ([(k, PStr v)], r)
          | _ => None
          end
        end
      | _ => None
      end
    end
  end.

Definition only_space (s : pystr) : bool := forallb json_space s.

(** [json.loads] on the fragment: a string without escapes, or an object
    with distinct keys whose values are such strings.  Every other text is
    rejected. *)
Definition decode (s : pystr) : option pyval :=
  match lstrip_by json_space s with
  | 34%N :: s' =>
    match string_body s' with
    | Some (b, r) => if only_space r then Some (PStr b) else None
    | None => None
    end
  | 123%N :: s' =>
    match lstrip_by json_space s' with
    | 125%N :: r => if only_space r then Some (PDict []) else None
    | _ =>
      match members (S (List.length s')) s' with
      | Some (kvs, r) => if only_space r then Some (PDict kvs) else None
      | None => None
      end
    end
  | _ => None
  end.

Definition quoted (s : pystr) : pystr := dquote :: s ++ [dquote].

Fixpoint dump_members (kvs : list (pystr * pyval)) : option pystr :=
  match kvs with
  | [] => Some []
  | (k, PStr v) :: kvs' =>
    if forallb plain k && forallb plain v then
      match dump_members kvs' with
      | Some rest =>
        Some ([newline] ++ utf8 "  " ++ quoted k ++ utf8 ": " ++ quoted v
              ++ match kvs' with [] => [newline] | _ => utf8 "," ++ rest end)
      | None => None
      end
    else None
  | _ => None
  end.

(** [json.dumps(v, ensure_ascii=False, indent=2)] on the same fragment and
    on the empty list; the stand-in refuses any other value. *)
Definition dumps (v : pyval) : outcome pystr :=
  let refuse := Raise (mk_exn (OtherException (utf8 "NotImplementedError")) []) in
  match v with
  | PStr s => if forallb plain s then Return (quoted s) else refuse
  | PList [] => Return (utf8 "[]")
  | PDict [] => Return (utf8 "{}")
  | PDict kvs =>
    match dump_members kvs with
    | Some body => Return (utf8 "{" ++ body ++ utf8 "}")
    | None => refuse
    end
  | _ => refuse
  end.

Definition sign (s : bool) : pystr := if s then utf8 "-" else [].

Fixpoint zero_pad (fuel : nat) (width : nat) (s : pystr) : pystr :=
  match fuel with
  | O => s
  | S fuel' =>
    if (List.length s <? width)%nat then zero_pad fuel' width (48%N :: s) else s
  end.

(** The nearest integer to [n / d], ties to even ([0 < d]). *)
Definition div_nearest_even (n d : Z) : Z :=
  let q := (n / d)%Z in
  let r := (n mod d)%Z in
  if (2 * r <? d)%Z then q
  else if (d <? 2 * r)%Z then (q + 1)%Z
  else if Z.even q then q else (q + 1)%Z.

(** The format [.4f]. *)
Definition fixed4 (x : float) : pystr :=
  match Prim2SF x with
  | S754_nan => utf8 "nan"
  | S754_infinity s => sign s ++ utf8 "inf"
  | S754_zero s => sign s ++ utf8 "0.0000"
  | S754_finite s m e =>
    let n := if (0 <=? e)%Z then (Zpos m * 2 ^ e * 10000)%Z
             else div_nearest_even (Zpos m * 10000) (2 ^ (- e)) in
    sign s ++ str_int (n / 10000) ++ utf8 "."
    ++ zero_pad 4 4 (str_int (n mod 10000))
  end.

(** The value [m * 2 ^ e] as a fraction. *)
Definition fraction (m : positive) (e : Z) : Z * Z :=
  if (0 <=? e)%Z then (Zpos m * 2 ^ e, 1)%Z else (Zpos m, 2 ^ (- e))%Z.

(** The least [p] with [n / d < 10 ^ p], searched upwards from [p]. *)
Fixpoint decimal_point (fuel : nat) (n d p : Z) : Z :=
  match fuel with
  | O => p
  | S fuel' =>
    if (if (0 <=? p)%Z then (n <? d * 10 ^ p)%Z else (n * 10 ^ (- p) <? d)%Z)
    then p else decimal_point fuel' n d (p + 1)%Z
  end.

(** [n / d] rounded to [k] significant digits: the digits and the position
    of the decimal point. *)
Definition round_digits (n d : Z) (k : Z) : Z * Z :=
  let p := decimal_point 700 n d (-330) in
  let s := (k - p)%Z in
  let D := if (0 <=? s)%Z then div_nearest_even (n * 10 ^ s) d
           else div_nearest_even n (d * 10 ^ (- s)) in
  if (D =? 10 ^ k)%Z then (10 ^ (k - 1), p + 1)%Z else (D, p).

(** The binary64 number nearest to [D * 10 ^ q]. *)
Definition of_decimal (D q : Z) : spec_float :=
  if (0 <=? q)%Z then binary_normalize prec emax (D * 10 ^ q) 0 false
  else SFdiv prec emax (S754_finite false (Z.to_pos D) 0)
         (S754_finite false (Z.to_pos (10 ^ (- q))) 0).

Definition same_float (a b : spec_float) : bool :=
  match a, b with
  | S754_finite s m e, S754_finite s' m' e' =>
    Bool.eqb s s' && (m =? m')%positive && (e =? e')%Z
  | _, _ => false
  end.

(** The shortest digits that read back as [m * 2 ^ e]. *)
Fixpoint shortest (fuel : nat) (m : positive) (e : Z) (k : Z) : Z * Z :=
  let '(n, d) := fraction m e in
  let '(D, p) := round_digits n d k in
  match fuel with
  | O => (D, p)
  | S fuel' =>
    if same_float (of_decimal D (p - k)) (S754_finite false m e) then (D, p)
    else shortest fuel' m e (k + 1)
  end.

Fixpoint zeros (n : nat) : pystr :=
  match n with O => [] | S n' => 48%N :: zeros n' end.

(** [repr] of a float, which is also its format in an f-string. *)
Definition repr (x : float) : pystr :=
  match Prim2SF x with
  | S754_nan => utf8 "nan"
  | S754_infinity s => sign s ++ utf8 "inf"
  | S754_zero s => sign s ++ utf8 "0.0"
  | S754_finite s m e =>
    let '(D, p) := shortest 16 m e 1 in
    let ds := str_int D in
    let k := Z.of_nat (List.length ds) in
    sign s ++
    if ((-4 <? p) && (p <=? 16))%Z then
      if (p <=? 0)%Z then utf8 "0." ++ zeros (Z.to_nat (- p)) ++ ds
      else if (k <=? p)%Z then ds ++ zeros (Z.to_nat (p - k)) ++ utf8 ".0"
      else firstn (Z.to_nat p) ds ++ utf8 "." ++ skipn (Z.to_nat p) ds
    else
      let x := (p - 1)%Z in
      firstn 1 ds
      ++ match skipn 1 ds with [] => [] | rest => utf8 "." ++ rest end
      ++ utf8 "e" ++ (if (x <? 0)%Z then utf8 "-" else utf8 "+")
      ++ zero_pad 2 2 (str_int (Z.abs x))
  end.

(** The first record of [init_db.py]; its [transportation] text is written
    with [quoted] in place of the quotation marks of the JSON text. *)
Definition asakusa_transportation : pystr :=
  utf8 "{" ++ quoted (utf8 "地铁") ++ utf8 ": "
  ++ quoted (utf8 "银座线浅草站步行5分钟") ++ utf8 ", "
  ++ quoted (utf8 "JR") ++ utf8 ": "
  ++ quoted (utf8 "山手線上野站步行10分钟") ++ utf8 "}".

Definition asakusa : row :=
  mk_row (Some (utf8 "浅草寺")) (Some (utf8 "东京")) (Some (utf8 "台东区"))
    (Some (utf8 "东京最古老的寺庙，雷门是其标志性入口"))
    (Some (utf8 "东京都台东区浅草2-3-1"))
    (Some 35.714702%float) (Some 139.796708%float)
    (Some (utf8 "免费")) (Some (utf8 "全天开放")) (Some (utf8 "1-2小时"))
    (Some (utf8 "寺庙,文化,历史"))
    (Some asakusa_transportation)
    (Some (utf8 "浅草文化观光中心,雷门"))
    (Some (utf8 "https://www.senso-ji.jp/"))
    (Some (utf8 "+81-3-3842-0181")) (Some (utf8 "2025-08-09")).

(** A record whose [transportation] text is a JSON string, not an object. *)
Definition teahouse : row :=
  mk_row (Some (utf8 "茶屋")) (Some (utf8 "东京")) (Some (utf8 "台东区"))
    (Some (utf8 "浅草的老茶屋")) (Some (utf8 "东京都台东区浅草1-1-1"))
    (Some 35.71%float) (Some 139.79%float)
    (Some (utf8 "免费")) (Some (utf8 "全天开放")) (Some (utf8 "1小时"))
    (Some (utf8 "美食")) (Some (quoted (utf8 "步行5分钟")))
    None None None (Some (utf8 "2025-08-09")).

Definition table : list row := [asakusa; teahouse].

(** A model that answers at once. *)
Definition final_answer : completion :=
  mk_completion (utf8 "上午参观浅草寺，下午前往东京塔。") 412 58.

Definition answers_directly (m : pystr) (h : list message) (t : float)
  : outcome completion :=
  Return final_answer.

(** A model that asks for a tool on every turn. *)
Definition tool_request : completion :=
  mk_completion
    (utf8 "Thought: 查询景点" ++ [newline] ++ utf8 "Action: get_basic_info"
     ++ [newline] ++ utf8 "Action Input: " ++ quoted (utf8 "晴空塔")) 300 40.

Definition keeps_asking (m : pystr) (h : list message) (t : float)
  : outcome completion :=
  Return tool_request.

(** The environment with a given model and table. *)
Definition env (chat : pystr -> list message -> float -> outcome completion)
    (df : list row) : Externals :=
  {| json_decode := decode;
     json_dumps := dumps;
     format_4f := fixed4;
     format_float := repr;
     chat_completions_create := chat;
     read_parquet := fun _ => Return df;
     filter_non_str := fun _ _ _ =>
       Raise (mk_exn (OtherException (utf8 "InvalidOperationError")) []);
     call_error_text := fun name _ => name ++ utf8 "() got unexpected arguments";
     not_a_mapping_text := fun name v =>
       utf8 "DataReader.DataReader." ++ name
       ++ utf8 "() argument after ** must be a mapping, not " ++ type_name v |}.

(** The two environments of the examples. *)
Definition direct : Externals := env answers_directly table.
Definition looping : Externals := env keeps_asking table.

(** [ReActAgent()] with the defaults of its constructor. *)
Definition fresh (e : Externals) : ReActAgent :=
  @__init__ e (utf8 "qwen-flash") 0.1%float.

(** An agent that has already spent its budget. *)
Definition spent (e : Externals) : ReActAgent :=
  add_usage (fresh e) 0.25%float 1000 200.

(** The cost of a completion for an agent, zero if it cannot be priced. *)
Definition cost_of (self : ReActAgent) (c : completion) : float :=
  match calculate_cost self (usage_prompt_tokens c) (usage_completion_tokens c) with
  | Return cost => cost
  | Raise _ => 0%float
  end.

Definition query : pystr := utf8 "请帮我规划东京一日游".

End Demo.

(* ================================================================== *)
(** * DataWriter.py

    The class [DataWriter]: the structured and the free-text way of adding
    an attraction to the table.  Frames that the program builds and writes
    are values of an abstract type; what polars makes of them is a field of
    [Library]. *)

Module Text.

(** [sep.join(items)] *)
Fixpoint join (sep : pystr) (items : list pystr) : pystr :=
  match items with
  | [] => []
  | [x] => x
  | x :: rest => x ++ sep ++ join sep rest
  end.

(** [s.find(c)] for one character, counted from [i]. *)
Fixpoint find_from (i : Z) (c : N) (s : pystr) : Z :=
  match s with
  | [] => (-1)%Z
  | d :: s' => if (d =? c)%N then i else find_from (i + 1)%Z c s'
  end.

Definition find (c : N) (s : pystr) : Z := find_from 0 c s.

(** [s.rfind(c)] for one character, counted from [i]. *)
Fixpoint rfind_from (i : Z) (c : N) (s : pystr) : Z :=
  match s with
  | [] => (-1)%Z
  | d :: s' =>
    let later := rfind_from (i + 1)%Z c s' in
    if (later =? -1)%Z then (if (d =? c)%N then i else (-1)%Z) else later
  end.

Definition rfind (c : N) (s : pystr) : Z := rfind_from 0 c s.

(** An index of a slice, brought into the range of the text. *)
Definition clamp (len i : Z) : Z :=
  if (i <? 0)%Z then Z.max 0 (i + len) else Z.min i len.

(** [s[a:b]] *)
Definition slice (a b : Z) (s : pystr) : pystr :=
  let len := Z.of_nat (List.length s) in
  let a' := clamp len a in
  let b' := clamp len b in
  firstn (Z.to_nat (b' - a')) (skipn (Z.to_nat a') s).

Definition lbrace : N := 123%N.
Definition rbrace : N := 125%N.

(** A text between double quotes. *)
Definition quote (s : pystr) : pystr := dquote :: s ++ [dquote].

End Text.

Module DataWriter.
Import Text.

(** What the writer needs of its libraries besides [Externals]. *)
Class Library := {
  (** A polars frame that the program has built. *)
  frame : Type;
  (** [pl.DataFrame([record])] *)
  pl_DataFrame : list (pystr * pyval) -> outcome frame;
  (** [pl.concat([df, new_record])] for a table [df] that was read *)
  pl_concat : list row -> frame -> outcome frame;
  (** [df.write_parquet(path)] *)
  write_parquet : frame -> pystr -> outcome unit;
  (** [json.dumps(v, ensure_ascii=False)] *)
  json_dumps_line : pyval -> outcome pystr;
  (** [datetime.now().strftime("%Y-%m-%d")] *)
  today : pystr;
  (** [json.load] of the file at a path, opened for reading. *)
  load_json_file : pystr -> outcome pyval;
  (** The interpreter's wording of the use of a local variable that was
      never bound. *)
  unbound_local_text : pystr -> pystr
}.

(** The fields of a [DataWriter]. *)
Record DataWriter := mk_writer {
  db_path : pystr;
  config_path : pystr;
  api_key : pyval
}.

Definition ValueError (msg : pystr) : exn :=
  mk_exn (OtherException (utf8 "ValueError")) msg.

Definition AttributeError (v : pyval) (attribute : pystr) : exn :=
  mk_exn (OtherException (utf8 "AttributeError"))
    (utf8 "'" ++ type_name v ++ utf8 "' object has no attribute '"
     ++ attribute ++ utf8 "'").

(** [except FileNotFoundError] *)
Definition is_FileNotFoundError (e : exn) : bool :=
  match exn_type e with
  | OtherException name => Str.eqb name (utf8 "FileNotFoundError")
  | _ => false
  end.

(** [v.get(k, default)] *)
Definition get (k : pystr) (default : pyval) (v : pyval) : outcome pyval :=
  match v with
  | PDict d =>
    Return (match lookup k d with Some x => x | None => default end)
  | _ => Raise (AttributeError v (utf8 "get"))
  end.

(** [field in v] *)
Definition contains_key (field : pystr) (v : pyval) : outcome bool :=
  match v with
  | PDict d =>
    Return (match lookup field d with Some _ => true | None => false end)
  | PList l =>
    Return (existsb (fun x => match x with
                              | PStr s => Str.eqb s field
                              | _ => false
                              end) l)
  | PStr s => Return (contains field s)
  | _ =>
    Raise (mk_exn TypeError
      (utf8 "argument of type '" ++ type_name v ++ utf8 "' is not iterable"))
  end.

(** [d.setdefault(k, v)]: a key the dict has keeps its value, a new one is
    added at the end. *)
Definition setdefault (k : pystr) (v : pyval) (d : list (pystr * pyval))
  : list (pystr * pyval) :=
  match lookup k d with
  | Some _ => d
  | None => d ++ [(k, v)]
  end.

(** The items of a list that [join] accepts: all of them must be [str]. *)
Fixpoint str_items (i : nat) (l : list pyval) : outcome (list pystr) :=
  match l with
  | [] => Return []
  | PStr s :: rest =>
    match str_items (S i) rest with
    | Return items => Return (s :: items)
    | Raise e => Raise e
    end
  | v :: _ =>
    Raise (mk_exn TypeError
      (utf8 "sequence item " ++ str_int (Z.of_nat i)
       ++ utf8 ": expected str instance, " ++ type_name v ++ utf8 " found"))
  end.

Definition required_fields : list pystr :=
  [utf8 "name"; utf8 "city"; utf8 "ward"; utf8 "description"].

(** The loop over [required_fields]. *)
Fixpoint check_required (fields : list pystr) (attraction_data : pyval)
  : outcome unit :=
  match fields with
  | [] => Return tt
  | field :: rest =>
    present <- contains_key field attraction_data ;;
    if present then check_required rest attraction_data
    else Raise (ValueError (utf8 "缺少必填字段: " ++ field))
  end.

(** The defaults, in the order of the [setdefault] calls. *)
Definition defaults : list (pystr * pyval) :=
  [ (utf8 "latitude", PFloat 0);
    (utf8 "longitude", PFloat 0);
    (utf8 "ticket_price", PStr (utf8 "未知"));
    (utf8 "opening_hours", PStr (utf8 "未知"));
    (utf8 "recommended_duration", PStr (utf8 "未知"));
    (utf8 "categories", PList []);
    (utf8 "transportation", PDict []);
    (utf8 "nearby_attractions", PList []);
    (utf8 "website", PStr []);
    (utf8 "phone", PStr []) ].

Definition set_defaults (d : list (pystr * pyval)) : list (pystr * pyval) :=
  fold_left (fun d kv => setdefault (fst kv) (snd kv) d) defaults d.

(** The system message and the prompt of [extract_structured_data]. *)
Definition system_text : pystr :=
  utf8 "你是一个专业的数据提取助手，能够从非结构化文本中提取结构化信息。".

Definition prompt (unstructured_text : pystr) : pystr :=
  Agent.join_lines [
    [];
    utf8 "        请从以下文本中提取东京景点的结构化信息，并以JSON格式返回：";
    [];
    utf8 "        文本内容：";
    utf8 "        " ++ unstructured_text;
    [];
    utf8 "        请提取以下字段信息：";
    utf8 "        - name: 景点名称";
    utf8 "        - city: 城市（默认为" ++ quote (utf8 "东京") ++ utf8 "）";
    utf8 "        - ward: 区域（如台东区、港区等）";
    utf8 "        - description: 景点描述";
    utf8 "        - address: 详细地址";
    utf8 "        - latitude: 纬度（如果不知道则填0.0）";
    utf8 "        - longitude: 经度（如果不知道则填0.0）";
    utf8 "        - ticket_price: 门票价格";
    utf8 "        - opening_hours: 开放时间";
    utf8 "        - recommended_duration: 推荐游览时长";
    utf8 "        - categories: 分类标签（以数组形式返回，如["
      ++ quote (utf8 "寺庙") ++ utf8 ", " ++ quote (utf8 "文化") ++ utf8 "]）";
    utf8 "        - transportation: 交通信息（以字典形式返回，如{"
      ++ quote (utf8 "地铁") ++ utf8 ": " ++ quote (utf8 "银座线浅草站步行5分钟")
      ++ utf8 "}）";
    utf8 "        - nearby_attractions: 附近景点（以数组形式返回）";
    utf8 "        - website: 官方网站";
    utf8 "        - phone: 联系电话";
    [];
    utf8 "        只返回JSON格式的数据，不要包含其他内容。";
    utf8 "        " ].

Section WithExternals.
Context {ext : Externals} {lib : Library}.

(** What a call of the writer does besides returning: a request to the
    model with its reply, and a write of the table with its outcome. *)
Inductive event :=
| Request (model : pystr) (messages : list message) (temperature : float)
          (reply : outcome completion)
| Saved (path : pystr) (df : frame) (written : outcome unit).

Definition traced (A : Type) : Type := list event * outcome A.

Definition ret {A} (a : A) : traced A := ([], Return a).

Definition lift {A} (m : outcome A) : traced A := ([], m).

Definition tbind {A B} (m : traced A) (k : A -> traced B) : traced B :=
  match m with
  | (t, Return a) => let '(t', r) := k a in (t ++ t', r)
  | (t, Raise e) => (t, Raise e)
  end.

(** [try: body except Exception: handler] *)
Definition try_except {A} (body : traced A) (handler : exn -> traced A)
  : traced A :=
  match body with
  | (t, Return a) => (t, Return a)
  | (t, Raise e) => let '(t', r) := handler e in (t ++ t', r)
  end.

(** [DataWriter._load_config] *)
Definition _load_config (path : pystr) : outcome pyval :=
  match (config <- load_json_file path ;; get (utf8 "key") (PStr []) config) with
  | Return key => Return key
  | Raise e => if is_FileNotFoundError e then Return (PStr []) else Raise e
  end.

(** [DataWriter.__init__] *)
Definition __init__ (db_path config_path : pystr) : outcome DataWriter :=
  key <- _load_config config_path ;;
  Return (mk_writer db_path config_path key).

(** [DataWriter._load_data]: the code of [DataReader._load_data]. *)
Definition _load_data (self : DataWriter) : list row :=
  DataReader._load_data (db_path self).

(** [DataWriter._save_data] *)
Definition _save_data (self : DataWriter) (df : frame) : traced bool :=
  try_except
    (let written := write_parquet df (db_path self) in
     tbind ([Saved (db_path self) df written], written)
           (fun _ => ret true))
    (fun _ => ret false).

(** The inner [try] of [extract_structured_data]: the text from the first
    opening brace to the last closing one is decoded. *)
Definition from_braces (content : pystr) : outcome pyval :=
  let start := find lbrace content in
  let end_ := (rfind rbrace content + 1)%Z in
  let attempt :=
    if negb (start =? -1)%Z && (start <? end_)%Z then
      DataReader.json_loads (PStr (slice start end_ content))
    else Raise (ValueError (utf8 "无法从响应中提取JSON数据")) in
  match attempt with
  | Return structured_data => Return structured_data
  | Raise e => Raise (ValueError (utf8 "数据提取失败: " ++ exn_str e))
  end.

(** [DataWriter.extract_structured_data] *)
Definition extract_structured_data (self : DataWriter) (unstructured_text : pystr)
  : traced pyval :=
  if negb (truthy (api_key self)) then
    lift (Raise (ValueError (utf8 "API密钥未配置")))
  else
    let messages :=
      [ mk_message (utf8 "system") system_text;
        mk_message (utf8 "user") (prompt unstructured_text) ] in
    let reply := chat_completions_create (utf8 "qwen-flash") messages 0.3 in
    let request := Request (utf8 "qwen-flash") messages 0.3 reply in
    match reply with
    | Return response =>
      let content := message_content response in
      match DataReader.json_loads (PStr content) with
      | Return structured_data => ([request], Return structured_data)
      | Raise e =>
        if is_JSONDecodeError e then ([request], from_braces content)
        else ([request], Raise (ValueError (utf8 "AI调用失败: " ++ exn_str e)))
      end
    | Raise e =>
      if is_JSONDecodeError e then
        (* [content] was never bound: its use in the handler raises, inside
           the inner [try]. *)
        ([request],
         Raise (ValueError (utf8 "数据提取失败: "
                            ++ unbound_local_text (utf8 "content"))))
      else ([request], Raise (ValueError (utf8 "AI调用失败: " ++ exn_str e)))
    end.

(** [if isinstance(d[k], list): d[k] = ",".join(d[k])] *)
Definition join_if_list (k : pystr) (d : list (pystr * pyval))
  : outcome (list (pystr * pyval)) :=
  v <- DataReader.getitem k (PDict d) ;;
  match v with
  | PList l =>
    items <- str_items 0 l ;;
    Return (assign k (PStr (join [comma] items)) d)
  | _ => Return d
  end.

(** [if isinstance(d[k], dict): d[k] = json.dumps(d[k], ensure_ascii=False)] *)
Definition dump_if_dict (k : pystr) (d : list (pystr * pyval))
  : outcome (list (pystr * pyval)) :=
  v <- DataReader.getitem k (PDict d) ;;
  match v with
  | PDict _ =>
    text <- json_dumps_line v ;;
    Return (assign k (PStr text) d)
  | _ => Return d
  end.

(** The first part of [_add_structured_attraction]: the check of the
    required fields, the defaults, the date and the formats of the three
    special fields.  The result is the record as it is stored. *)
Definition prepare (attraction_data : pyval) : outcome (list (pystr * pyval)) :=
  _ <- check_required required_fields attraction_data ;;
  match attraction_data with
  | PDict d =>
    let d := set_defaults d in
    let d := assign (utf8 "last_updated") (PStr today) d in
    d <- join_if_list (utf8 "categories") d ;;
    d <- dump_if_dict (utf8 "transportation") d ;;
    join_if_list (utf8 "nearby_attractions") d
  | _ => Raise (AttributeError attraction_data (utf8 "setdefault"))
  end.

(** [DataWriter._add_structured_attraction].  The code changes the dict of
    its caller in place; the callers of this repository do not read it
    afterwards, and the embedding passes the changed dict on without
    returning it. *)
Definition _add_structured_attraction (self : DataWriter) (attraction_data : pyval)
  : traced bool :=
  try_except
    (tbind (lift (prepare attraction_data)) (fun d =>
     let df := _load_data self in
     tbind (lift (name <- DataReader.getitem (utf8 "name") (PDict d) ;;
                  DataReader.str_filter (utf8 "name")
                    (fun r s => DataReader.cell_equals (col_name r) s) name df))
       (fun same =>
     if (0 <? List.length same)%nat then ret false
     else
       tbind (lift (pl_DataFrame d)) (fun new_record =>
       tbind (lift (if (0 <? List.length df)%nat
                    then pl_concat df new_record
                    else Return new_record)) (fun df =>
       _save_data self df)))))
    (fun _ => ret false).

(** [DataWriter.add_attraction_data] *)
Definition add_attraction_data (self : DataWriter) (is_structured : bool)
    (input_data : pyval) : traced bool :=
  try_except
    (match is_structured, input_data with
     | true, PDict _ => _add_structured_attraction self input_data
     | _, PStr unstructured_text =>
       tbind (extract_structured_data self unstructured_text)
             (fun structured_data =>
                _add_structured_attraction self structured_data)
     | _, _ => lift (Raise (ValueError (utf8 "非结构化数据必须是字符串类型")))
     end)
    (fun _ => ret false).

End WithExternals.
End DataWriter.

(* ================================================================== *)
(** * Vocabulary of the further properties *)

Module Facts.

(** A cell that holds a text in which [lit] occurs. *)
Definition cell_has (lit : pystr) (o : option pystr) : bool :=
  match o with Some c => contains lit c | None => false end.

(** A cell that holds exactly the text [s]. *)
Definition cell_is (s : pystr) (o : option pystr) : bool :=
  match o with Some c => Str.eqb c s | None => false end.

(** The rows a search is to keep: each criterion that is not the empty
    string must hold; a null cell satisfies none. *)
Definition passes (keyword category ward : pystr) (r : row) : bool :=
  (match keyword with
   | [] => true
   | _ => cell_has keyword (col_name r) || cell_has keyword (col_description r)
          || cell_has keyword (col_address r)
   end)
  && (match category with
      | [] => true
      | _ => cell_has category (col_categories r)
      end)
  && (match ward with
      | [] => true
      | _ => cell_is ward (col_ward r)
      end).

(** [r] is the first row of [df] with the given name. *)
Definition first_named (name : pystr) (df : list row) (r : row) : Prop :=
  exists before rest,
    df = before ++ r :: rest /\ col_name r = Some name /\
    forall r', In r' before -> col_name r' <> Some name.

(** No row of [df] has the given name. *)
Definition unnamed (name : pystr) (df : list row) : Prop :=
  forall r, In r df -> col_name r <> Some name.

(** The column names, in the order of the schema. *)
Definition schema : list pystr :=
  [ utf8 "name"; utf8 "city"; utf8 "ward"; utf8 "description"; utf8 "address";
    utf8 "latitude"; utf8 "longitude"; utf8 "ticket_price";
    utf8 "opening_hours"; utf8 "recommended_duration"; utf8 "categories";
    utf8 "transportation"; utf8 "nearby_attractions"; utf8 "website";
    utf8 "phone"; utf8 "last_updated" ].

(** The keys of a dict, in order. *)
Definition keys (v : pyval) : list pystr :=
  match v with PDict d => map fst d | _ => [] end.

(** A text without a comma. *)
Definition comma_free (w : pystr) : Prop := ~ In comma w.

(** The reply that has arrived and is not yet accounted after the events
    [t]: the reply of the last event, when that event is a request which
    the model answered; [pending] when there is no event. *)
Fixpoint awaiting (pending : option completion) (t : list Agent.event)
  : option completion :=
  match t with
  | [] => pending
  | Agent.ModelCall _ _ _ reply :: t' =>
    awaiting (match reply with Return c => Some c | Raise _ => None end) t'
  | _ :: t' => awaiting None t'
  end.

(** The messages of the requests to the model among the events, in order. *)
Fixpoint requests (t : list Agent.event) : list (list message) :=
  match t with
  | [] => []
  | Agent.ModelCall _ history _ _ :: t' => history :: requests t'
  | _ :: t' => requests t'
  end.

(** The observation the agent makes of a reply: the result of executing
    the action the reply names. *)
Definition observation {ext : Externals} (self : Agent.ReActAgent) (c : completion)
  : pystr :=
  let parsed := Agent.extract_action (message_content c) in
  match snd (Agent.execute_action self (fst parsed) (snd parsed)) with
  | Return o => o
  | Raise _ => []
  end.

(** The conversation after a reply that names an action: the reply and the
    observation are appended. *)
Definition extended {ext : Externals} (self : Agent.ReActAgent)
    (history : list message) (c : completion) : list message :=
  history ++ [ mk_message (utf8 "assistant") (message_content c);
               mk_message (utf8 "user")
                 (utf8 "Observation: " ++ observation self c) ].

(** The successive states of a conversation that starts with [history] and
    receives the replies [cs]. *)
Fixpoint conversation {ext : Externals} (self : Agent.ReActAgent)
    (history : list message) (cs : list completion) : list (list message) :=
  history ::
  match cs with
  | [] => []
  | c :: cs' => conversation self (extended self history c) cs'
  end.

(** The names of the tools that the constructor registers. *)
Definition registered : list pystr :=
  [ utf8 "get_all_attractions"; utf8 "get_attraction_by_name";
    utf8 "search_attractions"; utf8 "get_attractions_by_category";
    utf8 "get_attractions_by_ward"; utf8 "get_transportation_info";
    utf8 "get_basic_info" ].



(** A request of the agent [self]: it names the agent's model and the
    temperature of [plan_travel]. *)
Definition sent_by (self : Agent.ReActAgent) (e : Agent.event) : Prop :=
  match e with
  | Agent.ModelCall m _ temperature _ =>
    m = Agent.model self /\ temperature = 0.7%float
  | _ => True
  end.

(** A reply in the format that the system prompt asks for. *)
Definition formatted (thought action action_input : pystr) : pystr :=
  utf8 "Thought: " ++ thought ++ [newline] ++ utf8 "Action: " ++ action
  ++ [newline] ++ utf8 "Action Input: " ++ action_input.

(** [lit] differs from [s] at a position that both have. *)
Fixpoint mismatch (lit s : pystr) : bool :=
  match lit, s with
  | a :: lit', b :: s' => if (a =? b)%N then mismatch lit' s' else true
  | _, _ => false
  end.

(** [lit] differs from every suffix of [pre] at a position within it. *)
Fixpoint all_mismatch (lit pre : pystr) : bool :=
  match pre with
  | [] => true
  | _ :: pre' => mismatch lit pre && all_mismatch lit pre'
  end.

(** Whether a write succeeded. *)
Definition succeeded (written : outcome unit) : bool :=
  match written with Return _ => true | Raise _ => false end.

(** The requests and the writes among the events of the writer. *)
Definition is_request {ext : Externals} {lib : DataWriter.Library}
    (e : DataWriter.event) : bool :=
  match e with DataWriter.Request _ _ _ _ => true | _ => false end.

Definition is_ValueError (e : exn) : Prop :=
  exn_type e = OtherException (utf8 "ValueError").

(** The fields whose value [prepare] may convert or replace. *)
Definition converted_fields : list pystr :=
  [ utf8 "categories"; utf8 "transportation"; utf8 "nearby_attractions";
    utf8 "last_updated" ].

End Facts.
Import Facts.

(* ================================================================== *)
(** * A concrete library for the writer *)

Module DemoStore.
Import DataWriter.

(** Frames as lists of records, with a table read from the file turned
    into records column by column. *)
Definition lib : Library :=
  {| frame := list (list (pystr * pyval));
     pl_DataFrame := fun d => Return [d];
     pl_concat := fun df new_record =>
       Return (map DataReader.dict_of_row df ++ new_record);
     write_parquet := fun _ _ => Return tt;
     json_dumps_line := Demo.dumps;
     today := utf8 "2025-08-09";
     load_json_file := fun _ =>
       Raise (mk_exn (OtherException (utf8 "FileNotFoundError"))
                (utf8 "No such file or directory"));
     unbound_local_text := fun name =>
       utf8 "cannot access local variable '" ++ name
       ++ utf8 "' where it is not associated with a value" |}.

(** An environment whose table cannot be read. *)
Definition offline : Externals :=
  {| json_decode := Demo.decode;
     json_dumps := Demo.dumps;
     format_4f := Demo.fixed4;
     format_float := Demo.repr;
     chat_completions_create := Demo.answers_directly;
     read_parquet := fun _ =>
       Raise (mk_exn (OtherException (utf8 "FileNotFoundError"))
                (utf8 "No such file or directory"));
     filter_non_str := fun _ _ _ =>
       Raise (mk_exn (OtherException (utf8 "InvalidOperationError")) []);
     call_error_text := fun name _ => name ++ utf8 "() got unexpected arguments";
     not_a_mapping_text := fun name v =>
       utf8 "DataReader.DataReader." ++ name
       ++ utf8 "() argument after ** must be a mapping, not " ++ type_name v |}.

(** A model that cannot be reached. *)
Definition unreachable (m : pystr) (h : list message) (t : float)
  : outcome completion :=
  Raise (mk_exn (OtherException (utf8 "APIConnectionError"))
           (utf8 "Connection error.")).

Definition disconnected : Externals := Demo.env unreachable Demo.table.

(** A record with its transportation. *)
Definition skytree : list (pystr * pyval) :=
  [ (utf8 "name", PStr (utf8 "东京晴空塔"));
    (utf8 "city", PStr (utf8 "东京"));
    (utf8 "ward", PStr (utf8 "墨田区"));
    (utf8 "description", PStr (utf8 "高634米的电波塔"));
    (utf8 "transportation",
     PDict [(utf8 "地铁", PStr (utf8 "半藏门线押上站步行3分钟"))]) ].

(** The JSON text of the transportation of [skytree]. *)
Definition skytree_way : pystr :=
  match Demo.dumps
          (PDict [(utf8 "地铁", PStr (utf8 "半藏门线押上站步行3分钟"))]) with
  | Return text => text
  | Raise _ => []
  end.

(** A model that wraps its JSON in a fence. *)
Definition fenced_reply : completion :=
  mk_completion
    (utf8 "```json" ++ [newline] ++ utf8 "{" ++ Text.quote (utf8 "name")
     ++ utf8 ": " ++ Text.quote (utf8 "东京晴空塔") ++ utf8 "}" ++ [newline]
     ++ utf8 "```") 640 24.

Definition fences (m : pystr) (h : list message) (t : float)
  : outcome completion :=
  Return fenced_reply.

Definition fencing : Externals := Demo.env fences Demo.table.

(** The record that [prepare] makes of a dict, empty if it raises. *)
Definition stored (d : list (pystr * pyval)) : list (pystr * pyval) :=
  match @prepare lib (PDict d) with
  | Return d' => d'
  | Raise _ => []
  end.


(** An agent that has spent half of its budget in earlier runs. *)
Definition halfway (e : Externals) : Agent.ReActAgent :=
  Agent.add_usage (Demo.fresh e) 0.05%float 1000 200.

(** A writer with a key, on the default table. *)
Definition writer : DataWriter :=
  mk_writer Agent.default_db_path (utf8 "config.json") (PStr (utf8 "sk-demo")).

(** The record of [example.py] without its optional fields. *)
Definition disneyland : list (pystr * pyval) :=
  [ (utf8 "name", PStr (utf8 "东京迪士尼乐园"));
    (utf8 "city", PStr (utf8 "东京"));
    (utf8 "ward", PStr (utf8 "浦安市"));
    (utf8 "description", PStr (utf8 "东京迪士尼度假区的一部分"));
    (utf8 "categories",
     PList [PStr (utf8 "主题公园"); PStr (utf8 "娱乐"); PStr (utf8 "家庭")]) ].

End DemoStore.

(* ================================================================== *)
(** * Properties of the string functions *)

Section StringFacts.

Lemma eqb_eq (a b : pystr) : Str.eqb a b = true <-> a = b.
Proof.
  unfold Str.eqb. destruct (list_eq_dec N.eq_dec a b); split; congruence.
Qed.

Lemma eqb_refl (a : pystr) : Str.eqb a a = true.
Proof. now apply eqb_eq. Qed.

Lemma eqb_neq (a b : pystr) : Str.eqb a b = false <-> a <> b.
Proof.
  unfold Str.eqb. destruct (list_eq_dec N.eq_dec a b); split; congruence.
Qed.

Lemma drop_prefix_sound (p s r : pystr) :
  drop_prefix p s = Some r <-> s = p ++ r.
Proof.
  revert s. induction p as [|a p IH]; intros s; simpl.
  - split; congruence.
  - destruct s as [|b s]; [split; discriminate|].
    destruct (N.eqb_spec a b) as [->|ne].
    + rewrite IH. split; congruence.
    + split; [discriminate | congruence].
Qed.

(** [after_first] finds an occurrence, and the leftmost one. *)
Lemma after_first_some (lit s r : pystr) :
  after_first lit s = Some r ->
  exists pre, s = pre ++ lit ++ r /\
    forall pre' r', s = pre' ++ lit ++ r' -> (List.length pre <= List.length pre')%nat.
Proof.
  revert r. induction s as [|c s IH]; intros r; simpl.
  - destruct (drop_prefix lit []) eqn:E; [|discriminate].
    intros [= ->]. apply drop_prefix_sound in E.
    exists []. split; [exact E | intros; simpl; lia].
  - destruct (drop_prefix lit (c :: s)) eqn:E.
    + intros [= ->]. apply drop_prefix_sound in E.
      exists []. split; [exact E | intros; simpl; lia].
    + intros H. destruct (IH _ H) as (pre & -> & Hmin).
      exists (c :: pre). split; [reflexivity|].
      intros pre' r' Heq. destruct pre' as [|c' pre'].
      * exfalso. simpl in Heq.
        assert (drop_prefix lit (c :: pre ++ lit ++ r) = Some r')
          by (apply drop_prefix_sound; exact Heq).
        congruence.
      * simpl in Heq. injection Heq as _ Heq.
        specialize (Hmin _ _ Heq). simpl. lia.
Qed.

Lemma after_first_none (lit s : pystr) :
  after_first lit s = None <-> ~ occurs_in lit s.
Proof.
  split.
  - induction s as [|c s IH]; simpl.
    + destruct (drop_prefix lit []) eqn:E; [discriminate|].
      intros _ (a & b & Heq). destruct a; [|discriminate].
      simpl in Heq. apply drop_prefix_sound in Heq. congruence.
    + destruct (drop_prefix lit (c :: s)) eqn:E; [discriminate|].
      intros H (a & b & Heq). destruct a as [|c' a].
      * simpl in Heq. apply drop_prefix_sound in Heq. congruence.
      * injection Heq as _ Heq. apply (IH H). now exists a, b.
  - intros H. destruct (after_first lit s) eqn:E; [|reflexivity].
    exfalso. apply H. destruct (after_first_some _ _ _ E) as (pre & -> & _).
    now exists pre, p.
Qed.

Lemma lstrip_by_head (p : N -> bool) (s : pystr) c s' :
  lstrip_by p s = c :: s' -> p c = false.
Proof.
  induction s as [|d s IH]; simpl; [discriminate|].
  destruct (p d) eqn:E; [exact IH|]. now intros [= <- _].
Qed.

Lemma lstrip_by_suffix (p : N -> bool) (s : pystr) :
  exists pre, s = pre ++ lstrip_by p s /\ forallb p pre = true.
Proof.
  induction s as [|d s (pre & IH & Hall)]; simpl.
  - now exists [].
  - destruct (p d) eqn:E.
    + exists (d :: pre). simpl. rewrite E, Hall. split; [now f_equal | reflexivity].
    + now exists [].
Qed.

Lemma lstrip_by_last (p : N -> bool) (s : pystr) c s' :
  s = s' ++ [c] -> p c = false -> exists s'', lstrip_by p s = s'' ++ [c].
Proof.
  revert s'. induction s as [|d s IH]; intros s' Heq Hc.
  - now destruct s'.
  - simpl. destruct (p d) eqn:E.
    + destruct s' as [|d' s'].
      * injection Heq as -> _. congruence.
      * injection Heq as _ Heq. exact (IH _ Heq Hc).
    + now exists s'.
Qed.

Lemma lstrip_by_id (p : N -> bool) (s : pystr) :
  (forall c s', s = c :: s' -> p c = false) -> lstrip_by p s = s.
Proof.
  destruct s as [|c s]; [reflexivity|]. intros H. simpl.
  now rewrite (H c s eq_refl).
Qed.

Lemma rstrip_by_last (p : N -> bool) (s : pystr) c s' :
  rstrip_by p s = s' ++ [c] -> p c = false.
Proof.
  unfold rstrip_by. intros H.
  assert (E : lstrip_by p (rev s) = c :: rev s').
  { rewrite <- (rev_involutive (lstrip_by p (rev s))), H, rev_app_distr.
    reflexivity. }
  exact (lstrip_by_head _ _ _ _ E).
Qed.

Lemma rstrip_by_head (p : N -> bool) (s : pystr) c s' :
  rstrip_by p s = c :: s' -> (forall d t, s = d :: t -> p d = false) -> p c = false.
Proof.
  unfold rstrip_by. intros H Hs.
  destruct (lstrip_by_suffix p (rev s)) as (pre & Heq & _).
  assert (E : s = rev (lstrip_by p (rev s)) ++ rev pre).
  { rewrite <- rev_app_distr, <- Heq. now rewrite rev_involutive. }
  rewrite H in E. simpl in E. exact (Hs _ _ E).
Qed.

(** The result of [strip_by] has no character of the class at either end. *)
Lemma strip_by_ends (p : N -> bool) (s : pystr) :
  (forall c s', strip_by p s = c :: s' -> p c = false) /\
  (forall c s', strip_by p s = s' ++ [c] -> p c = false).
Proof.
  unfold strip_by. split; intros c s' H.
  - apply (rstrip_by_head _ _ _ _ H). intros d t. apply lstrip_by_head.
  - exact (rstrip_by_last _ _ _ _ H).
Qed.

Lemma strip_stripped (s : pystr) : stripped (strip s).
Proof. exact (strip_by_ends isspace s). Qed.

Lemma strip_by_id (p : N -> bool) (s : pystr) :
  (forall c s', s = c :: s' -> p c = false) ->
  (forall c s', s = s' ++ [c] -> p c = false) ->
  strip_by p s = s.
Proof.
  intros Hh Hl. unfold strip_by, rstrip_by. rewrite (lstrip_by_id _ _ Hh).
  rewrite lstrip_by_id; [apply rev_involutive|].
  intros c s' E. apply (Hl c (rev s')).
  rewrite <- (rev_involutive s), E. reflexivity.
Qed.

End StringFacts.

(* ================================================================== *)
(** * The Action Parser *)

Section Parser.
Import Agent.

Lemma app_same_length {A} (a a' b b' : list A) :
  a ++ b = a' ++ b' -> List.length a = List.length a' -> a = a' /\ b = b'.
Proof.
  revert a'. induction a as [|x a IH]; intros [|x' a'] H L; try discriminate.
  - now split.
  - simpl in H. injection H as -> H. injection L as L.
    destruct (IH _ H L) as [-> ->]. now split.
Qed.

(** [after_first] returns the text after the leftmost occurrence. *)
Lemma after_first_leftmost (lit pre rest : pystr) :
  (forall pre' r', pre ++ lit ++ rest = pre' ++ lit ++ r' ->
     (List.length pre <= List.length pre')%nat) ->
  after_first lit (pre ++ lit ++ rest) = Some rest.
Proof.
  intros Hmin. destruct (after_first lit (pre ++ lit ++ rest)) as [r|] eqn:E.
  - destruct (after_first_some _ _ _ E) as (pre0 & Heq & Hmin0).
    assert (L : List.length pre = List.length pre0).
    { apply Nat.le_antisymm; [exact (Hmin _ _ Heq) | exact (Hmin0 _ _ eq_refl)]. }
    destruct (app_same_length _ _ _ _ Heq L) as [_ H].
    apply app_inv_head in H. now subst.
  - exfalso. apply after_first_none in E. apply E. now exists pre, rest.
Qed.

Lemma strip_cons_space (c : N) (s : pystr) :
  isspace c = true -> strip (c :: s) = strip s.
Proof. intros H. unfold strip, strip_by. simpl. now rewrite H. Qed.

(** When the rest of the line has visible text, skipping white space before
    cutting the line is the same as cutting the line first. *)
Lemma take_line_lstrip (rest : pystr) :
  strip (take_line rest) <> [] ->
  strip (take_line (lstrip_by isspace rest)) = strip (take_line rest).
Proof.
  induction rest as [|c r IH]; simpl; [congruence|].
  destruct (N.eqb_spec c newline) as [->|ne].
  - intros H. now contradiction H.
  - destruct (isspace c) eqn:Hc.
    + rewrite strip_cons_space by exact Hc. exact IH.
    + simpl. destruct (N.eqb_spec c newline); [contradiction | reflexivity].
Qed.

Lemma search_group_absent (marker response : pystr) :
  ~ occurs_in marker response -> search_group marker response = [].
Proof.
  intros H. apply after_first_none in H. unfold search_group. now rewrite H.
Qed.

Lemma search_group_present (marker pre rest : pystr) :
  (forall pre' r', pre ++ marker ++ rest = pre' ++ marker ++ r' ->
     (List.length pre <= List.length pre')%nat) ->
  search_group marker (pre ++ marker ++ rest)
  = strip (take_line (lstrip_by isspace rest)).
Proof.
  intros H. unfold search_group. now rewrite (after_first_leftmost _ _ _ H).
Qed.

Lemma search_group_stripped (marker response : pystr) :
  stripped (search_group marker response).
Proof.
  unfold search_group. destruct (after_first marker response).
  - apply strip_stripped.
  - split; intros c s' H; [discriminate | now destruct s'].
Qed.

Lemma search_group_line (marker response : pystr) :
  line_after marker response <> [] ->
  search_group marker response = line_after marker response.
Proof.
  unfold search_group, line_after. destruct (after_first marker response).
  - apply take_line_lstrip.
  - congruence.
Qed.

End Parser.

(** C6 (amended): for every response text, each of the two fields is
    extracted independently of the other, from the leftmost occurrence of
    its own marker ([Action:], [Action Input:]): the parser skips the white
    space that follows the marker, line feeds included, and takes the text
    from there up to the end of the line, stripped of white space at both
    ends.  This is the rest of the marker's own line whenever that rest is
    not blank.  A field whose marker is absent is the empty string.  The
    parser is a total function: it has a result for every text. *)
Theorem extract_action_fields (response : pystr) :
  extracted_field (utf8 "Action:") response (fst (Agent.extract_action response)) /\
  extracted_field (utf8 "Action Input:") response (snd (Agent.extract_action response)).
Proof.
  assert (H : forall marker,
             extracted_field marker response (Agent.search_group marker response)).
  { intros marker. repeat split.
    - apply search_group_stripped.
    - apply search_group_stripped.
    - apply search_group_absent.
    - intros pre rest -> Hmin. now apply search_group_present.
    - apply search_group_line. }
  split; apply H.
Qed.

(** C6, as stated, fails: when nothing but white space follows [Action:] on
    its line, the parser does not return the (empty) rest of that line but
    the content of the next line that has any. *)
Lemma extract_action_crosses_line_end :
  fst (Agent.extract_action
         (utf8 "Action:" ++ [newline] ++ utf8 "get_all_attractions"))
  = utf8 "get_all_attractions"
  /\ line_after (utf8 "Action:")
       (utf8 "Action:" ++ [newline] ++ utf8 "get_all_attractions") = [].
Proof. split; reflexivity. Qed.

(* ================================================================== *)
(** * Tool dispatch *)

Section Dispatch.
Import Agent.
Context {ext : Externals}.

Lemma existsb_eqb_In (a : pystr) (l : list pystr) :
  existsb (Str.eqb a) l = true <-> In a l.
Proof.
  rewrite existsb_exists. split.
  - intros (x & Hin & E). apply eqb_eq in E. now subst.
  - intros Hin. exists a. split; [exact Hin | apply eqb_refl].
Qed.

Lemma lstrip_by_all (p : N -> bool) (l s : pystr) :
  forallb p l = true -> lstrip_by p (l ++ s) = lstrip_by p s.
Proof.
  induction l as [|c l IH]; simpl; [reflexivity|].
  intros H. apply andb_prop in H as [Hc Hl]. rewrite Hc. exact (IH Hl).
Qed.

Lemma forallb_rev {A} (p : A -> bool) (l : list A) :
  forallb p (rev l) = forallb p l.
Proof.
  induction l as [|a l IH]; simpl; [reflexivity|].
  rewrite forallb_app, IH. simpl. rewrite andb_true_r. apply andb_comm.
Qed.

(** [strip_by] removes a run of the class at each end, and nothing else. *)
Lemma strip_by_decompose (p : N -> bool) (s : pystr) :
  exists l r, s = l ++ strip_by p s ++ r
              /\ forallb p l = true /\ forallb p r = true.
Proof.
  unfold strip_by, rstrip_by.
  destruct (lstrip_by_suffix p s) as (l & Hl & Pl).
  destruct (lstrip_by_suffix p (rev (lstrip_by p s))) as (r & Hr & Pr).
  exists l, (rev r). repeat split.
  - rewrite <- rev_app_distr, <- Hr, rev_involutive. exact Hl.
  - exact Pl.
  - now rewrite forallb_rev.
Qed.

Lemma strip_by_sandwich (p : N -> bool) (l s r : pystr) :
  forallb p l = true -> forallb p r = true ->
  (forall c s', s = c :: s' -> p c = false) ->
  (forall c s', s = s' ++ [c] -> p c = false) ->
  strip_by p (l ++ s ++ r) = s.
Proof.
  intros Pl Pr Hh Ht. unfold strip_by, rstrip_by.
  rewrite (lstrip_by_all _ _ _ Pl).
  assert (E : lstrip_by p (s ++ r) = s ++ r \/ s = []).
  { destruct s as [|c s']; [now right | left].
    simpl. now rewrite (Hh c s' eq_refl). }
  destruct E as [E | ->].
  - rewrite E, rev_app_distr, lstrip_by_all by now rewrite forallb_rev.
    rewrite lstrip_by_id; [apply rev_involutive|].
    intros c s' Hrev. apply (Ht c (rev s')).
    rewrite <- (rev_involutive s), Hrev. reflexivity.
  - simpl. rewrite <- (app_nil_r r) at 1. rewrite lstrip_by_all by exact Pr.
    reflexivity.
Qed.

Lemma is_dquote_spec (c : N) : is_dquote c = true <-> c = dquote.
Proof.
  unfold is_dquote. simpl. rewrite orb_false_r. apply N.eqb_eq.
Qed.

Lemma is_dquote_false (c : N) : is_dquote c = false <-> c <> dquote.
Proof.
  rewrite <- is_dquote_spec. destruct (is_dquote c); split; congruence.
Qed.

Lemma strip_chars_unquoted (raw : pystr) : unquoted (strip_chars [dquote] raw).
Proof.
  destruct (strip_by_ends is_dquote raw) as [Hh Ht].
  split; intros c s' E; apply is_dquote_false; [exact (Hh _ _ E) | exact (Ht _ _ E)].
Qed.

Lemma strip_chars_removes_quotes (raw : pystr) :
  exists l r, raw = l ++ strip_chars [dquote] raw ++ r
              /\ Forall (eq dquote) l /\ Forall (eq dquote) r.
Proof.
  destruct (strip_by_decompose is_dquote raw) as (l & r & E & Pl & Pr).
  exists l, r. repeat split; [exact E | |];
    apply Forall_forall; intros c Hin; symmetry; apply is_dquote_spec;
    [rewrite forallb_forall in Pl; now apply Pl
    |rewrite forallb_forall in Pr; now apply Pr].
Qed.

(** Where one layer of quotes is all there is, the stripping removes
    exactly that layer. *)
Lemma strip_chars_one_layer (raw : pystr) :
  unquoted (strip_one_layer raw) ->
  strip_chars [dquote] raw = strip_one_layer raw.
Proof.
  assert (Hid : forall s, unquoted s -> strip_chars [dquote] s = s).
  { intros s [Hh Ht]. apply strip_by_id; intros c s' E; apply is_dquote_false;
      [exact (Hh _ _ E) | exact (Ht _ _ E)]. }
  destruct raw as [|q rest]; [intros _; reflexivity|].
  unfold strip_one_layer. destruct (N.eqb_spec q dquote) as [->|nq].
  - destruct (rev rest) as [|q' inner] eqn:Erev.
    + intros [Hh _]. now contradiction (Hh _ _ eq_refl).
    + destruct (N.eqb_spec q' dquote) as [->|nq'].
      * intros [Hh Ht].
        assert (rest = rev inner ++ [dquote]) as ->
          by (rewrite <- (rev_involutive rest), Erev; reflexivity).
        change (dquote :: rev inner ++ [dquote])
          with ([dquote] ++ rev inner ++ [dquote]).
        apply strip_by_sandwich; try reflexivity;
          intros c s' E; apply is_dquote_false; [exact (Hh _ _ E) | exact (Ht _ _ E)].
      * intros [Hh _]. now contradiction (Hh _ _ eq_refl).
  - apply Hid.
Qed.

(** The three strategies of [execute_action], branch by branch. *)
Lemma execute_action_unknown (self : ReActAgent) (action raw : pystr) :
  lookup action (tools self) = None ->
  execute_action self action raw = ([], Return (unknown_action_observation action)).
Proof. intros H. unfold execute_action. now rewrite H. Qed.

Lemma observed (action : pystr) (f : tool) (args : call_args) :
  try_except
    (tbind (call action f args) (fun result => lift (json_dumps result)))
    except_Exception
    (fun e => ret (utf8 "执行动作时出错: " ++ exn_str e))
  = ([ToolCall action args], Return (observation_of (f args))).
Proof.
  unfold call, tbind, try_except, lift, ret, observation_of, error_observation.
  destruct (f args) as [v|e]; simpl; [|reflexivity].
  destruct (json_dumps v); reflexivity.
Qed.

Lemma execute_action_single (self : ReActAgent) (action raw : pystr) (f : tool) :
  lookup action (tools self) = Some f ->
  In action single_string_actions ->
  execute_action self action raw
  = ([ToolCall action (Positional (strip_chars [dquote] raw))],
     Return (observation_of (f (Positional (strip_chars [dquote] raw))))).
Proof.
  intros H Hin. unfold execute_action. rewrite H.
  apply existsb_eqb_In in Hin. rewrite Hin. apply observed.
Qed.

Lemma execute_action_no_argument (self : ReActAgent) (action raw : pystr) (f : tool) :
  lookup action (tools self) = Some f ->
  ~ In action single_string_actions ->
  action <> utf8 "search_attractions" ->
  execute_action self action raw
  = ([ToolCall action NoArgs], Return (observation_of (f NoArgs))).
Proof.
  intros H Hin Hne. unfold execute_action. rewrite H.
  destruct (existsb (Str.eqb action) single_string_actions) eqn:E.
  - apply existsb_eqb_In in E. contradiction.
  - apply eqb_neq in Hne. rewrite Hne. apply observed.
Qed.

Lemma execute_action_search (self : ReActAgent) (raw : pystr) (f : tool) :
  lookup search_name (tools self) = Some f ->
  execute_action self search_name raw =
  match json_decode raw with
  | None =>
    ([ToolCall search_name (keyword_only raw)],
     Return (observation_of (f (keyword_only raw))))
  | Some (PDict kw) =>
    match f (Keywords kw) with
    | Return v =>
      ([ToolCall search_name (Keywords kw)],
       Return (observation_of (f (Keywords kw))))
    | Raise e =>
      if is_JSONDecodeError e then
        ([ToolCall search_name (Keywords kw);
          ToolCall search_name (keyword_only raw)],
         Return (observation_of (f (keyword_only raw))))
      else
        ([ToolCall search_name (Keywords kw)],
         Return (observation_of (f (Keywords kw))))
    end
  | Some v =>
    ([], Return (error_observation
                   (mk_exn TypeError (not_a_mapping_text search_name v))))
  end.
Proof.
  intros H. unfold execute_action. rewrite H.
  replace (existsb (Str.eqb search_name) single_string_actions) with false
    by reflexivity.
  replace (Str.eqb search_name (utf8 "search_attractions")) with true
    by reflexivity.
  unfold DataReader.json_loads.
  destruct (json_decode raw) as [v|].
  - assert (Hd : forall kw, v = PDict kw ->
      try_except
        (tbind
           (try_except
              (tbind (lift (Return v))
                     (fun params => call_unpacked search_name f params))
              is_JSONDecodeError
              (fun _ => call search_name f (keyword_only raw)))
           (fun result => lift (json_dumps result)))
        except_Exception
        (fun e => ret (utf8 "执行动作时出错: " ++ exn_str e))
      = match f (Keywords kw) with
        | Return _ =>
          ([ToolCall search_name (Keywords kw)],
           Return (observation_of (f (Keywords kw))))
        | Raise e =>
          if is_JSONDecodeError e then
            ([ToolCall search_name (Keywords kw);
              ToolCall search_name (keyword_only raw)],
             Return (observation_of (f (keyword_only raw))))
          else
            ([ToolCall search_name (Keywords kw)],
             Return (observation_of (f (Keywords kw))))
        end).
    { intros kw ->.
      unfold call_unpacked, call, tbind, try_except, lift, ret, observation_of,
        error_observation. simpl.
      destruct (f (Keywords kw)) as [r|e] eqn:E; simpl.
      - destruct (json_dumps r); reflexivity.
      - destruct (is_JSONDecodeError e) eqn:Ee; simpl; [|reflexivity].
        destruct (f (keyword_only raw)) as [r|e']; simpl; [|reflexivity].
        destruct (json_dumps r); reflexivity. }
    destruct v; try (now apply Hd);
      unfold call_unpacked, tbind, try_except, lift, ret, error_observation,
        except_Exception, is_JSONDecodeError; cbn [exn_type]; reflexivity.
  - unfold call, tbind, try_except, lift, ret, observation_of,
      error_observation, keyword_only. simpl.
    destruct (f _) as [r|e']; simpl; [|reflexivity].
    destruct (json_dumps r); reflexivity.
Qed.

(** Whatever the action, the observation is the account of the last call
    that was made. *)
Lemma execute_action_observes (self : ReActAgent) (action raw : pystr) (f : tool) :
  lookup action (tools self) = Some f ->
  exists t s, execute_action self action raw = (t, Return s) /\
    (forall name args, final_call t = Some (name, args) ->
       name = action /\ s = observation_of (f args)) /\
    (final_call t = None -> exists e, s = error_observation e).
Proof.
  intros H.
  destruct (existsb (Str.eqb action) single_string_actions) eqn:Es.
  { apply existsb_eqb_In in Es. rewrite (execute_action_single _ _ raw _ H Es).
    do 2 eexists. split; [reflexivity|]. split.
    - intros name args [= <- <-]. now split.
    - discriminate. }
  assert (Hs : ~ In action single_string_actions).
  { intros Hin. apply existsb_eqb_In in Hin. congruence. }
  destruct (list_eq_dec N.eq_dec action search_name) as [->|Hne].
  - rewrite (execute_action_search _ raw _ H).
    destruct (json_decode raw) as [v|].
    + assert (Hother : forall e0,
        exists t s,
          ([] : list event, Return (error_observation e0)) = (t, Return s) /\
          (forall name args, final_call t = Some (name, args) ->
             name = search_name /\ s = observation_of (f args)) /\
          (final_call t = None -> exists e, s = error_observation e)).
      { intros e0. do 2 eexists. split; [reflexivity|]. split.
        - discriminate.
        - intros _. now exists e0. }
      destruct v; try apply Hother.
      destruct (f (Keywords d)) as [r|e] eqn:E.
      * do 2 eexists. split; [reflexivity|]. split.
        -- intros name args [= <- <-]. now rewrite E.
        -- discriminate.
      * destruct (is_JSONDecodeError e).
        -- do 2 eexists. split; [reflexivity|]. split.
           ++ intros name args [= <- <-]. now split.
           ++ discriminate.
        -- do 2 eexists. split; [reflexivity|]. split.
           ++ intros name args [= <- <-]. now rewrite E.
           ++ discriminate.
    + do 2 eexists. split; [reflexivity|]. split.
      * intros name args [= <- <-]. now split.
      * discriminate.
  - rewrite (execute_action_no_argument _ _ raw _ H Hs Hne).
    do 2 eexists. split; [reflexivity|]. split.
    + intros name args [= <- <-]. now split.
    + discriminate.
Qed.

(** C5: for every action name and raw argument string, dispatch returns a
    string and raises nothing.  An action name that is not in the registry
    yields the fixed unknown-action observation, and no operation is
    invoked.  Otherwise the observation reports the last operation call that
    was made: when that call raised an error, or the serialization of its
    result did, the observation is the action-execution-error string, which
    holds the error's text; when both succeeded it is the serialized
    result.  (When no call was made at all, the arguments could not be
    unpacked, and the observation is the error string of that failure.) *)
Theorem execute_action_never_raises (self : ReActAgent) (action raw : pystr) :
  exists t s,
    execute_action self action raw = (t, Return s) /\
    (lookup action (tools self) = None ->
       t = [] /\ s = unknown_action_observation action) /\
    (forall f name args,
       lookup action (tools self) = Some f ->
       final_call t = Some (name, args) ->
       name = action /\
       (forall e, f args = Raise e -> s = error_observation e) /\
       (forall v e, f args = Return v -> json_dumps v = Raise e ->
          s = error_observation e) /\
       (forall v o, f args = Return v -> json_dumps v = Return o -> s = o)) /\
    (forall f,
       lookup action (tools self) = Some f -> final_call t = None ->
       exists e, s = error_observation e) /\
    (forall e, occurs_in (exn_str e) (error_observation e)).
Proof.
  destruct (lookup action (tools self)) as [f|] eqn:H.
  - destruct (execute_action_observes self action raw f H)
      as (t & s & E & Hcall & Hnone).
    exists t, s. split; [exact E|]. split; [discriminate|]. split; [|split].
    + intros f' name args [= <-] Hf. destruct (Hcall _ _ Hf) as [-> ->].
      split; [reflexivity|]. unfold observation_of. repeat split.
      * now intros e ->.
      * intros v e -> Hd. now rewrite Hd.
      * intros v o -> Hd. now rewrite Hd.
    + intros f' _. exact Hnone.
    + intros e. exists (utf8 "执行动作时出错: "), []. unfold error_observation.
      now rewrite app_nil_r.
  - rewrite (execute_action_unknown _ _ raw H). do 2 eexists.
    split; [reflexivity|]. split; [now split|]. split; [discriminate|].
    split; [discriminate|].
    intros e. exists (utf8 "执行动作时出错: "), []. unfold error_observation.
    now rewrite app_nil_r.
Qed.

(** C7 (amended): for every single-string-argument action, dispatch
    invokes the operation once, with one positional parameter: the raw
    argument text without its leading and trailing double quotes, all of
    them, however many there are at either end and whether or not they
    pair up.  Where the text has one layer of quotes and none beneath it,
    this removes exactly that layer.  The observation is the account of
    that call. *)
Theorem single_string_argument_dispatch
    (self : ReActAgent) (action raw : pystr) (f : tool) :
  In action single_string_actions ->
  lookup action (tools self) = Some f ->
  let argument := strip_chars [dquote] raw in
  execute_action self action raw
  = ([ToolCall action (Positional argument)],
     Return (observation_of (f (Positional argument)))) /\
  (exists l r, raw = l ++ argument ++ r
               /\ Forall (eq dquote) l /\ Forall (eq dquote) r) /\
  unquoted argument /\
  (unquoted (strip_one_layer raw) -> argument = strip_one_layer raw).
Proof.
  intros Hin H argument. repeat split.
  - now apply execute_action_single.
  - apply strip_chars_removes_quotes.
  - apply strip_chars_unquoted.
  - apply strip_chars_unquoted.
  - apply strip_chars_one_layer.
Qed.

(** C8: what dispatch does for the action [search_attractions].  It
    decodes the raw argument text as JSON.  When the text decodes to an
    object, the operation is invoked with the object's key-value pairs as
    keyword arguments, and the observation is the account of that call
    (unless the operation itself raised a decoding error).  When the
    decoding fails, the operation is invoked once, with the single keyword
    [keyword] bound to the whole text stripped of its leading and trailing
    double quotes, and the observation is the account of that call.  So far
    the code does what the claim says.  When the text decodes to a value
    that is no object (a string, a number, a list), the parse into a
    key-value object has failed too, and here the code leaves the claim:
    the unpacking raises a [TypeError] that the handler of decoding errors
    does not catch, the operation is not invoked at all, neither with
    key-value pairs nor through the fall-back, and the observation is the
    report of that error. *)
Theorem search_attractions_dispatch (self : ReActAgent) (raw : pystr) (f : tool) :
  lookup (utf8 "search_attractions") (tools self) = Some f ->
  (forall kw, json_decode raw = Some (PDict kw) ->
     (exists t, fst (execute_action self (utf8 "search_attractions") raw)
                = ToolCall (utf8 "search_attractions") (Keywords kw) :: t) /\
     (not_decode_error (f (Keywords kw)) ->
      execute_action self (utf8 "search_attractions") raw
      = ([ToolCall (utf8 "search_attractions") (Keywords kw)],
         Return (observation_of (f (Keywords kw)))))) /\
  (json_decode raw = None ->
     let fallback :=
       Keywords [(utf8 "keyword", PStr (strip_chars [dquote] raw))] in
     execute_action self (utf8 "search_attractions") raw
     = ([ToolCall (utf8 "search_attractions") fallback],
        Return (observation_of (f fallback)))) /\
  (forall v,
     json_decode raw = Some v ->
     (forall kw, v <> PDict kw) ->
     execute_action self (utf8 "search_attractions") raw
     = ([], Return (error_observation
                      (mk_exn TypeError
                         (not_a_mapping_text (utf8 "search_attractions") v))))
     /\ tool_calls (fst (execute_action self (utf8 "search_attractions") raw))
        = []).
Proof.
  intros H. pose proof (execute_action_search self raw f H) as E.
  fold search_name. split; [|split].
  - intros kw Hd. rewrite Hd in E. split.
    + rewrite E. destruct (f (Keywords kw)) as [v|e].
      * now exists [].
      * destruct (is_JSONDecodeError e); eexists; reflexivity.
    + intros Hn. rewrite E. destruct (f (Keywords kw)) as [v|e]; [reflexivity|].
      now rewrite (Hn e eq_refl).
  - intros Hd. rewrite Hd in E. exact E.
  - intros v Hd Hv. rewrite Hd in E.
    assert (E' : execute_action self search_name raw
                 = ([], Return (error_observation
                                  (mk_exn TypeError
                                     (not_a_mapping_text search_name v))))).
    { destruct v; try exact E. now destruct (Hv d). }
    rewrite E'. split; reflexivity.
Qed.

End Dispatch.

(** C7, as stated, fails: two layers of quotes are both removed, where one
    layer would leave the inner quotes in place. *)
Lemma nested_quotes_all_stripped :
  tool_calls
    (fst (@Agent.execute_action Demo.direct (Demo.fresh Demo.direct)
            (utf8 "get_basic_info")
            (Demo.quoted (Demo.quoted (utf8 "浅草寺")))))
  = [(utf8 "get_basic_info", Positional (utf8 "浅草寺"))]
  /\ strip_one_layer (Demo.quoted (Demo.quoted (utf8 "浅草寺")))
     = Demo.quoted (utf8 "浅草寺").
Proof. split; vm_compute; reflexivity. Qed.

(** The single-string strategy on an argument in one layer of quotes. *)
Lemma single_string_argument_example :
  fst (@Agent.execute_action Demo.direct (Demo.fresh Demo.direct)
         (utf8 "get_basic_info") (Demo.quoted (utf8 "浅草寺")))
  = [Agent.ToolCall (utf8 "get_basic_info") (Positional (utf8 "浅草寺"))].
Proof.
  destruct (@single_string_argument_dispatch Demo.direct
              (Demo.fresh Demo.direct) (utf8 "get_basic_info")
              (Demo.quoted (utf8 "浅草寺"))
              (@DataReader.method1 Demo.direct (utf8 "get_basic_info") (utf8 "name")
                 (@DataReader.get_basic_info Demo.direct Agent.default_db_path)))
    as [E _].
  - simpl. tauto.
  - reflexivity.
  - rewrite E. reflexivity.
Defined.

(** The multi-keyword strategy on a text that is no JSON, an unbalanced
    quote: the fall-back is taken. *)
Lemma search_attractions_fallback_example :
  fst (@Agent.execute_action Demo.direct (Demo.fresh Demo.direct)
         (utf8 "search_attractions") (dquote :: utf8 "浅草"))
  = [Agent.ToolCall (utf8 "search_attractions")
       (Keywords [(utf8 "keyword", PStr (utf8 "浅草"))])].
Proof. vm_compute. reflexivity. Qed.

(** C8 at the failing input, a keyword in double quotes.  The text is valid
    JSON, a string, so the decoding does not fail, yet it yields no
    key-value object.  The claim asks for the fall-back, a search for the
    keyword without its quotes; the code does not invoke the operation at
    all and observes the error of the failed unpacking. *)
Lemma quoted_keyword_is_not_searched :
  @json_decode Demo.direct (Demo.quoted (utf8 "浅草")) = Some (PStr (utf8 "浅草"))
  /\ strip_chars [dquote] (Demo.quoted (utf8 "浅草")) = utf8 "浅草"
  /\ @Agent.execute_action Demo.direct (Demo.fresh Demo.direct)
       (utf8 "search_attractions") (Demo.quoted (utf8 "浅草"))
     = ([], Return (error_observation
                      (mk_exn TypeError
                         (@not_a_mapping_text Demo.direct
                            (utf8 "search_attractions") (PStr (utf8 "浅草"))))))
  /\ tool_calls
       (fst (@Agent.execute_action Demo.direct (Demo.fresh Demo.direct)
               (utf8 "search_attractions") (Demo.quoted (utf8 "浅草"))))
     = []
  /\ tool_calls
       (fst (@Agent.execute_action Demo.direct (Demo.fresh Demo.direct)
               (utf8 "search_attractions") (Demo.quoted (utf8 "浅草"))))
     <> [(utf8 "search_attractions",
          keyword_only (Demo.quoted (utf8 "浅草")))].
Proof.
  destruct (@search_attractions_dispatch Demo.direct
              (Demo.fresh Demo.direct) (Demo.quoted (utf8 "浅草"))
              (@DataReader.search_attractions_method Demo.direct
                 Agent.default_db_path) eq_refl)
    as (_ & _ & H).
  destruct (H (PStr (utf8 "浅草"))) as (E1 & E2).
  - vm_compute. reflexivity.
  - discriminate.
  - split; [vm_compute; reflexivity|]. split; [vm_compute; reflexivity|].
    split; [exact E1|]. split; [exact E2|]. rewrite E2. discriminate.
Defined.

(* ================================================================== *)
(** * DataReader: the transportation query *)

Section Transportation.
Import DataReader.
Context {ext : Externals}.

Lemma process_row_transportation (r : row) :
  getitem (utf8 "transportation") (process_row r)
  = Return (load_transportation (col_transportation r)).
Proof. reflexivity. Qed.

Lemma process_row_usable (r : row) :
  truthy (process_row r) && has_key (utf8 "transportation") (process_row r) = true.
Proof. reflexivity. Qed.

Lemma df_filter_In (p : row -> option bool) (df : list row) (r : row) :
  In r (df_filter p df) <-> In r df /\ p r = Some true.
Proof.
  unfold df_filter. rewrite filter_In.
  destruct (p r) as [[|]|]; intuition congruence.
Qed.

Lemma name_matches_spec (name : pystr) (r : row) :
  name_matches name r = Some true <-> col_name r = Some name.
Proof.
  unfold name_matches, cell_equals. destruct (col_name r) as [c|]; simpl.
  - split.
    + intros [= E]. apply eqb_eq in E. now subst.
    + intros [= ->]. now rewrite eqb_refl.
  - split; discriminate.
Qed.

Lemma get_attraction_by_name_str (db_path name : pystr) :
  get_attraction_by_name db_path (PStr name)
  = match df_filter (name_matches name) (_load_data db_path) with
    | [] => Return PNone
    | r :: _ => Return (process_row r)
    end.
Proof.
  unfold get_attraction_by_name, str_filter. simpl.
  fold (name_matches name).
  destruct (df_filter (name_matches name) (_load_data db_path)); reflexivity.
Qed.

Lemma json_loads_not_str (v : pyval) :
  (forall s, v <> PStr s) -> json_loads v = Raise (mk_exn TypeError (not_str_message v)).
Proof.
  intros H. unfold not_str_message.
  destruct v as [|b|z|f|s|l|d];
    [ reflexivity | reflexivity | reflexivity | reflexivity
    | exfalso; exact (H s eq_refl) | reflexivity | reflexivity ].
Qed.

Lemma load_transportation_cases (o : option pystr) :
  match o with
  | None | Some [] => load_transportation o = PDict []
  | Some text =>
    match json_decode text with
    | Some v => load_transportation o = v
    | None => load_transportation o = PDict []
    end
  end.
Proof.
  destruct o as [[|c s]|]; try reflexivity.
  unfold load_transportation, json_loads. now destruct (json_decode (c :: s)).
Qed.

Lemma get_transportation_info_str (db_path name : pystr) :
  get_transportation_info db_path (PStr name)
  = match df_filter (name_matches name) (_load_data db_path) with
    | [] => Return (PDict [])
    | r :: _ =>
      match json_loads (load_transportation (col_transportation r)) with
      | Return v => Return v
      | Raise e => if is_JSONDecodeError e then Return (PDict []) else Raise e
      end
    end.
Proof.
  unfold get_transportation_info. rewrite get_attraction_by_name_str.
  destruct (df_filter (name_matches name) (_load_data db_path)) as [|r rest].
  - reflexivity.
  - unfold bind at 1. rewrite process_row_usable, process_row_transportation.
    reflexivity.
Qed.

(** C10 (amended): let the data store hold a record with the given name,
    and take the first such record.  [get_attraction_by_name] returns it
    with the [transportation] field already decoded: the decoded JSON value
    of the stored text, or an empty dict when that text is null, empty or
    no JSON.  Whenever this decoded value is not a string (so in particular
    whenever it is a dict), [get_transportation_info] does not return it:
    [json.loads] raises a [TypeError] on it, which the [except] clause for
    [JSONDecodeError] does not handle, so the error leaves [DataReader];
    dispatched by the agent, the call ends as the action-execution-error
    observation for that error.  When the decoded value is a string, that
    string is decoded once more and the result returned, an empty dict if it
    is no JSON.  An empty dict is also returned when no record has the
    name. *)
Theorem get_transportation_info_never_succeeds
    (db_path name : pystr) (r : row) (rest : list row) :
  df_filter (name_matches name) (_load_data db_path) = r :: rest ->
  let stored := load_transportation (col_transportation r) in
  (In r (_load_data db_path) /\ col_name r = Some name) /\
  get_attraction_by_name db_path (PStr name) = Return (process_row r) /\
  getitem (utf8 "transportation") (process_row r) = Return stored /\
  ((forall s, stored <> PStr s) ->
     get_transportation_info db_path (PStr name)
     = Raise (mk_exn TypeError (not_str_message stored)) /\
     forall (self : Agent.ReActAgent) (raw : pystr),
       Agent.tools self = Agent.default_tools db_path ->
       strip_chars [dquote] raw = name ->
       Agent.execute_action self (utf8 "get_transportation_info") raw
       = ([Agent.ToolCall (utf8 "get_transportation_info") (Positional name)],
          Return (error_observation (mk_exn TypeError (not_str_message stored))))) /\
  (forall s,
     stored = PStr s ->
     get_transportation_info db_path (PStr name)
     = Return (match json_decode s with Some v => v | None => PDict [] end)) /\
  (forall other,
     df_filter (name_matches other) (_load_data db_path) = [] ->
     get_transportation_info db_path (PStr other) = Return (PDict [])).
Proof.
  intros Hm stored.
  assert (Hin : In r (df_filter (name_matches name) (_load_data db_path)))
    by (rewrite Hm; now left).
  apply df_filter_In in Hin. destruct Hin as [Hin Hname].
  apply name_matches_spec in Hname.
  split; [now split|].
  split; [rewrite get_attraction_by_name_str, Hm; reflexivity|].
  split; [apply process_row_transportation|].
  split.
  - intros Hns.
    assert (E : get_transportation_info db_path (PStr name)
                = Raise (mk_exn TypeError (not_str_message stored))).
    { rewrite get_transportation_info_str, Hm.
      fold stored. now rewrite (json_loads_not_str _ Hns). }
    split; [exact E|].
    intros self raw Htools Hraw.
    rewrite (execute_action_single self (utf8 "get_transportation_info") raw
               (method1 (utf8 "get_transportation_info") (utf8 "name")
                  (get_transportation_info db_path))).
    + rewrite Hraw. unfold method1, observation_of. now rewrite E.
    + rewrite Htools. reflexivity.
    + simpl. tauto.
  - split.
    + intros s Hs. rewrite get_transportation_info_str, Hm. fold stored.
      rewrite Hs. unfold json_loads. destruct (json_decode s); reflexivity.
    + intros other Ho. rewrite get_transportation_info_str, Ho. reflexivity.
Qed.


End Transportation.

(** C10, as stated, fails for a record whose stored [transportation] text is
    a JSON string: the decoded field is then a [str], not a dict;
    [json.loads] accepts it, and being no JSON it raises the error the
    [except] clause handles.  The query returns an empty dict although the
    name is in the store, and raises nothing. *)
Lemma transportation_text_that_is_a_string :
  In Demo.teahouse (@DataReader._load_data Demo.direct Agent.default_db_path)
  /\ col_name Demo.teahouse = Some (utf8 "茶屋")
  /\ @DataReader.get_transportation_info Demo.direct Agent.default_db_path
       (PStr (utf8 "茶屋")) = Return (PDict []).
Proof.
  split; [right; left; reflexivity|]. split; vm_compute; reflexivity.
Qed.

(** The query on the first record of [init_db.py]. *)
Lemma asakusa_transportation_is_lost :
  @DataReader.get_transportation_info Demo.direct Agent.default_db_path
    (PStr (utf8 "浅草寺"))
  = Raise (mk_exn TypeError
             (utf8 "the JSON object must be str, bytes or bytearray, not dict")).
Proof.
  destruct (@get_transportation_info_never_succeeds Demo.direct
              Agent.default_db_path (utf8 "浅草寺") Demo.asakusa [])
    as (_ & _ & _ & H & _).
  - vm_compute. reflexivity.
  - destruct H as [E _].
    + intros s. vm_compute. discriminate.
    + rewrite E. vm_compute. reflexivity.
Defined.

(* ================================================================== *)
(** * The planning loop *)

Section Loop.
Import Agent.
Context {ext : Externals}.

Local Arguments extract_action : simpl never.
Local Arguments execute_action : simpl never.
Local Arguments calculate_cost : simpl never.
Local Arguments over_budget : simpl never.
Local Arguments budget_message : simpl never.
Local Arguments step_limit_message : simpl never.
Local Arguments cost_info : simpl never.
Local Arguments add_usage : simpl never.
Local Arguments account_of : simpl never.
Local Arguments seed : simpl never.

Lemma execute_action_returns (self : ReActAgent) (action raw : pystr) :
  exists t s, execute_action self action raw = (t, Return s)
              /\ Forall is_tool_call t.
Proof.
  destruct (lookup action (tools self)) as [f|] eqn:H.
  - destruct (existsb (Str.eqb action) single_string_actions) eqn:Es.
    { apply existsb_eqb_In in Es. rewrite (execute_action_single _ _ raw _ H Es).
      do 2 eexists. split; [reflexivity|]. repeat constructor. }
    assert (Hs : ~ In action single_string_actions).
    { intros Hin. apply existsb_eqb_In in Hin. congruence. }
    destruct (list_eq_dec N.eq_dec action search_name) as [->|Hne].
    + rewrite (execute_action_search _ raw _ H).
      destruct (json_decode raw) as [v|].
      * destruct v; try (do 2 eexists; split; [reflexivity|constructor]).
        destruct (f (Keywords d)) as [r|e].
        -- do 2 eexists. split; [reflexivity|]. repeat constructor.
        -- destruct (is_JSONDecodeError e);
             do 2 eexists; (split; [reflexivity|]); repeat constructor.
      * do 2 eexists. split; [reflexivity|]. repeat constructor.
    + rewrite (execute_action_no_argument _ _ raw _ H Hs Hne).
      do 2 eexists. split; [reflexivity|]. repeat constructor.
  - rewrite (execute_action_unknown _ _ raw H).
    do 2 eexists. split; [reflexivity|]. constructor.
Qed.

Lemma audited_tools (self : ReActAgent) (a : account) (t1 t2 : list event) :
  Forall is_tool_call t1 -> audited self a None t2 -> audited self a None (t1 ++ t2).
Proof.
  induction 1 as [|e t1 He _ IH]; intros H2; [exact H2|].
  destruct e; try contradiction. simpl. split; [reflexivity | exact (IH H2)].
Qed.

Lemma closing_tools (a : account) (t1 t2 : list event) :
  Forall is_tool_call t1 -> closing a (t1 ++ t2) = closing a t2.
Proof.
  induction 1 as [|e t1 He _ IH]; [reflexivity|].
  destruct e; try contradiction. exact IH.
Qed.

Lemma model_calls_tools (t1 t2 : list event) :
  Forall is_tool_call t1 -> model_calls (t1 ++ t2) = model_calls t2.
Proof.
  induction 1 as [|e t1 He _ IH]; [reflexivity|].
  destruct e; try contradiction. exact IH.
Qed.

Lemma calculate_cost_model (self self' : ReActAgent) (p c : Z) :
  model self = model self' -> calculate_cost self p c = calculate_cost self' p c.
Proof. unfold calculate_cost. now intros ->. Qed.

Lemma audited_same (self self' : ReActAgent) :
  model self = model self' -> budget_limit self = budget_limit self' ->
  forall t a pending, audited self a pending t -> audited self' a pending t.
Proof.
  intros Hm Hb. induction t as [|e t IH]; intros a pending; [trivial|].
  destruct e; simpl.
  - rewrite Hm, Hb. intros (? & ? & ? & H). repeat split; auto.
  - rewrite (calculate_cost_model self self' _ _ Hm), Hb.
    intros (? & ? & ? & ? & H). repeat split; auto.
  - intros (? & H). split; auto.
Qed.

Lemma add_usage_configuration (self : ReActAgent) cost p c :
  configuration (add_usage self cost p c) = configuration self.
Proof. reflexivity. Qed.

Lemma account_of_add_usage (self : ReActAgent) (cost : float) (response : completion) :
  account_of (add_usage self cost (usage_prompt_tokens response)
                        (usage_completion_tokens response))
  = charge (account_of self) cost response.
Proof. reflexivity. Qed.

(** One iteration of the loop, spelled out. *)
Lemma react_loop_step (n : nat) (self : ReActAgent) (history : list message) :
  react_loop (S n) self history =
  if over_budget self then mk_run [] self (Return (budget_message self))
  else
    let reply := chat_completions_create (model self) history 0.7%float in
    let request := ModelCall (model self) history 0.7%float reply in
    match reply with
    | Raise e => mk_run [request] self (Raise e)
    | Return response =>
      match calculate_cost self (usage_prompt_tokens response)
              (usage_completion_tokens response) with
      | Raise e => mk_run [request] self (Raise e)
      | Return cost =>
        let self' := add_usage self cost (usage_prompt_tokens response)
                       (usage_completion_tokens response) in
        let accounted := Accounted response cost (account_of self') in
        let history' :=
          history ++ [mk_message (utf8 "assistant") (message_content response)] in
        match fst (extract_action (message_content response)) with
        | [] =>
          mk_run [request; accounted] self'
            (Return (message_content response
                     ++ cost_info self' (usage_prompt_tokens response)
                          (usage_completion_tokens response) cost))
        | _ =>
          match execute_action self'
                  (fst (extract_action (message_content response)))
                  (snd (extract_action (message_content response))) with
          | (t, Raise e) => mk_run (request :: accounted :: t) self' (Raise e)
          | (t, Return observation) =>
            after (request :: accounted :: t)
              (react_loop n self'
                 (history' ++ [mk_message (utf8 "user")
                                 (utf8 "Observation: " ++ observation)]))
          end
        end
      end
    end.
Proof.
  cbn [react_loop]. destruct (over_budget self); [reflexivity|].
  destruct (chat_completions_create (model self) history 0.7%float); [|reflexivity].
  destruct (calculate_cost self (usage_prompt_tokens a) (usage_completion_tokens a));
    [|reflexivity].
  destruct (extract_action (message_content a)) as [action action_input].
  cbn [fst snd]. destruct action; reflexivity.
Qed.

(** The invariant of the loop, for any number of iterations left. *)
Lemma react_loop_audited (n : nat) :
  forall (self : ReActAgent) (history : list message),
    let r := react_loop n self history in
    audited self (account_of self) None (trace r)
    /\ account_of (agent r) = closing (account_of self) (trace r)
    /\ configuration (agent r) = configuration self
    /\ (model_calls (trace r) <= n)%nat.
Proof.
  induction n as [|n IH]; intros self history.
  - cbn. repeat split; auto.
  - cbv zeta. rewrite react_loop_step. cbv zeta.
    destruct (over_budget self) eqn:Hb.
    { cbn. repeat split; auto with arith. }
    destruct (chat_completions_create (model self) history 0.7%float)
      as [response|e].
    2:{ cbn. repeat split; auto with arith. }
    destruct (calculate_cost self (usage_prompt_tokens response)
                (usage_completion_tokens response)) as [cost|e] eqn:Hc.
    2:{ cbn. repeat split; auto with arith. }
    set (self' := add_usage self cost (usage_prompt_tokens response)
                    (usage_completion_tokens response)).
    destruct (fst (extract_action (message_content response))) as [|a0 action].
    { cbn. repeat split; auto with arith. }
    destruct (execute_action_returns self' (a0 :: action)
                (snd (extract_action (message_content response))))
      as (t & obs & -> & Ht).
    match goal with |- context [react_loop n self' ?h] =>
      destruct (IH self' h) as (Ha & Hacc & Hconf & Hcalls);
      set (rest := react_loop n self' h) in * end.
    cbn [after trace agent result app audited closing model_calls].
    repeat split; auto.
    + apply audited_tools; [exact Ht|].
      apply (audited_same self' self); [reflexivity | reflexivity | exact Ha].
    + rewrite closing_tools by exact Ht. exact Hacc.
    + rewrite model_calls_tools by exact Ht. auto with arith.
Qed.

Lemma plan_travel_audited (self : ReActAgent) (query : pystr) :
  let r := plan_travel self query in
  audited self (account_of self) None (trace r)
  /\ account_of (agent r) = closing (account_of self) (trace r)
  /\ configuration (agent r) = configuration self
  /\ (model_calls (trace r) <= max_iterations self)%nat.
Proof.
  unfold plan_travel. destruct (over_budget self).
  - simpl. repeat split; auto with arith.
  - apply react_loop_audited.
Qed.

Lemma closing_app (a : account) (t1 t2 : list event) :
  closing a (t1 ++ t2) = closing (closing a t1) t2.
Proof.
  revert a. induction t1 as [|e t1 IH]; intros a; [reflexivity|].
  destruct e; simpl; apply IH.
Qed.

(** What [audited] says of an event in the middle of a run. *)
Lemma audited_at (self : ReActAgent) (pre post : list event) (e : event) :
  forall a pending,
    audited self a pending (pre ++ e :: post) ->
    exists pending', audited self (closing a pre) pending' (e :: post).
Proof.
  induction pre as [|e0 pre IH]; intros a pending H.
  - now exists pending.
  - destruct e0; simpl in H |- *.
    + destruct H as (_ & _ & _ & H). exact (IH _ _ H).
    + destruct H as (_ & _ & _ & _ & H). exact (IH _ _ H).
    + destruct H as (_ & H). exact (IH _ _ H).
Qed.

Lemma occurs_in_middle (a x b : pystr) : occurs_in x (a ++ x ++ b).
Proof. now exists a, b. Qed.

Lemma budget_message_shows (self : ReActAgent) :
  occurs_in (format_float (budget_limit self)) (budget_message self)
  /\ occurs_in (format_4f (total_cost self)) (budget_message self).
Proof.
  unfold budget_message. split.
  - apply occurs_in_middle.
  - exists (utf8 "已达到预算限制（" ++ format_float (budget_limit self)
            ++ utf8 "元），无法继续执行。当前费用："), (utf8 "元").
    now rewrite <- !app_assoc.
Qed.

(** C1: whenever the accumulated cost is at or over the budget limit at the
    start of an iteration, the loop returns at once, with no model call and
    no other event, the agent unchanged, and the budget-exceeded message,
    which holds the budget limit and the accumulated cost; this includes
    the check [plan_travel] makes before the first iteration.  In every run,
    each model call is made while the accumulated cost is below the limit,
    so the total after a call is the sum of a total below the limit and the
    cost of that one call. *)
Theorem budget_gate (self : ReActAgent) (query : pystr) :
  (over_budget self = true ->
     plan_travel self query = mk_run [] self (Return (budget_message self))) /\
  (forall n history,
     over_budget self = true ->
     react_loop (S n) self history = mk_run [] self (Return (budget_message self))) /\
  (occurs_in (format_float (budget_limit self)) (budget_message self)
   /\ occurs_in (format_4f (total_cost self)) (budget_message self)) /\
  (forall pre m history temperature reply post,
     trace (plan_travel self query)
     = pre ++ ModelCall m history temperature reply :: post ->
     (budget_limit self <=? spent (closing (account_of self) pre))%float = false) /\
  (forall pre response cost totals post,
     trace (plan_travel self query)
     = pre ++ Accounted response cost totals :: post ->
     let before := spent (closing (account_of self) pre) in
     spent totals = (before + cost)%float
     /\ (budget_limit self <=? before)%float = false).
Proof.
  split; [|split; [|split; [|split]]].
  - intros H. unfold plan_travel. now rewrite H.
  - intros n history H. simpl. now rewrite H.
  - apply budget_message_shows.
  - intros pre m history temperature reply post E.
    destruct (plan_travel_audited self query) as (Ha & _).
    rewrite E in Ha. apply audited_at in Ha. destruct Ha as (p' & Ha).
    simpl in Ha. tauto.
  - intros pre response cost totals post E before.
    destruct (plan_travel_audited self query) as (Ha & _).
    rewrite E in Ha.
    apply audited_at in Ha. destruct Ha as (p' & Ha).
    simpl in Ha. destruct Ha as (_ & Hb & _ & -> & _). now split.
Qed.

Lemma always_acts_same (self self' : ReActAgent) :
  model self = model self' -> always_acts self -> always_acts self'.
Proof.
  intros Hm H m h t. destruct (H m h t) as (c & Hc & Ha & cost & Hcost).
  exists c. repeat split; auto. exists cost.
  now rewrite <- (calculate_cost_model self self' _ _ Hm).
Qed.

Lemma step_limit_message_shows (self : ReActAgent) :
  occurs_in (format_4f (total_cost self)) (step_limit_message self).
Proof. unfold step_limit_message. apply occurs_in_middle. Qed.

(** A model that always names an action, under a budget that is never
    reached, uses up the iterations. *)
Lemma react_loop_exhausts (n : nat) :
  forall (self : ReActAgent) (history : list message),
    always_acts self ->
    below_budget self (trace (react_loop n self history)) ->
    result (react_loop n self history)
    = Return (step_limit_message (agent (react_loop n self history)))
    /\ model_calls (trace (react_loop n self history)) = n.
Proof.
  induction n as [|n IH]; intros self history Hacts [Hb Hbelow].
  - now split.
  - revert Hbelow. rewrite react_loop_step. cbv zeta. rewrite Hb.
    destruct (Hacts (model self) history 0.7%float)
      as (c & Hc & Hact & cost & Hcost).
    rewrite Hc, Hcost.
    destruct (fst (extract_action (message_content c))) as [|a0 action];
      [contradiction|].
    set (self' := add_usage self cost (usage_prompt_tokens c)
                    (usage_completion_tokens c)).
    destruct (execute_action_returns self' (a0 :: action)
                (snd (extract_action (message_content c))))
      as (t & obs & -> & Ht).
    match goal with |- context [react_loop n self' ?h] =>
      specialize (IH self' h); set (rest := react_loop n self' h) in * end.
    cbn [after trace agent result app model_calls]. intros Hbelow.
    destruct IH as [Hres Hcalls].
    + apply (always_acts_same self self'); [reflexivity | exact Hacts].
    + split.
      * apply (Hbelow c cost (account_of self')). right. now left.
      * intros response cost' totals Hin.
        apply (Hbelow response cost' totals).
        right. right. apply in_or_app. now right.
    + split; [exact Hres|].
      rewrite model_calls_tools by exact Ht. now rewrite Hcalls.
Qed.

(** The four figures of the cost disclosure. *)
Lemma cost_info_shows (self : ReActAgent) (p c : Z) (cost : float) :
  occurs_in (str_int (p + c)) (cost_info self p c cost)
  /\ occurs_in (format_4f cost) (cost_info self p c cost)
  /\ occurs_in (str_int (total_prompt_tokens self + total_completion_tokens self))
       (cost_info self p c cost)
  /\ occurs_in (format_4f (total_cost self)) (cost_info self p c cost).
Proof.
  unfold cost_info. repeat split.
  - eexists ([newline; newline] ++ utf8 "费用信息：本次对话消耗 "), _.
    rewrite <- !app_assoc. reflexivity.
  - eexists ([newline; newline] ++ utf8 "费用信息：本次对话消耗 "
             ++ str_int (p + c) ++ utf8 " tokens，费用约为 "), _.
    rewrite <- !app_assoc. reflexivity.
  - eexists ([newline; newline] ++ utf8 "费用信息：本次对话消耗 "
             ++ str_int (p + c) ++ utf8 " tokens，费用约为 " ++ format_4f cost
             ++ utf8 " 元。总计消耗 "), _.
    rewrite <- !app_assoc. reflexivity.
  - eexists ([newline; newline] ++ utf8 "费用信息：本次对话消耗 "
             ++ str_int (p + c) ++ utf8 " tokens，费用约为 " ++ format_4f cost
             ++ utf8 " 元。总计消耗 "
             ++ str_int (total_prompt_tokens self + total_completion_tokens self)
             ++ utf8 " tokens，总费用 "), _.
    rewrite <- !app_assoc. reflexivity.
Qed.

(** C3: if the budget is not yet reached and the model's first response has
    no [Action:] marker, the loop ends after exactly one model call and
    returns that response followed by the cost disclosure, which reports
    the tokens and the cost of this call and the cumulative tokens and cost
    of the agent.  The cumulative figures are the totals the agent had
    before the run with this call added: the text returned is given in
    full, and the agent is left with these totals.  (The iteration cap is
    not zero, as the constructor makes it, and the usage of the response
    can be priced.) *)
Theorem direct_answer (self : ReActAgent) (query : pystr) (c : completion) (cost : float) :
  over_budget self = false ->
  max_iterations self <> O ->
  chat_completions_create (model self) (seed query) 0.7%float = Return c ->
  ~ occurs_in (utf8 "Action:") (message_content c) ->
  calculate_cost self (usage_prompt_tokens c) (usage_completion_tokens c)
  = Return cost ->
  let p := usage_prompt_tokens c in
  let q := usage_completion_tokens c in
  let self' := add_usage self cost p q in
  let suffix := cost_info self' p q cost in
  plan_travel self query
  = mk_run [ModelCall (model self) (seed query) 0.7%float (Return c);
            Accounted c cost (account_of self')]
           self' (Return (message_content c ++ suffix))
  /\ model_calls (trace (plan_travel self query)) = 1%nat
  /\ occurs_in (str_int (p + q)) suffix
  /\ occurs_in (format_4f cost) suffix
  /\ occurs_in (str_int (total_prompt_tokens self' + total_completion_tokens self'))
       suffix
  /\ occurs_in (format_4f (total_cost self')) suffix
  /\ result (plan_travel self query)
     = Return (message_content c ++ [newline; newline]
               ++ utf8 "费用信息：本次对话消耗 " ++ str_int (p + q)
               ++ utf8 " tokens，费用约为 " ++ format_4f cost
               ++ utf8 " 元。总计消耗 "
               ++ str_int (total_prompt_tokens self + p
                           + (total_completion_tokens self + q))
               ++ utf8 " tokens，总费用 "
               ++ format_4f (total_cost self + cost)%float ++ utf8 " 元。")
  /\ total_cost (agent (plan_travel self query)) = (total_cost self + cost)%float
  /\ total_prompt_tokens (agent (plan_travel self query))
     = (total_prompt_tokens self + p)%Z
  /\ total_completion_tokens (agent (plan_travel self query))
     = (total_completion_tokens self + q)%Z
  /\ occurs_in (str_int (total_prompt_tokens self + p
                         + (total_completion_tokens self + q))) suffix
  /\ occurs_in (format_4f (total_cost self + cost)%float) suffix.
Proof.
  intros Hb Hn Hc Hno Hcost p q self' suffix.
  assert (E : plan_travel self query
              = mk_run [ModelCall (model self) (seed query) 0.7%float (Return c);
                        Accounted c cost (account_of self')]
                       self' (Return (message_content c ++ suffix))).
  { unfold plan_travel. rewrite Hb.
    destruct (max_iterations self) as [|n]; [contradiction|].
    rewrite react_loop_step. cbv zeta. rewrite Hb, Hc, Hcost.
    replace (fst (extract_action (message_content c))) with (@nil N);
      [reflexivity|].
    unfold extract_action. cbn [fst]. now rewrite (search_group_absent _ _ Hno). }
  split; [exact E|]. split; [now rewrite E|].
  destruct (cost_info_shows self' p q cost) as (S1 & S2 & S3 & S4).
  split; [exact S1|]. split; [exact S2|]. split; [exact S3|].
  split; [exact S4|]. rewrite E. cbn [result agent].
  split; [reflexivity|]. split; [reflexivity|]. split; [reflexivity|].
  split; [reflexivity|]. split; [exact S3 | exact S4].
Qed.

End Loop.

(* ================================================================== *)
(** * Binary64 arithmetic on numbers that are not negative *)

Section FloatFacts.
Local Open Scope Z_scope.

Lemma digits2_pos_bounds (m : positive) :
  2 ^ (Zpos (digits2_pos m) - 1) <= Zpos m < 2 ^ Zpos (digits2_pos m).
Proof.
  induction m as [m IH|m IH|]; simpl digits2_pos.
  - rewrite Pos2Z.inj_succ, Z.pow_succ_r by lia.
    replace (Z.succ (Zpos (digits2_pos m)) - 1) with (Z.succ (Zpos (digits2_pos m) - 1)) by lia.
    rewrite Z.pow_succ_r by lia. lia.
  - rewrite Pos2Z.inj_succ, Z.pow_succ_r by lia.
    replace (Z.succ (Zpos (digits2_pos m)) - 1) with (Z.succ (Zpos (digits2_pos m) - 1)) by lia.
    rewrite Z.pow_succ_r by lia. lia.
  - simpl. lia.
Qed.

Lemma shr_1_m (mrs : shr_record) :
  0 <= shr_m mrs -> shr_m (shr_1 mrs) = shr_m mrs / 2.
Proof.
  destruct mrs as [m r s]. simpl. intros H.
  destruct m as [|p|p]; [reflexivity| |lia].
  destruct p as [p|p|]; simpl.
  - apply Z.div_unique with (r := 1); lia.
  - apply Z.div_unique with (r := 0); lia.
  - reflexivity.
Qed.

Lemma iter_pos_shr_1_m (p : positive) :
  forall mrs, 0 <= shr_m mrs ->
    shr_m (iter_pos shr_1 p mrs) = shr_m mrs / 2 ^ Zpos p.
Proof.
  assert (Hpos : forall q, 0 < 2 ^ Zpos q) by (intros; apply Z.pow_pos_nonneg; lia).
  induction p as [p IH|p IH|]; intros mrs H; simpl iter_pos.
  - assert (H1 : 0 <= shr_m (shr_1 mrs))
      by (rewrite shr_1_m by exact H; apply Z.div_pos; lia).
    assert (H2 : 0 <= shr_m (iter_pos shr_1 p (shr_1 mrs)))
      by (rewrite IH by exact H1; apply Z.div_pos; [exact H1 | apply Hpos]).
    rewrite IH by exact H2. rewrite IH by exact H1. rewrite shr_1_m by exact H.
    specialize (Hpos p).
    rewrite !Z.div_div by lia. f_equal.
    replace (Zpos p~1) with (1 + Zpos p + Zpos p) by lia.
    rewrite !Z.pow_add_r by lia. change (2 ^ 1) with 2. lia.
  - assert (H2 : 0 <= shr_m (iter_pos shr_1 p mrs))
      by (rewrite IH by exact H; apply Z.div_pos; [exact H | apply Hpos]).
    rewrite IH by exact H2. rewrite IH by exact H.
    specialize (Hpos p).
    rewrite !Z.div_div by lia. f_equal.
    replace (Zpos p~0) with (Zpos p + Zpos p) by lia.
    rewrite Z.pow_add_r by lia. reflexivity.
  - rewrite shr_1_m by exact H. reflexivity.
Qed.

Lemma shr_spec (mrs : shr_record) (e n : Z) :
  0 <= shr_m mrs ->
  shr_m (fst (shr mrs e n)) = shr_m mrs / 2 ^ Z.max n 0
  /\ snd (shr mrs e n) = e + Z.max n 0.
Proof.
  intros H. destruct n as [|p|p]; simpl.
  - rewrite Z.div_1_r. lia.
  - rewrite iter_pos_shr_1_m by exact H. split; [reflexivity | lia].
  - rewrite Z.div_1_r. lia.
Qed.

Lemma shr_record_of_loc_m (m : Z) (l : location) :
  shr_m (shr_record_of_loc m l) = m.
Proof. destruct l as [|[| |]]; reflexivity. Qed.

Lemma fexp64_eq (e : Z) : fexp prec emax e = fexp64 e.
Proof. reflexivity. Qed.

Lemma shr_fexp_spec (m e : Z) (l : location) :
  0 <= m ->
  let k := Z.max (fexp64 (Zdigits2 m + e) - e) 0 in
  shr_m (fst (shr_fexp prec emax m e l)) = m / 2 ^ k
  /\ snd (shr_fexp prec emax m e l) = e + k.
Proof.
  intros H k. unfold shr_fexp. rewrite fexp64_eq.
  pose proof (shr_spec (shr_record_of_loc m l) e
                (fexp64 (Zdigits2 m + e) - e)) as Hs.
  rewrite shr_record_of_loc_m in Hs. exact (Hs H).
Qed.

Lemma round_nearest_even_bounds (m : Z) (l : location) :
  m <= round_nearest_even m l <= m + 1.
Proof.
  destruct l as [|[| |]]; simpl; try lia. destruct (Z.even m); lia.
Qed.

(** [binary_round_aux] on a mantissa that is not negative: the mantissa is
    shifted to its exponent, rounded by at most one unit, and shifted again
    should the rounding have carried. *)
Lemma binary_round_aux_spec (s : bool) (mx ex : Z) (lx : location) :
  0 <= mx ->
  let k1 := Z.max (fexp64 (Zdigits2 mx + ex) - ex) 0 in
  exists m2,
    mx / 2 ^ k1 <= m2 <= mx / 2 ^ k1 + 1 /\
    let k2 := Z.max (fexp64 (Zdigits2 m2 + (ex + k1)) - (ex + k1)) 0 in
    binary_round_aux prec emax s mx ex lx
    = match m2 / 2 ^ k2 with
      | 0 => S754_zero s
      | Zpos m =>
        if ex + k1 + k2 <=? 971 then S754_finite s m (ex + k1 + k2)
        else S754_infinity s
      | Zneg _ => S754_nan
      end.
Proof.
  intros H k1. unfold binary_round_aux.
  destruct (shr_fexp_spec mx ex lx H) as [Hm1 He1]. fold k1 in Hm1, He1.
  destruct (shr_fexp prec emax mx ex lx) as [mrs' e'].
  simpl in Hm1, He1. subst e'.
  set (m2 := round_nearest_even (shr_m mrs') (loc_of_shr_record mrs')).
  exists m2.
  assert (Hb : mx / 2 ^ k1 <= m2 <= mx / 2 ^ k1 + 1).
  { rewrite <- Hm1. apply round_nearest_even_bounds. }
  split; [exact Hb|].
  set (k2 := Z.max (fexp64 (Zdigits2 m2 + (ex + k1)) - (ex + k1)) 0).
  assert (H2 : 0 <= m2).
  { assert (0 <= mx / 2 ^ k1) by (apply Z.div_pos; [exact H | apply Z.pow_pos_nonneg; lia]).
    lia. }
  destruct (shr_fexp_spec m2 (ex + k1) loc_Exact H2) as [Hm3 He3]. fold k2 in Hm3, He3.
  destruct (shr_fexp prec emax m2 (ex + k1) loc_Exact) as [mrs'' e''].
  simpl in Hm3, He3. subst e''. rewrite Hm3. reflexivity.
Qed.

Lemma positive_sign_not_negative (x : spec_float) :
  positive_sign x -> not_negative x.
Proof. destruct x as [[|]|[|]| |[|] m e]; simpl; tauto. Qed.

Lemma SFleb_zero (x : spec_float) :
  SFleb (S754_zero false) x = true <-> not_negative x.
Proof.
  destruct x as [[|]|[|]| |[|] m e]; simpl; unfold SFleb; simpl;
    split; intros; try tauto; try discriminate.
Qed.

Lemma binary_round_aux_sign (mx ex : Z) (lx : location) :
  0 <= mx -> positive_sign (binary_round_aux prec emax false mx ex lx).
Proof.
  intros H. destruct (binary_round_aux_spec false mx ex lx H) as (m2 & Hb & ->).
  set (k1 := Z.max (fexp64 (Zdigits2 mx + ex) - ex) 0) in *.
  set (k2 := Z.max _ 0).
  assert (0 <= mx / 2 ^ k1) by (apply Z.div_pos; [exact H | apply Z.pow_pos_nonneg; lia]).
  assert (H3 : 0 <= m2 / 2 ^ k2) by (apply Z.div_pos; [lia | apply Z.pow_pos_nonneg; lia]).
  destruct (m2 / 2 ^ k2) as [|m|m]; simpl; [trivial | | lia].
  destruct (ex + k1 + k2 <=? 971); exact I.
Qed.

Lemma binary_round_sign (m : positive) (e : Z) :
  positive_sign (binary_round prec emax false m e).
Proof.
  unfold binary_round.
  destruct (shl_align m e (fexp prec emax (Zpos (digits2_pos m) + e))) as [mz ez].
  apply binary_round_aux_sign. lia.
Qed.

Lemma binary_normalize_sign (z e : Z) :
  0 <= z -> positive_sign (binary_normalize prec emax z e false).
Proof.
  destruct z as [|m|m]; simpl; intros H; [trivial | apply binary_round_sign | lia].
Qed.

Lemma SFmul_sign (x y : spec_float) (my : positive) (ey : Z) :
  positive_sign x -> y = S754_finite false my ey ->
  positive_sign (SFmul prec emax x y).
Proof.
  intros Hx ->. destruct x as [[|]|[|]| |[|] m e]; simpl in *; try tauto.
  apply binary_round_aux_sign. lia.
Qed.

Lemma SFdiv_sign (x y : spec_float) (my : positive) (ey : Z) :
  positive_sign x -> y = S754_finite false my ey ->
  positive_sign (SFdiv prec emax x y).
Proof.
  intros Hx ->. destruct x as [[|]|[|]| |[|] m e]; simpl in *; try tauto.
  unfold SFdiv_core_binary.
  set (s := _ - _ - Z.min _ _).
  set (m' := match s with Z0 => Zpos m | Zpos _ => Z.shiftl (Zpos m) s | Zneg _ => 0 end).
  assert (Hm' : 0 <= m').
  { subst m'. destruct s; try lia. apply Z.shiftl_nonneg. lia. }
  pose proof (Z.div_pos m' (Zpos my) Hm' ltac:(lia)) as Hq.
  unfold Z.div in Hq. destruct (Z.div_eucl m' (Zpos my)) as [q r].
  apply binary_round_aux_sign. exact Hq.
Qed.

Lemma SFadd_sign (x y : spec_float) :
  positive_sign x -> positive_sign y -> positive_sign (SFadd prec emax x y).
Proof.
  destruct x as [[|]|[|]| |[|] mx ex]; destruct y as [[|]|[|]| |[|] my ey];
    simpl; try tauto.
  intros _ _. apply binary_round_sign.
Qed.



Lemma SFldexp_sign (x : spec_float) (e : Z) :
  positive_sign x -> positive_sign (SFldexp prec emax x e).
Proof.
  destruct x as [[|]|[|]| |[|] mx ex]; simpl; try tauto.
  intros _. apply binary_round_sign.
Qed.

Lemma SF2Prim_sign (x : spec_float) :
  positive_sign x -> positive_sign (Prim2SF (SF2Prim x)).
Proof.
  destruct x as [[|]|[|]| |[|] m e]; simpl; try tauto.
  intros _. rewrite Z_ldexp_spec. apply SFldexp_sign.
  rewrite of_uint63_spec. apply binary_normalize_sign.
  apply Uint63.to_Z_bounded.
Qed.

Lemma iter_xO (d m : positive) : Zpos (Pos.iter xO m d) = Zpos m * 2 ^ Zpos d.
Proof.
  induction d as [|d IH] using Pos.peano_ind.
  - simpl. lia.
  - rewrite Pos.iter_succ, Pos2Z.inj_succ, Z.pow_succ_r by lia.
    rewrite Pos2Z.inj_xO, IH. lia.
Qed.

Lemma shl_align_m (m : positive) (e e' : Z) :
  e' <= e -> Zpos (fst (shl_align m e e')) = Zpos m * 2 ^ (e - e').
Proof.
  intros H. unfold shl_align. destruct (e' - e) as [|d|d] eqn:E; simpl.
  - replace (e - e') with 0 by lia. rewrite Z.pow_0_r. lia.
  - lia.
  - rewrite iter_xO. replace (e - e') with (Zpos d) by lia. reflexivity.
Qed.

Lemma shl_align_id (m : positive) (e e' : Z) :
  e <= e' -> shl_align m e e' = (m, e).
Proof.
  intros H. unfold shl_align. destruct (e' - e) as [|d|d] eqn:E; try reflexivity. lia.
Qed.

Lemma bounded_canonical (m : positive) (e : Z) :
  bounded prec emax m e = true ->
  fexp64 (Zpos (digits2_pos m) + e) = e /\ e <= 971.
Proof.
  unfold bounded, canonical_mantissa. rewrite fexp64_eq. intros H.
  apply andb_prop in H as [H1 H2]. apply Z.eqb_eq in H1. apply Z.leb_le in H2.
  split; [exact H1 | exact H2].
Qed.

(** A quotient by a power of two below the number of digits is not zero. *)
Lemma div_pow_pos (m : positive) (k : Z) :
  0 <= k <= Zpos (digits2_pos m) - 1 -> 0 < Zpos m / 2 ^ k.
Proof.
  intros H. apply Z.div_str_pos. split; [apply Z.pow_pos_nonneg; lia|].
  apply Z.le_trans with (2 ^ (Zpos (digits2_pos m) - 1)).
  - apply Z.pow_le_mono_r; lia.
  - apply digits2_pos_bounds.
Qed.

(** After the shift to the exponent [fexp64] asks for, something is left. *)
Lemma shifted_pos (m : positive) (e : Z) :
  -1074 <= e ->
  0 < Zpos m / 2 ^ Z.max (fexp64 (Zpos (digits2_pos m) + e) - e) 0.
Proof.
  intros He. apply div_pow_pos. unfold fexp64. lia.
Qed.

Lemma digits_mono (a b : positive) (j : Z) :
  0 <= j -> Zpos a * 2 ^ j <= Zpos b ->
  Zpos (digits2_pos a) + j <= Zpos (digits2_pos b).
Proof.
  intros Hj H.
  destruct (digits2_pos_bounds a) as [La _].
  destruct (digits2_pos_bounds b) as [_ Ub].
  assert (Hlt : 2 ^ (Zpos (digits2_pos a) - 1 + j) < 2 ^ Zpos (digits2_pos b)).
  { rewrite Z.pow_add_r by lia.
    apply Z.le_lt_trans with (Zpos b); [|exact Ub].
    apply Z.le_trans with (Zpos a * 2 ^ j); [|exact H].
    apply Z.mul_le_mono_nonneg_r; [apply Z.pow_nonneg; lia | exact La]. }
  apply Z.pow_lt_mono_r_iff in Hlt; lia.
Qed.

(** The heart of the matter: the rounded sum of two positive binary64
    numbers is not below the first of them. *)
Lemma SFadd_finite_mono (mx mc : positive) (ex ec : Z) :
  bounded prec emax mx ex = true ->
  bounded prec emax mc ec = true ->
  SFleb (S754_finite false mx ex)
        (SFadd prec emax (S754_finite false mx ex) (S754_finite false mc ec))
  = true.
Proof.
  intros Bx Bc.
  destruct (bounded_canonical _ _ Bx) as [Cx Ux].
  destruct (bounded_canonical _ _ Bc) as [Cc Uc].
  assert (Lx : -1074 <= ex) by (unfold fexp64 in Cx; lia).
  assert (Lc : -1074 <= ec) by (unfold fexp64 in Cc; lia).
  simpl SFadd. set (ez := Z.min ex ec).
  assert (Hzx : ez <= ex) by (subst ez; lia).
  assert (Hzc : ez <= ec) by (subst ez; lia).
  assert (Lz : -1074 <= ez) by (subst ez; lia).
  pose proof (shl_align_m mx ex ez Hzx) as Ha.
  pose proof (shl_align_m mc ec ez Hzc) as Hb.
  set (pa := fst (shl_align mx ex ez)) in *.
  set (pb := fst (shl_align mc ec ez)) in *.
  change (Zpos pa + Zpos pb) with (Zpos (pa + pb)).
  simpl binary_normalize. unfold binary_round.
  set (M := (pa + pb)%positive).
  assert (HM : Zpos mx * 2 ^ (ex - ez) <= Zpos M).
  { subst M. rewrite Pos2Z.inj_add, Ha. lia. }
  pose proof (digits_mono mx M (ex - ez) ltac:(lia) HM) as Hd.
  rewrite fexp64_eq.
  set (E := fexp64 (Zpos (digits2_pos M) + ez)).
  assert (HE : ex <= E).
  { subst E. rewrite <- Cx at 1. unfold fexp64. lia. }
  rewrite shl_align_id by lia.
  destruct (binary_round_aux_spec false (Zpos M) ez loc_Exact ltac:(lia))
    as (m2 & Hm2 & ->).
  simpl Zdigits2 in *. fold E in Hm2 |- *.
  replace (Z.max (E - ez) 0) with (E - ez) in * by lia.
  replace (ez + (E - ez)) with E by lia.
  set (m1 := Zpos M / 2 ^ (E - ez)) in *.
  assert (Hm1 : 0 < m1).
  { pose proof (shifted_pos M ez Lz) as H. fold E in H.
    replace (Z.max (E - ez) 0) with (E - ez) in H by lia. exact H. }
  destruct m2 as [|p2|p2]; try lia.
  simpl Zdigits2.
  set (k2 := Z.max (fexp64 (Zpos (digits2_pos p2) + E) - E) 0).
  assert (Hm3 : 0 < Zpos p2 / 2 ^ k2) by (apply shifted_pos; lia).
  assert (Hk2 : 0 <= k2) by (subst k2; lia).
  destruct (Zpos p2 / 2 ^ k2) as [|m3|m3] eqn:E3; try lia.
  destruct (E + k2 <=? 971); [|reflexivity].
  unfold SFleb, SFcompare.
  destruct (Z.compare_spec ex (E + k2)) as [Heq|Hlt|Hgt]; [|reflexivity|lia].
  assert (k2 = 0) by lia. assert (E = ex) by lia.
  assert (Hle : (mx <= m3)%positive).
  { change (Zpos mx <= Zpos m3). rewrite <- E3.
    replace k2 with 0 by lia. rewrite Z.div_1_r.
    apply Z.le_trans with m1; [|lia].
    subst m1. apply Z.div_le_lower_bound; [apply Z.pow_pos_nonneg; lia|].
    replace (E - ez) with (ex - ez) by lia. lia. }
  apply Pos.compare_le_iff in Hle. fold (Pos.compare mx m3).
  destruct (mx ?= m3)%positive; try reflexivity. congruence.
Qed.

Lemma SFleb_refl_finite (m : positive) (e : Z) :
  SFleb (S754_finite false m e) (S754_finite false m e) = true.
Proof.
  unfold SFleb, SFcompare. rewrite Z.compare_refl.
  fold (Pos.compare m m). now rewrite Pos.compare_refl.
Qed.

(** Adding a number that is not negative to one that is not negative does
    not decrease it, in binary64 arithmetic. *)
Lemma SFadd_mono (x c : spec_float) :
  valid_binary x = true -> valid_binary c = true ->
  not_negative x -> not_negative c ->
  SFleb x (SFadd prec emax x c) = true /\ not_negative (SFadd prec emax x c).
Proof.
  intros Vx Vc Hx Hc.
  destruct x as [sx|[|]| |[|] mx ex]; simpl in Hx; try tauto;
    destruct c as [sc|[|]| |[|] mc ec]; simpl in Hc; try tauto.
  all: try (destruct sx); try (destruct sc).
  all: split;
    [ first [ reflexivity | apply SFleb_refl_finite | now apply SFadd_finite_mono ]
    | first [ exact I | apply positive_sign_not_negative; now apply SFadd_sign ] ].
Qed.

Lemma Prim2SF_zero : Prim2SF 0%float = S754_zero false.
Proof. reflexivity. Qed.

Lemma leb_zero (x : float) :
  (0 <=? x)%float = true <-> not_negative (Prim2SF x).
Proof. rewrite FloatAxioms.leb_spec, Prim2SF_zero. apply SFleb_zero. Qed.

(** The same on primitive floats. *)
Lemma add_not_decreasing (x c : float) :
  (0 <=? x)%float = true -> (0 <=? c)%float = true ->
  (x <=? x + c)%float = true /\ (0 <=? x + c)%float = true.
Proof.
  rewrite !leb_zero. intros Hx Hc.
  rewrite FloatAxioms.leb_spec, FloatAxioms.add_spec.
  exact (SFadd_mono _ _ (Prim2SF_valid x) (Prim2SF_valid c) Hx Hc).
Qed.

End FloatFacts.

(* ================================================================== *)
(** * The cost accountant *)

Section Cost.
Import Agent.
Local Open Scope Z_scope.

Lemma pricing_for_cases (m : pystr) :
  pricing_for m = qwen_flash \/ pricing_for m = qwen_plus
  \/ pricing_for m = qwen_max.
Proof.
  unfold pricing_for, MODEL_PRICING. cbn [lookup].
  destruct (Str.eqb m (utf8 "qwen-flash")); [now left|].
  destruct (Str.eqb m (utf8 "qwen-plus")); [now right; left|].
  destruct (Str.eqb m (utf8 "qwen-max")); [now right; right|].
  now left.
Qed.

(** The prices are positive finite numbers. *)
Lemma price_finite (m : pystr) :
  (exists mi ei, Prim2SF (input (pricing_for m)) = S754_finite false mi ei)
  /\ (exists mo eo, Prim2SF (output (pricing_for m)) = S754_finite false mo eo).
Proof.
  destruct (pricing_for_cases m) as [-> | [-> | ->]];
    split; eexists; eexists; vm_compute; reflexivity.
Qed.

Lemma float_of_int_sign (z : Z) (f : float) :
  0 <= z -> float_of_int z = Return f -> positive_sign (Prim2SF f).
Proof.
  intros Hz. unfold float_of_int.
  pose proof (binary_normalize_sign z 0 Hz) as Hs.
  set (sf := binary_normalize prec emax z 0 false) in *. intros H.
  assert (E : f = SF2Prim sf) by (destruct sf; congruence).
  rewrite E. now apply SF2Prim_sign.
Qed.




Lemma thousand_finite :
  exists m e, Prim2SF 1000%float = S754_finite false m e.
Proof. eexists. eexists. vm_compute. reflexivity. Qed.

Lemma share_sign (tokens price : float) (m : positive) (e : Z) :
  positive_sign (Prim2SF tokens) ->
  Prim2SF price = S754_finite false m e ->
  positive_sign (Prim2SF (share tokens price)).
Proof.
  intros Ht Hp. unfold share.
  rewrite FloatAxioms.mul_spec, FloatAxioms.div_spec.
  destruct thousand_finite as (mt & et & Hk).
  apply (SFmul_sign _ _ m e); [|exact Hp].
  apply (SFdiv_sign _ _ mt et); [exact Ht | exact Hk].
Qed.






Lemma calculate_cost_inv (self : ReActAgent) (p c : Z) (cost : float) :
  calculate_cost self p c = Return cost ->
  exists fp fc,
    float_of_int p = Return fp /\ float_of_int c = Return fc /\
    cost = (share fp (input (pricing_for (model self)))
            + share fc (output (pricing_for (model self))))%float.
Proof.
  unfold calculate_cost.
  destruct (float_of_int p) as [fp|e]; [|discriminate].
  destruct (float_of_int c) as [fc|e]; [|discriminate].
  cbn [bind]. intros [= <-]. now exists fp, fc.
Qed.

(** The cost of token counts that are not negative is not negative. *)
Lemma calculate_cost_sign (self : ReActAgent) (p c : Z) (cost : float) :
  0 <= p -> 0 <= c -> calculate_cost self p c = Return cost ->
  positive_sign (Prim2SF cost).
Proof.
  intros Hp Hc H. destruct (calculate_cost_inv _ _ _ _ H) as (fp & fc & Ep & Ec & ->).
  destruct (price_finite (model self)) as [(mi & ei & Hi) (mo & eo & Ho)].
  rewrite FloatAxioms.add_spec. apply SFadd_sign.
  - apply (share_sign _ _ mi ei); [exact (float_of_int_sign _ _ Hp Ep) | exact Hi].
  - apply (share_sign _ _ mo eo); [exact (float_of_int_sign _ _ Hc Ec) | exact Ho].
Qed.

Lemma calculate_cost_nonneg (self : ReActAgent) (p c : Z) (cost : float) :
  0 <= p -> 0 <= c -> calculate_cost self p c = Return cost ->
  (0 <=? cost)%float = true.
Proof.
  intros Hp Hc H. apply leb_zero, positive_sign_not_negative.
  exact (calculate_cost_sign _ _ _ _ Hp Hc H).
Qed.




End Cost.

(* ================================================================== *)
(** * The running account *)

Section Account.
Import Agent.
Context {ext : Externals}.

Lemma sumZ_shift (l : list Z) (x : Z) :
  fold_left Z.add l x = (x + sumZ l)%Z.
Proof.
  unfold sumZ. revert x. induction l as [|y l IH]; intros x; simpl.
  - lia.
  - rewrite IH, (IH y). lia.
Qed.

Lemma sumZ_cons (x : Z) (l : list Z) : sumZ (x :: l) = (x + sumZ l)%Z.
Proof. unfold sumZ at 1. cbn [fold_left]. rewrite sumZ_shift. lia. Qed.

Lemma audited_prefix (self : ReActAgent) (pre post : list event) :
  forall a pending,
    audited self a pending (pre ++ post) -> audited self a pending pre.
Proof.
  induction pre as [|e pre IH]; intros a pending H; [exact I|].
  destruct e; simpl in H |- *.
  - destruct H as (? & ? & ? & H). repeat split; auto; exact (IH _ _ H).
  - destruct H as (? & ? & ? & ? & H). repeat split; auto; exact (IH _ _ H).
  - destruct H as (? & H). split; auto; exact (IH _ _ H).
Qed.

(** In an audited run the totals are the initial totals plus the sums of
    what was charged. *)
Lemma audited_totals (self : ReActAgent) (t : list event) :
  forall a pending,
    audited self a pending t ->
    spent (closing a t) = running_sum (spent a) (accounted_costs t)
    /\ prompt_count (closing a t)
       = (prompt_count a
          + sumZ (map usage_prompt_tokens (accounted_replies t)))%Z
    /\ completion_count (closing a t)
       = (completion_count a
          + sumZ (map usage_completion_tokens (accounted_replies t)))%Z
    /\ Forall2 (priced self) (accounted_replies t) (accounted_costs t).
Proof.
  induction t as [|e t IH]; intros a pending H.
  - cbn. unfold sumZ. cbn. repeat split; try lia. constructor.
  - destruct e; simpl in H.
    + destruct H as (_ & _ & _ & H). exact (IH _ _ H).
    + destruct H as (_ & _ & Hp & -> & H).
      destruct (IH _ _ H) as (Hs & Hpc & Hcc & Hf).
      cbn [closing accounted_costs accounted_replies map].
      rewrite Hs, Hpc, Hcc, !sumZ_cons. cbn [charge spent prompt_count completion_count].
      split; [reflexivity|]. split; [lia|]. split; [lia|].
      constructor; [exact Hp | exact Hf].
    + destruct H as (_ & H). exact (IH _ _ H).
Qed.

(** Every reply of the model is accounted at once, but possibly the last. *)
Lemma audited_replies (self : ReActAgent) (t : list event) :
  forall a pending,
    audited self a pending t ->
    exists rest,
      pending_list pending ++ replies t = accounted_replies t ++ rest
      /\ (List.length rest <= 1)%nat.
Proof.
  induction t as [|e t IH]; intros a pending H.
  - exists (pending_list pending). cbn. rewrite app_nil_r. split; [reflexivity|].
    destruct pending; cbn; lia.
  - destruct e; simpl in H.
    + destruct H as (-> & _ & _ & H). destruct (IH _ _ H) as (rest & E & L).
      exists rest. split; [|exact L]. cbn [pending_list app accounted_replies].
      rewrite <- E. destruct reply; reflexivity.
    + destruct H as (-> & _ & _ & _ & H). destruct (IH _ _ H) as (rest & E & L).
      exists rest. split; [|exact L]. cbn in E |- *. now rewrite E.
    + destruct H as (-> & H). destruct (IH _ _ H) as (rest & E & L).
      exists rest. split; [|exact L]. exact E.
Qed.

(** With such reports the total cost never decreases. *)
Lemma audited_monotone (self : ReActAgent) (t : list event) :
  forall a pending,
    audited self a pending t ->
    Forall usage_not_negative (accounted_replies t) ->
    (0 <=? spent a)%float = true ->
    (0 <=? spent (closing a t))%float = true /\
    forall pre response cost totals post,
      t = pre ++ Accounted response cost totals :: post ->
      (spent (closing a pre) <=? spent totals)%float = true.
Proof.
  induction t as [|e t IH]; intros a pending H Hu Ha.
  - split; [exact Ha|]. intros pre ? ? ? ? E. now destruct pre.
  - destruct e; simpl in H.
    + destruct H as (_ & _ & _ & H). destruct (IH _ _ H Hu Ha) as [H1 H2].
      split; [exact H1|]. intros pre response0 cost0 totals0 post E.
      destruct pre as [|e0 pre]; [discriminate|]. injection E as <- E.
      exact (H2 _ _ _ _ _ E).
    + destruct H as (_ & _ & Hp & -> & H).
      cbn [accounted_replies] in Hu. inversion Hu as [|? ? [Hu1 Hu2] Hu']. subst.
      pose proof (calculate_cost_nonneg _ _ _ _ Hu1 Hu2 Hp) as Hc.
      destruct (add_not_decreasing (spent a) cost Ha Hc) as [Hm Hn].
      destruct (IH (charge a cost response) None H Hu' Hn) as [H1 H2].
      split; [exact H1|]. intros pre response0 cost0 totals0 post E.
      destruct pre as [|e0 pre].
      * injection E as <- <- <- <-. exact Hm.
      * injection E as <- E. exact (H2 _ _ _ _ _ E).
    + destruct H as (_ & H). destruct (IH _ _ H Hu Ha) as [H1 H2].
      split; [exact H1|]. intros pre response0 cost0 totals0 post E.
      destruct pre as [|e0 pre]; [discriminate|]. injection E as <- E.
      exact (H2 _ _ _ _ _ E).
Qed.

End Account.

(* ================================================================== *)
(** * Replies and their accounting *)

Section Settled.
Import Agent.
Context {ext : Externals}.

Local Arguments extract_action : simpl never.
Local Arguments execute_action : simpl never.
Local Arguments calculate_cost : simpl never.
Local Arguments over_budget : simpl never.
Local Arguments budget_message : simpl never.
Local Arguments step_limit_message : simpl never.
Local Arguments cost_info : simpl never.
Local Arguments add_usage : simpl never.
Local Arguments account_of : simpl never.
Local Arguments seed : simpl never.

(** In an audited run the replies seen are the replies accounted, followed
    by the one that has just arrived, if any. *)
Lemma audited_awaiting (self : ReActAgent) (t : list event) :
  forall a pending,
    audited self a pending t ->
    pending_list pending ++ replies t
    = accounted_replies t ++ pending_list (awaiting pending t).
Proof.
  induction t as [|e t IH]; intros a pending H.
  - cbn. now rewrite app_nil_r.
  - destruct e; simpl in H.
    + destruct H as (-> & _ & _ & H). specialize (IH _ _ H).
      cbn [pending_list app accounted_replies awaiting]. rewrite <- IH.
      destruct reply; reflexivity.
    + destruct H as (-> & _ & _ & _ & H). specialize (IH _ _ H).
      cbn [pending_list app accounted_replies awaiting replies] in IH |- *.
      now rewrite IH.
    + destruct H as (-> & H). specialize (IH _ _ H).
      cbn [pending_list app accounted_replies awaiting replies] in IH |- *.
      exact IH.
Qed.

Lemma awaiting_tools (t1 t2 : list event) :
  Forall is_tool_call t1 -> awaiting None (t1 ++ t2) = awaiting None t2.
Proof.
  induction 1 as [|e t1 He _ IH]; [reflexivity|].
  destruct e; try contradiction. exact IH.
Qed.

(** A reply is left without its accounting at the end of a run only when
    its usage could not be priced, and then the run raises that error. *)
Lemma react_loop_settled (self0 : ReActAgent) (n : nat) :
  forall self history,
    model self = model self0 ->
    match awaiting None (trace (react_loop n self history)) with
    | None => True
    | Some c =>
      exists e,
        result (react_loop n self history) = Raise e
        /\ calculate_cost self0 (usage_prompt_tokens c) (usage_completion_tokens c)
           = Raise e
    end.
Proof.
  induction n as [|n IH]; intros self history Hm.
  - exact I.
  - rewrite react_loop_step.
    destruct (over_budget self); [exact I|]. cbv zeta.
    destruct (chat_completions_create (model self) history 0.7%float)
      as [response|e0]; [|exact I].
    destruct (calculate_cost self (usage_prompt_tokens response)
                (usage_completion_tokens response)) as [cost|e0] eqn:Hcost.
    2:{ cbn [trace result awaiting]. exists e0. split; [reflexivity|].
        now rewrite <- (calculate_cost_model self self0 _ _ Hm). }
    destruct (fst (extract_action (message_content response))) as [|a0 action] eqn:Ha.
    { exact I. }
    rewrite <- Ha.
    destruct (execute_action_returns
                (add_usage self cost (usage_prompt_tokens response)
                   (usage_completion_tokens response))
                (fst (extract_action (message_content response)))
                (snd (extract_action (message_content response))))
      as (tl & obs & He & Htl).
    rewrite He. cbn [after trace result app awaiting].
    rewrite (awaiting_tools _ _ Htl).
    exact (IH (add_usage self cost (usage_prompt_tokens response)
                 (usage_completion_tokens response)) _ Hm).
Qed.

Lemma plan_travel_settled (self : ReActAgent) (query : pystr) :
  match awaiting None (trace (plan_travel self query)) with
  | None => True
  | Some c =>
    exists e,
      result (plan_travel self query) = Raise e
      /\ calculate_cost self (usage_prompt_tokens c) (usage_completion_tokens c)
         = Raise e
  end.
Proof.
  unfold plan_travel. destruct (over_budget self); [exact I|].
  now apply react_loop_settled.
Qed.

(** The account of a run that returned: every reply seen has been
    accounted, at the cost [calculate_cost] gives for it, and the totals of
    the agent are its totals before the run plus the sums over these
    replies. *)
Lemma plan_travel_returned (self : ReActAgent) (query : pystr) (s : pystr) :
  let r := plan_travel self query in
  result r = Return s ->
  accounted_replies (trace r) = replies (trace r)
  /\ Forall2 (priced self) (replies (trace r)) (accounted_costs (trace r))
  /\ total_cost (agent r)
     = running_sum (total_cost self) (accounted_costs (trace r))
  /\ total_prompt_tokens (agent r)
     = (total_prompt_tokens self
        + sumZ (map usage_prompt_tokens (replies (trace r))))%Z
  /\ total_completion_tokens (agent r)
     = (total_completion_tokens self
        + sumZ (map usage_completion_tokens (replies (trace r))))%Z.
Proof.
  intros r Hr. destruct (plan_travel_audited self query) as (Ha & Hacc & _).
  fold r in Ha, Hacc.
  assert (E : accounted_replies (trace r) = replies (trace r)).
  { pose proof (audited_awaiting self _ _ _ Ha) as Hw.
    pose proof (plan_travel_settled self query) as Hs. fold r in Hs.
    destruct (awaiting None (trace r)) as [c|].
    - destruct Hs as (e & He & _). congruence.
    - cbn [pending_list app] in Hw. now rewrite app_nil_r in Hw. }
  destruct (audited_totals self _ _ _ Ha) as (H1 & H2 & H3 & H4).
  rewrite <- Hacc in H1, H2, H3. rewrite E in H2, H3, H4.
  split; [exact E|]. split; [exact H4|].
  split; [exact H1|]. split; [exact H2 | exact H3].
Qed.

(** C9: throughout a run, that is after any initial part of its events, the
    accumulated cost is the initial accumulated cost plus the costs charged
    so far, added in order, where each cost is the one [calculate_cost]
    gives for the usage report of a reply of the model; the accumulated
    prompt and completion token counts are the initial counts plus the sums
    of the reported counts.  The usage reports seen so far are exactly the
    ones charged, but for the reply that has just arrived ([awaiting]): its
    accounting is the very next event, and a run ends with such a reply
    only by raising the error of pricing it.  The totals the agent is left
    with are those after the last event, so nothing is reset; for a run
    that returned they are the totals before the run plus the sums over
    all the usage reports of the run.  When the reported counts are not
    negative and the initial cost is not negative, the accumulated cost
    never decreases. *)
Theorem running_account (self : ReActAgent) (query : pystr) :
  let r := plan_travel self query in
  let a0 := account_of self in
  account_of (agent r) = closing a0 (trace r) /\
  (forall pre post,
     trace r = pre ++ post ->
     spent (closing a0 pre) = running_sum (spent a0) (accounted_costs pre)
     /\ prompt_count (closing a0 pre)
        = (prompt_count a0
           + sumZ (map usage_prompt_tokens (accounted_replies pre)))%Z
     /\ completion_count (closing a0 pre)
        = (completion_count a0
           + sumZ (map usage_completion_tokens (accounted_replies pre)))%Z
     /\ Forall2 (priced self) (accounted_replies pre) (accounted_costs pre)
     /\ exists rest,
          replies pre = accounted_replies pre ++ rest
          /\ (List.length rest <= 1)%nat) /\
  (Forall usage_not_negative (replies (trace r)) ->
   (0 <=? spent a0)%float = true ->
   forall pre response cost totals post,
     trace r = pre ++ Accounted response cost totals :: post ->
     (spent (closing a0 pre) <=? spent totals)%float = true
     /\ (0 <=? spent totals)%float = true) /\
  (forall pre post,
     trace r = pre ++ post ->
     replies pre = accounted_replies pre ++ pending_list (awaiting None pre)) /\
  (forall pre m history temperature c e post,
     trace r = pre ++ ModelCall m history temperature (Return c) :: e :: post ->
     exists cost totals, e = Accounted c cost totals) /\
  (forall c,
     awaiting None (trace r) = Some c ->
     exists e,
       result r = Raise e
       /\ calculate_cost self (usage_prompt_tokens c) (usage_completion_tokens c)
          = Raise e) /\
  (forall s,
     result r = Return s ->
     accounted_replies (trace r) = replies (trace r)
     /\ Forall2 (priced self) (replies (trace r)) (accounted_costs (trace r))
     /\ total_cost (agent r)
        = running_sum (total_cost self) (accounted_costs (trace r))
     /\ total_prompt_tokens (agent r)
        = (total_prompt_tokens self
           + sumZ (map usage_prompt_tokens (replies (trace r))))%Z
     /\ total_completion_tokens (agent r)
        = (total_completion_tokens self
           + sumZ (map usage_completion_tokens (replies (trace r))))%Z).
Proof.
  intros r a0. destruct (plan_travel_audited self query) as (Ha & Hacc & _).
  fold r a0 in Ha, Hacc. split; [exact Hacc|]. split; [|split; [|split;
    [|split; [|split]]]].
  - intros pre post E. rewrite E in Ha. apply audited_prefix in Ha.
    destruct (audited_totals self pre _ _ Ha) as (H1 & H2 & H3 & H4).
    repeat split; auto. exact (audited_replies self pre _ _ Ha).
  - intros Hu H0 pre response cost totals post E.
    destruct (audited_replies self _ _ _ Ha) as (rest & Er & _).
    cbn [pending_list app] in Er.
    assert (Hu' : Forall usage_not_negative (accounted_replies (trace r))).
    { rewrite Er in Hu. apply Forall_app in Hu. tauto. }
    destruct (audited_monotone self _ _ _ Ha Hu' H0) as [_ Hm].
    split; [exact (Hm _ _ _ _ _ E)|].
    (* the totals after this update are not negative either *)
    pose proof Ha as Ha'. rewrite E in Ha'.
    replace (pre ++ Accounted response cost totals :: post)
      with ((pre ++ [Accounted response cost totals]) ++ post) in Ha'
      by (rewrite <- app_assoc; reflexivity).
    apply audited_prefix in Ha'.
    assert (Hu'' : Forall usage_not_negative
                     (accounted_replies (pre ++ [Accounted response cost totals]))).
    { rewrite E in Hu'.
      replace (pre ++ Accounted response cost totals :: post)
        with ((pre ++ [Accounted response cost totals]) ++ post) in Hu'
        by (rewrite <- app_assoc; reflexivity).
      clear - Hu'. revert Hu'.
      generalize (pre ++ [Accounted response cost totals]) as t1.
      induction t1 as [|e t1 IH]; intros H; [constructor|].
      destruct e; cbn in H |- *; auto.
      inversion H; subst. constructor; auto. }
    destruct (audited_monotone self _ _ _ Ha' Hu'' H0) as [Hn _].
    rewrite closing_app in Hn. exact Hn.
  - intros pre post E. rewrite E in Ha. apply audited_prefix in Ha.
    exact (audited_awaiting self pre _ _ Ha).
  - intros pre m history temperature c e post E. rewrite E in Ha.
    apply audited_at in Ha. destruct Ha as (p' & Ha).
    cbn [audited] in Ha. destruct Ha as (_ & _ & _ & Ha).
    destruct e; cbn [audited] in Ha.
    + destruct Ha as (Hp & _). discriminate Hp.
    + destruct Ha as (Hp & _). injection Hp as <-. now eexists _, _.
    + destruct Ha as (Hp & _). discriminate Hp.
  - intros c Hc. pose proof (plan_travel_settled self query) as Hs.
    fold r in Hs. rewrite Hc in Hs. exact Hs.
  - intros s Hs. exact (plan_travel_returned self query s Hs).
Qed.

(** C2: every invocation performs at most [max_iterations] iterations,
    hence at most that many model calls; the cap is a field the loop never
    changes, and the constructor sets it to ten whatever the model and the
    budget.  If the model names an action on every turn and the budget is
    never reached, the loop ends after exactly [max_iterations] model calls
    and returns the step-limit message, which holds the accumulated cost:
    the total cost the agent had before the run plus the costs of all the
    replies of the run, each as [calculate_cost] gives it; the agent is
    left with that total and with the token counts increased by the sums
    of the reported counts. *)
Theorem iteration_cap (self : ReActAgent) (query : pystr) :
  ((model_calls (trace (plan_travel self query)) <= max_iterations self)%nat
   /\ max_iterations (agent (plan_travel self query)) = max_iterations self
   /\ forall m b, max_iterations (__init__ m b) = 10%nat) /\
  (always_acts self ->
   below_budget self (trace (plan_travel self query)) ->
   let r := plan_travel self query in
   result r = Return (step_limit_message (agent r))
   /\ model_calls (trace r) = max_iterations self
   /\ occurs_in (format_4f (total_cost (agent r))) (step_limit_message (agent r))
   /\ accounted_replies (trace r) = replies (trace r)
   /\ Forall2 (priced self) (replies (trace r)) (accounted_costs (trace r))
   /\ total_cost (agent r)
      = running_sum (total_cost self) (accounted_costs (trace r))
   /\ total_prompt_tokens (agent r)
      = (total_prompt_tokens self
         + sumZ (map usage_prompt_tokens (replies (trace r))))%Z
   /\ total_completion_tokens (agent r)
      = (total_completion_tokens self
         + sumZ (map usage_completion_tokens (replies (trace r))))%Z
   /\ result r
      = Return (utf8 "抱歉，我无法在限定的步骤内完成您的请求。当前费用："
                ++ format_4f (running_sum (total_cost self)
                                (accounted_costs (trace r)))
                ++ utf8 "元")).
Proof.
  split.
  - destruct (plan_travel_audited self query) as (_ & _ & Hconf & Hcalls).
    split; [exact Hcalls|]. split; [|reflexivity].
    unfold configuration in Hconf. congruence.
  - intros Hacts Hbelow r.
    assert (H : result r = Return (step_limit_message (agent r))
                /\ model_calls (trace r) = max_iterations self).
    { subst r. revert Hbelow. unfold plan_travel.
      destruct (over_budget self) eqn:Hb.
      - intros [Hb' _]. congruence.
      - intros Hbelow.
        exact (react_loop_exhausts _ self (seed query) Hacts Hbelow). }
    destruct H as [Hres Hcalls].
    destruct (plan_travel_returned self query _ Hres)
      as (E1 & E2 & E3 & E4 & E5).
    fold r in E1, E2, E3, E4, E5.
    split; [exact Hres|]. split; [exact Hcalls|].
    split; [apply step_limit_message_shows|].
    split; [exact E1|]. split; [exact E2|]. split; [exact E3|].
    split; [exact E4|]. split; [exact E5|].
    rewrite Hres. unfold step_limit_message. now rewrite E3.
Qed.

End Settled.

(* ================================================================== *)
(** * The properties on the concrete environment *)

(** An agent over budget answers with the budget message and calls
    nothing. *)
Lemma budget_gate_example :
  @Agent.plan_travel Demo.looping (Demo.spent Demo.looping) Demo.query
  = Agent.mk_run [] (Demo.spent Demo.looping)
      (Return (@Agent.budget_message Demo.looping (Demo.spent Demo.looping))).
Proof.
  apply (@budget_gate Demo.looping (Demo.spent Demo.looping) Demo.query).
  vm_compute. reflexivity.
Defined.

Lemma looping_always_acts :
  @always_acts Demo.looping (Demo.fresh Demo.looping).
Proof.
  intros m h t. exists Demo.tool_request. split; [reflexivity|]. split.
  - vm_compute. discriminate.
  - eexists. vm_compute. reflexivity.
Qed.

Lemma looping_below_budget :
  below_budget (Demo.fresh Demo.looping)
    (Agent.trace (@Agent.plan_travel Demo.looping (Demo.fresh Demo.looping)
                    Demo.query)).
Proof.
  split; [vm_compute; reflexivity|].
  intros response cost totals Hin. vm_compute in Hin.
  repeat (destruct Hin as [Hin|Hin];
          [try discriminate; injection Hin as _ _ <-; vm_compute; reflexivity|]).
  contradiction.
Qed.

(** The model that always asks for a tool is called ten times, and the
    message that ends the run shows what the ten calls have cost. *)
Lemma iteration_cap_example :
  Props.model_calls
    (Agent.trace (@Agent.plan_travel Demo.looping (Demo.fresh Demo.looping)
                    Demo.query)) = 10%nat
  /\ Agent.result (@Agent.plan_travel Demo.looping (Demo.fresh Demo.looping)
                     Demo.query)
     = Return (utf8 "抱歉，我无法在限定的步骤内完成您的请求。当前费用：0.0011元").
Proof.
  destruct (@iteration_cap Demo.looping (Demo.fresh Demo.looping) Demo.query)
    as [_ H].
  destruct (H looping_always_acts looping_below_budget)
    as (_ & E & _ & _ & _ & _ & _ & _ & R).
  split; [exact E|]. rewrite R. vm_compute. reflexivity.
Defined.

(** The model that answers at once is called once; the agent had spent
    0.05 on 1200 tokens before, and the disclosure adds this call to
    that. *)
Lemma direct_answer_example :
  Props.model_calls
    (Agent.trace (@Agent.plan_travel Demo.direct (DemoStore.halfway Demo.direct)
                    Demo.query)) = 1%nat
  /\ Agent.result (@Agent.plan_travel Demo.direct (DemoStore.halfway Demo.direct)
                     Demo.query)
     = Return (message_content Demo.final_answer ++ [newline; newline]
               ++ utf8 "费用信息：本次对话消耗 470 tokens，费用约为 0.0002 元。总计消耗 1670 tokens，总费用 0.0502 元。").
Proof.
  destruct (@direct_answer Demo.direct (DemoStore.halfway Demo.direct) Demo.query
              Demo.final_answer
              (Demo.cost_of (DemoStore.halfway Demo.direct) Demo.final_answer))
    as (_ & E & _ & _ & _ & _ & R & _).
  - vm_compute. reflexivity.
  - discriminate.
  - reflexivity.
  - apply after_first_none. vm_compute. reflexivity.
  - vm_compute. reflexivity.
  - split; [exact E|]. rewrite R. vm_compute. reflexivity.
Defined.



(** The run that answers at once leaves the total cost no lower than it
    found it. *)
Lemma running_account_example :
  (Agent.total_cost (Demo.fresh Demo.direct)
   <=? Agent.total_cost
         (Agent.agent (@Agent.plan_travel Demo.direct (Demo.fresh Demo.direct)
                         Demo.query)))%float = true.
Proof.
  destruct (@running_account Demo.direct (Demo.fresh Demo.direct) Demo.query)
    as (_ & _ & H & _).
  refine (proj1 (H _ _
    [Agent.ModelCall (utf8 "qwen-flash") (@Agent.seed Demo.query) 0.7%float
       (Return Demo.final_answer)]
    Demo.final_answer
    (Demo.cost_of (Demo.fresh Demo.direct) Demo.final_answer)
    (Agent.account_of
       (Agent.agent (@Agent.plan_travel Demo.direct (Demo.fresh Demo.direct)
                       Demo.query)))
    [] _)).
  - vm_compute. repeat constructor; discriminate.
  - vm_compute. reflexivity.
  - vm_compute. reflexivity.
Defined.
(* ================================================================== *)
(** * Splitting and joining *)

Section TextFacts.
Import Text.

Lemma contains_occurs (lit s : pystr) : contains lit s = true <-> occurs_in lit s.
Proof.
  unfold contains. destruct (after_first lit s) as [r|] eqn:E.
  - split; [intros _|reflexivity].
    destruct (after_first_some _ _ _ E) as (pre & -> & _). now exists pre, r.
  - apply after_first_none in E. split; [discriminate | contradiction].
Qed.

Lemma split_not_nil (sep : N) (s : pystr) : split sep s <> [].
Proof.
  destruct s as [|c s]; simpl; [discriminate|].
  destruct (c =? sep)%N; [discriminate|].
  destruct (split sep s); discriminate.
Qed.

Lemma join_cons (sep x : pystr) (rest : list pystr) :
  rest <> [] -> join sep (x :: rest) = x ++ sep ++ join sep rest.
Proof. destruct rest; [congruence | reflexivity]. Qed.

Lemma join_cons_head (sep : pystr) (c : N) (w : pystr) (ws : list pystr) :
  join sep ((c :: w) :: ws) = c :: join sep (w :: ws).
Proof. destruct ws; reflexivity. Qed.

Lemma join_split (s : pystr) : join [comma] (split comma s) = s.
Proof.
  induction s as [|c s IH]; [reflexivity|]. simpl split.
  destruct (N.eqb_spec c comma) as [->|ne].
  - rewrite join_cons by apply split_not_nil. now rewrite IH.
  - destruct (split comma s) as [|w ws] eqn:E.
    + now destruct (split_not_nil comma s).
    + rewrite join_cons_head. now rewrite IH.
Qed.

Lemma split_comma_free (s : pystr) : Forall comma_free (split comma s).
Proof.
  induction s as [|c s IH]; simpl.
  - constructor; [intros []|constructor].
  - destruct (N.eqb_spec c comma) as [->|ne].
    + constructor; [intros []|exact IH].
    + destruct (split comma s) as [|w ws].
      * constructor; [|constructor]. intros [E|[]]. congruence.
      * inversion IH as [|? ? Hw Hws]; subst. constructor; [|exact Hws].
        intros [E|Hin]; [congruence | exact (Hw Hin)].
Qed.

Lemma split_one (x : pystr) : comma_free x -> split comma x = [x].
Proof.
  induction x as [|c x IH]; intros H; [reflexivity|]. simpl.
  destruct (N.eqb_spec c comma) as [->|ne].
  - exfalso. apply H. now left.
  - rewrite IH; [reflexivity|]. intros Hin. apply H. now right.
Qed.

Lemma split_app_comma (x t : pystr) :
  comma_free x -> split comma (x ++ comma :: t) = x :: split comma t.
Proof.
  induction x as [|c x IH]; intros H; simpl.
  - reflexivity.
  - destruct (N.eqb_spec c comma) as [->|ne].
    + exfalso. apply H. now left.
    + rewrite IH; [reflexivity|]. intros Hin. apply H. now right.
Qed.

Lemma split_join (l : list pystr) :
  l <> [] -> Forall comma_free l -> split comma (join [comma] l) = l.
Proof.
  induction l as [|x l IH]; intros Hne Hall; [congruence|].
  inversion Hall as [|? ? Hx Hl]; subst.
  destruct l as [|y l].
  - simpl. now apply split_one.
  - rewrite join_cons by discriminate.
    change (x ++ [comma] ++ join [comma] (y :: l))
      with (x ++ comma :: join [comma] (y :: l)).
    rewrite split_app_comma by exact Hx. f_equal.
    apply IH; [discriminate | exact Hl].
Qed.

Lemma occurs_in_join (sep w : pystr) (l : list pystr) :
  In w l -> occurs_in w (join sep l).
Proof.
  induction l as [|x l IH]; intros Hin; [destruct Hin|].
  destruct l as [|y l].
  - destruct Hin as [->|[]]. exists [], []. simpl. now rewrite app_nil_r.
  - rewrite join_cons by discriminate. destruct Hin as [->|Hin].
    + now exists [], (sep ++ join sep (y :: l)).
    + destruct (IH Hin) as (a & b & E). exists (x ++ sep ++ a), b.
      rewrite E. now rewrite <- !app_assoc.
Qed.

Lemma join_nil_inv (l : list pystr) :
  join [comma] l = [] -> l = [] \/ l = [[]].
Proof.
  destruct l as [|x [|y l]]; simpl.
  - now left.
  - intros ->. now right.
  - intros H. apply app_eq_nil in H. destruct H as [_ H]. discriminate.
Qed.

End TextFacts.

(* ================================================================== *)
(** * DataReader: the queries *)

Section Queries.
Import DataReader Text.
Context {ext : Externals}.

Lemma df_filter_first (p : row -> option bool) (before rest : list row) (r : row) :
  (forall r', In r' before -> p r' <> Some true) ->
  p r = Some true ->
  df_filter p (before ++ r :: rest) = r :: df_filter p rest.
Proof.
  intros Hb Hr. unfold df_filter. rewrite filter_app. simpl. rewrite Hr.
  replace (filter _ before) with (@nil row); [reflexivity|].
  symmetry. induction before as [|b before IH]; [reflexivity|]. simpl.
  assert (Hp : p b <> Some true) by (apply Hb; now left).
  destruct (p b) as [[|]|]; try congruence; apply IH; intros; apply Hb; now right.
Qed.

Lemma df_filter_none (p : row -> option bool) (df : list row) :
  df_filter p df = [] <-> forall r, In r df -> p r <> Some true.
Proof.
  split.
  - intros E r Hin Hp.
    assert (H : In r (df_filter p df)) by (apply df_filter_In; now split).
    rewrite E in H. destruct H.
  - intros H. destruct (df_filter p df) as [|r l] eqn:E; [reflexivity|].
    assert (Hin : In r (df_filter p df)) by (rewrite E; now left).
    apply df_filter_In in Hin. destruct Hin as [Hin Hp]. now destruct (H r Hin).
Qed.

Lemma first_named_filter (name : pystr) (df : list row) (r : row) :
  first_named name df r ->
  exists rest, df_filter (name_matches name) df = r :: rest.
Proof.
  intros (before & rest & -> & Hr & Hb).
  exists (df_filter (name_matches name) rest). apply df_filter_first.
  - intros r' Hin Hp. apply name_matches_spec in Hp. exact (Hb r' Hin Hp).
  - now apply name_matches_spec.
Qed.

Lemma unnamed_filter (name : pystr) (df : list row) :
  unnamed name df <-> df_filter (name_matches name) df = [].
Proof.
  rewrite df_filter_none. unfold unnamed.
  split; intros H r Hin Hp; apply (H r Hin); now apply name_matches_spec.
Qed.

Lemma get_first_named (db_path name : pystr) (r : row) :
  first_named name (_load_data db_path) r ->
  get_attraction_by_name db_path (PStr name) = Return (process_row r).
Proof.
  intros H. destruct (first_named_filter _ _ _ H) as (rest & E).
  now rewrite get_attraction_by_name_str, E.
Qed.

Lemma get_unnamed (db_path name : pystr) :
  get_attraction_by_name db_path (PStr name) = Return PNone
  <-> unnamed name (_load_data db_path).
Proof.
  rewrite get_attraction_by_name_str, unnamed_filter.
  destruct (df_filter (name_matches name) (_load_data db_path)) as [|r rest].
  - split; reflexivity.
  - split; [intros [= H]; discriminate H | discriminate].
Qed.

(** X1: [get_attraction_by_name] returns the record of the first row that has
    the name, whatever rows follow it, and [None] exactly when no row has
    the name. *)
Theorem get_attraction_by_name_first (db_path name : pystr) :
  (forall r,
     first_named name (_load_data db_path) r ->
     get_attraction_by_name db_path (PStr name) = Return (process_row r)) /\
  (get_attraction_by_name db_path (PStr name) = Return PNone
   <-> unnamed name (_load_data db_path)).
Proof. split; [apply get_first_named | apply get_unnamed]. Qed.


Lemma cell_contains_has (o : option pystr) (s : pystr) :
  match cell_contains o s with Some true => true | _ => false end = cell_has s o.
Proof. destruct o as [c|]; simpl; [now destruct (contains s c) | reflexivity]. Qed.

Lemma cell_equals_is (o : option pystr) (s : pystr) :
  match cell_equals o s with Some true => true | _ => false end = cell_is s o.
Proof. destruct o as [c|]; simpl; [now destruct (Str.eqb c s) | reflexivity]. Qed.

Lemma keyword_matches_has (r : row) (keyword : pystr) :
  match keyword_matches r keyword with Some true => true | _ => false end
  = cell_has keyword (col_name r) || cell_has keyword (col_description r)
    || cell_has keyword (col_address r).
Proof.
  unfold keyword_matches, cell_contains, cell_has.
  destruct (col_name r) as [a|], (col_description r) as [b|],
           (col_address r) as [c|]; simpl;
    repeat match goal with |- context [contains ?k ?x] => destruct (contains k x) end;
    reflexivity.
Qed.

Lemma filter_filter {A} (p q : A -> bool) (l : list A) :
  filter q (filter p l) = filter (fun x => p x && q x) l.
Proof.
  induction l as [|x l IH]; [reflexivity|]. simpl.
  destruct (p x); simpl; [destruct (q x)|]; now rewrite IH.
Qed.

Lemma filter_true {A} (l : list A) : filter (fun _ => true) l = l.
Proof. induction l as [|x l IH]; [reflexivity|]. simpl. now rewrite IH. Qed.

(** The optional filter of [search_attractions] for one criterion. *)
Lemma optional_filter (which s : pystr) (p : row -> pystr -> option bool)
    (q : row -> bool) (df : list row) :
  (forall r, match p r s with Some true => true | _ => false end = q r) ->
  (if truthy (PStr s) then str_filter which p (PStr s) df else Return df)
  = Return (filter (fun r => match s with [] => true | _ => q r end) df).
Proof.
  intros H. destruct s as [|c s]; simpl.
  - now rewrite filter_true.
  - unfold df_filter. f_equal. apply filter_ext. exact H.
Qed.

Lemma search_attractions_str (db_path k c w : pystr) :
  search_attractions db_path (PStr k) (PStr c) (PStr w)
  = Return (PList (_df_to_dict_list
                     (filter (passes k c w) (_load_data db_path)))).
Proof.
  unfold search_attractions.
  rewrite (optional_filter _ k keyword_matches
             (fun r => cell_has k (col_name r) || cell_has k (col_description r)
                       || cell_has k (col_address r)))
    by (intros r; apply keyword_matches_has).
  unfold bind at 1.
  rewrite (optional_filter _ c (fun r s => cell_contains (col_categories r) s)
             (fun r => cell_has c (col_categories r)))
    by (intros r; apply cell_contains_has).
  unfold bind at 1.
  rewrite (optional_filter _ w (fun r s => cell_equals (col_ward r) s)
             (fun r => cell_is w (col_ward r)))
    by (intros r; apply cell_equals_is).
  unfold bind. rewrite !filter_filter. do 3 f_equal.
  apply filter_ext. intros r. unfold passes. now rewrite andb_assoc.
Qed.


Lemma process_row_categories (r : row) :
  getitem (utf8 "categories") (process_row r) = Return (split_field (col_categories r)).
Proof. reflexivity. Qed.

Lemma process_row_nearby (r : row) :
  getitem (utf8 "nearby_attractions") (process_row r)
  = Return (split_field (col_nearby_attractions r)).
Proof. reflexivity. Qed.

Lemma split_field_parts (o : option pystr) :
  exists parts,
    split_field o = PList (map PStr parts) /\
    Forall comma_free parts /\
    match o with
    | Some (c :: s) => join [comma] parts = c :: s
    | _ => parts = []
    end.
Proof.
  destruct o as [[|c s]|].
  - exists []. repeat split; constructor.
  - exists (split comma (c :: s)). split; [reflexivity|].
    split; [apply split_comma_free | apply join_split].
  - exists []. repeat split; constructor.
Qed.

(** X4: In every record that the reader builds the keys are the sixteen column
    names in the order of the schema, and each of the two list fields is a
    list of strings without a comma: the empty list when the stored text is
    null or empty, and otherwise the pieces of the stored text, which
    joined by commas give that text back. *)
Theorem list_fields_rejoin (r : row) :
  keys (process_row r) = schema /\
  forall k o,
    In (k, o) [ (utf8 "categories", col_categories r);
                (utf8 "nearby_attractions", col_nearby_attractions r) ] ->
    exists parts,
      getitem k (process_row r) = Return (PList (map PStr parts)) /\
      Forall comma_free parts /\
      match o with
      | Some (c :: s) => join [comma] parts = c :: s
      | _ => parts = []
      end.
Proof.
  split; [reflexivity|].
  intros k o [[= <- <-]|[[= <- <-]|[]]].
  - destruct (split_field_parts (col_categories r)) as (parts & E & H).
    exists parts. now rewrite process_row_categories, E.
  - destruct (split_field_parts (col_nearby_attractions r)) as (parts & E & H).
    exists parts. now rewrite process_row_nearby, E.
Qed.

(** X5: The query by category finds every attraction that the reader reports
    with that category among its categories. *)
Theorem category_search_is_complete (db_path category : pystr) (r : row)
    (tags : list pyval) :
  category <> [] ->
  In r (_load_data db_path) ->
  getitem (utf8 "categories") (process_row r) = Return (PList tags) ->
  In (PStr category) tags ->
  exists found,
    get_attractions_by_category db_path (PStr category) = Return (PList found)
    /\ In (process_row r) found.
Proof.
  intros Hne Hin Hget Htag.
  unfold get_attractions_by_category. rewrite search_attractions_str. eexists. split; [reflexivity|].
  unfold _df_to_dict_list. apply in_map. apply filter_In. split; [exact Hin|].
  unfold passes. simpl. rewrite andb_true_r.
  destruct category as [|c0 category']; [congruence|].
  rewrite process_row_categories in Hget. injection Hget as Hget.
  unfold split_field in Hget.
  destruct (col_categories r) as [[|c s]|].
  - injection Hget as <-. destruct Htag.
  - injection Hget as <-. apply in_map_iff in Htag.
    destruct Htag as (w & [= ->] & Hw). simpl. apply contains_occurs.
    rewrite <- (join_split (c :: s)). now apply occurs_in_join.
  - injection Hget as <-. destruct Htag.
Qed.

(** X6: A table that cannot be read is an empty table to every query: none of
    them raises, the lists are empty, the record is [None] and the two
    dicts are empty. *)
Theorem unreadable_table_is_empty (db_path : pystr) (e : exn)
    (name keyword category ward : pystr) :
  read_parquet db_path = Raise e ->
  get_all_attractions db_path = Return (PList []) /\
  get_attraction_by_name db_path (PStr name) = Return PNone /\
  search_attractions db_path (PStr keyword) (PStr category) (PStr ward)
  = Return (PList []) /\
  get_attractions_by_category db_path (PStr category) = Return (PList []) /\
  get_attractions_by_ward db_path (PStr ward) = Return (PList []) /\
  get_transportation_info db_path (PStr name) = Return (PDict []) /\
  get_basic_info db_path (PStr name) = Return (PDict []).
Proof.
  intros H.
  assert (E : _load_data db_path = []) by (unfold _load_data; now rewrite H).
  unfold get_attractions_by_category, get_attractions_by_ward.
  rewrite !search_attractions_str, get_attraction_by_name_str,
    get_transportation_info_str.
  unfold get_all_attractions, get_basic_info.
  rewrite get_attraction_by_name_str, E. repeat split.
Qed.

End Queries.

(** The first record of the table is the one found under its name. *)
Lemma get_attraction_by_name_first_example :
  @DataReader.get_attraction_by_name Demo.direct Agent.default_db_path
    (PStr (utf8 "浅草寺"))
  = Return (@DataReader.process_row Demo.direct Demo.asakusa).
Proof.
  apply (proj1 (@get_attraction_by_name_first Demo.direct Agent.default_db_path
                  (utf8 "浅草寺"))).
  exists [], [Demo.teahouse]. split; [reflexivity|]. split; [reflexivity|].
  intros r' [].
Defined.


(** The temple is found among the attractions of the category it has. *)
Lemma category_search_is_complete_example :
  exists found,
    @DataReader.get_attractions_by_category Demo.direct Agent.default_db_path
      (PStr (utf8 "文化")) = Return (PList found)
    /\ In (@DataReader.process_row Demo.direct Demo.asakusa) found.
Proof.
  apply (@category_search_is_complete Demo.direct Agent.default_db_path
           (utf8 "文化") Demo.asakusa
           [PStr (utf8 "寺庙"); PStr (utf8 "文化"); PStr (utf8 "历史")]).
  - vm_compute. discriminate.
  - left. reflexivity.
  - vm_compute. reflexivity.
  - right. left. reflexivity.
Defined.

(** Without the file every query answers as on an empty table. *)
Lemma unreadable_table_is_empty_example :
  @DataReader.get_all_attractions DemoStore.offline Agent.default_db_path
  = Return (PList [])
  /\ @DataReader.get_basic_info DemoStore.offline Agent.default_db_path
       (PStr (utf8 "浅草寺")) = Return (PDict []).
Proof.
  destruct (@unreadable_table_is_empty DemoStore.offline Agent.default_db_path
              (mk_exn (OtherException (utf8 "FileNotFoundError"))
                 (utf8 "No such file or directory"))
              (utf8 "浅草寺") [] [] [] eq_refl)
    as (H1 & _ & _ & _ & _ & _ & H2).
  split; [exact H1 | exact H2].
Defined.
(* ================================================================== *)
(** * The agent: conversation, failures and the registry *)

Section Conversation.
Import Agent.
Context {ext : Externals}.

Local Arguments extract_action : simpl never.
Local Arguments execute_action : simpl never.
Local Arguments calculate_cost : simpl never.
Local Arguments over_budget : simpl never.
Local Arguments budget_message : simpl never.
Local Arguments step_limit_message : simpl never.
Local Arguments cost_info : simpl never.
Local Arguments add_usage : simpl never.
Local Arguments account_of : simpl never.
Local Arguments seed : simpl never.

Lemma execute_action_tools (self self' : ReActAgent) (action raw : pystr) :
  tools self = tools self' ->
  execute_action self action raw = execute_action self' action raw.
Proof. unfold execute_action. now intros ->. Qed.

Lemma requests_tools (t1 t2 : list event) :
  Forall is_tool_call t1 -> requests (t1 ++ t2) = requests t2.
Proof.
  induction 1 as [|e t1 He _ IH]; [reflexivity|].
  destruct e; try contradiction. exact IH.
Qed.

Lemma replies_tools (t1 t2 : list event) :
  Forall is_tool_call t1 -> replies (t1 ++ t2) = replies t2.
Proof.
  induction 1 as [|e t1 He _ IH]; [reflexivity|].
  destruct e; try contradiction. exact IH.
Qed.

Lemma sent_by_tools (self : ReActAgent) (t : list event) :
  Forall is_tool_call t -> Forall (sent_by self) t.
Proof.
  induction 1 as [|e t He _ IH]; constructor; [|exact IH].
  destruct e; try contradiction. exact I.
Qed.

Lemma react_loop_conversation (self0 : ReActAgent) (n : nat) :
  forall self history,
    tools self = tools self0 -> model self = model self0 ->
    let t := trace (react_loop n self history) in
    requests t = firstn (model_calls t) (conversation self0 history (replies t))
    /\ Forall (sent_by self0) t.
Proof.
  induction n as [|n IH]; intros self history Ht Hm.
  - simpl. split; constructor.
  - cbv zeta. rewrite react_loop_step.
    destruct (over_budget self); [simpl; split; constructor|]. cbv zeta.
    destruct (chat_completions_create (model self) history 0.7%float)
      as [response|e] eqn:Hc.
    2:{ simpl. split; [reflexivity|]. repeat constructor. exact Hm. }
    destruct (calculate_cost self (usage_prompt_tokens response)
                (usage_completion_tokens response)) as [cost|e].
    2:{ simpl. split; [reflexivity|]. repeat constructor. exact Hm. }
    destruct (fst (extract_action (message_content response))) as [|a0 action] eqn:Ha.
    { simpl. split; [reflexivity|]. repeat constructor. exact Hm. }
    rewrite <- Ha.
    set (self' := add_usage self cost (usage_prompt_tokens response)
                    (usage_completion_tokens response)).
    assert (Ht' : tools self' = tools self0) by exact Ht.
    assert (Hm' : model self' = model self0) by exact Hm.
    destruct (execute_action_returns self'
                (fst (extract_action (message_content response)))
                (snd (extract_action (message_content response))))
      as (tl & obs & He & Htl).
    rewrite He.
    assert (Hx : (history ++ [mk_message (utf8 "assistant") (message_content response)])
                 ++ [mk_message (utf8 "user") (utf8 "Observation: " ++ obs)]
                 = extended self0 history response).
    { unfold extended, observation.
      rewrite <- (execute_action_tools self' self0 _ _ Ht'), He.
      now rewrite <- app_assoc. }
    rewrite Hx.
    destruct (IH self' (extended self0 history response) Ht' Hm') as (IH1 & IH2).
    cbn [after trace]. split.
    + cbn [requests app model_calls replies].
      rewrite (requests_tools _ _ Htl), (model_calls_tools _ _ Htl),
        (replies_tools _ _ Htl).
      cbn [conversation firstn]. f_equal. exact IH1.
    + constructor; [split; [exact Hm | reflexivity]|].
      constructor; [exact I|].
      apply Forall_app. split; [now apply sent_by_tools | exact IH2].
Qed.

Lemma conversation_prefix (self : ReActAgent) (cs : list completion) :
  forall history h,
    In h (conversation self history cs) -> exists more, h = history ++ more.
Proof.
  induction cs as [|c cs IH]; intros history h.
  - intros [<-|[]]. exists []. now rewrite app_nil_r.
  - intros [<-|Hin].
    + exists []. now rewrite app_nil_r.
    + destruct (IH _ _ Hin) as (more & ->). unfold extended.
      rewrite <- app_assoc. now eexists.
Qed.

Lemma conversation_length (self : ReActAgent) (cs : list completion) :
  forall history i h,
    nth_error (conversation self history cs) i = Some h ->
    List.length h = (List.length history + 2 * i)%nat.
Proof.
  induction cs as [|c cs IH]; intros history i h.
  - destruct i as [|i]; simpl.
    + intros [= <-]. lia.
    + destruct i; discriminate.
  - destruct i as [|i]; cbn [conversation nth_error].
    + intros [= <-]. lia.
    + intros H. rewrite (IH _ _ _ H). unfold extended.
      rewrite length_app. simpl. lia.
Qed.

Lemma firstn_In {A} (n : nat) (l : list A) (x : A) : In x (firstn n l) -> In x l.
Proof.
  revert l. induction n as [|n IH]; intros [|y l]; simpl; try tauto.
  intros [->|H]; [now left | right; now apply IH].
Qed.

Lemma nth_error_firstn_some {A} (n : nat) (l : list A) (i : nat) (x : A) :
  nth_error (firstn n l) i = Some x -> nth_error l i = Some x.
Proof.
  revert l i. induction n as [|n IH]; intros [|y l] [|i]; simpl;
    try discriminate; auto.
Qed.

(** X7: The conversation of a run only grows.  The first request to the model
    carries the system prompt and the query; each later request carries the
    messages of the one before it, followed by the reply the model gave and
    the observation made of that reply.  So every request starts with the
    system prompt and the query, the request number [i] (from zero) carries
    [2 + 2 * i] messages, and every request names the agent's model with
    temperature 0.7. *)
Theorem conversation_grows (self : ReActAgent) (query : pystr) :
  let t := trace (plan_travel self query) in
  requests t = firstn (model_calls t) (conversation self (seed query) (replies t))
  /\ Forall (fun h => exists more, h = seed query ++ more) (requests t)
  /\ (forall i h,
        nth_error (requests t) i = Some h -> List.length h = (2 + 2 * i)%nat)
  /\ Forall (sent_by self) t.
Proof.
  cbv zeta.
  assert (H : requests (trace (plan_travel self query))
              = firstn (model_calls (trace (plan_travel self query)))
                  (conversation self (seed query)
                     (replies (trace (plan_travel self query))))
              /\ Forall (sent_by self) (trace (plan_travel self query))).
  { unfold plan_travel. destruct (over_budget self).
    - simpl. split; constructor.
    - now apply react_loop_conversation. }
  destruct H as (H1 & H2). split; [exact H1|]. split; [|split; [|exact H2]].
  - rewrite H1. apply Forall_forall. intros h Hin.
    apply firstn_In in Hin. exact (conversation_prefix _ _ _ _ Hin).
  - intros i h Hi. rewrite H1 in Hi. apply nth_error_firstn_some in Hi.
    exact (conversation_length _ _ _ _ _ Hi).
Qed.

Lemma react_loop_raises (self0 : ReActAgent) (n : nat) :
  forall self history e,
    model self = model self0 ->
    result (react_loop n self history) = Raise e ->
    exists pre m h temperature reply,
      trace (react_loop n self history) = pre ++ [ModelCall m h temperature reply]
      /\ (reply = Raise e
          \/ exists c, reply = Return c
               /\ calculate_cost self0 (usage_prompt_tokens c)
                    (usage_completion_tokens c) = Raise e).
Proof.
  induction n as [|n IH]; intros self history e Hm.
  - discriminate.
  - rewrite react_loop_step.
    destruct (over_budget self); [discriminate|]. cbv zeta.
    destruct (chat_completions_create (model self) history 0.7%float)
      as [response|e0] eqn:Hc.
    2:{ cbn [result trace]. intros [= ->]. exists []. do 4 eexists.
        split; [reflexivity|]. now left. }
    destruct (calculate_cost self (usage_prompt_tokens response)
                (usage_completion_tokens response)) as [cost|e0] eqn:Hcost.
    2:{ cbn [result trace]. intros [= ->]. exists []. do 4 eexists.
        split; [reflexivity|]. right. exists response. split; [reflexivity|].
        now rewrite <- (calculate_cost_model self self0 _ _ Hm). }
    destruct (fst (extract_action (message_content response))) as [|a0 action] eqn:Ha.
    { discriminate. }
    rewrite <- Ha.
    destruct (execute_action_returns
                (add_usage self cost (usage_prompt_tokens response)
                   (usage_completion_tokens response))
                (fst (extract_action (message_content response)))
                (snd (extract_action (message_content response))))
      as (tl & obs & He & Htl).
    rewrite He. cbn [after result trace]. intros Hr.
    destruct (IH (add_usage self cost (usage_prompt_tokens response)
                    (usage_completion_tokens response)) _ _ Hm Hr)
      as (pre & m & h & temperature & reply & E & Hreply).
    rewrite E. eexists (_ :: _ :: tl ++ pre), m, h, temperature, reply.
    split; [|exact Hreply]. cbn [app]. now rewrite <- app_assoc.
Qed.

(** X8: A run raises in two cases only: the request to the model raised, or the
    usage of a reply could not be priced.  In both the failing request is
    the last event of the run, and the error is the one raised there.  The
    failure of a tool never ends a run. *)
Theorem plan_travel_raises_only (self : ReActAgent) (query : pystr) (e : exn) :
  result (plan_travel self query) = Raise e ->
  exists pre m h temperature reply,
    trace (plan_travel self query) = pre ++ [ModelCall m h temperature reply]
    /\ (reply = Raise e
        \/ exists c, reply = Return c
             /\ calculate_cost self (usage_prompt_tokens c)
                  (usage_completion_tokens c) = Raise e).
Proof.
  unfold plan_travel. destruct (over_budget self); [discriminate|].
  now apply react_loop_raises.
Qed.

End Conversation.

Section Registry.
Import Agent DataReader.
Context {ext : Externals}.


Lemma lookup_none_In {V} (k : pystr) (d : list (pystr * V)) :
  lookup k d = None <-> ~ In k (map fst d).
Proof.
  induction d as [|[k' v'] d IH]; simpl; [tauto|].
  destruct (Str.eqb k k') eqn:E.
  - apply eqb_eq in E. subst. split; [discriminate | tauto].
  - apply eqb_neq in E. rewrite IH. split; [intros H [?|?]; congruence | tauto].
Qed.

Ltac wired raw name param query :=
  rewrite (execute_action_single _ name raw (method1 name param query));
  [reflexivity | reflexivity | vm_compute; tauto].

(** X9: The registry the constructor builds maps each of the seven tool names
    to the query of [DataReader] of that name, on the default table.  For
    [get_all_attractions] the input text is not used at all; for the five
    queries with one parameter the input text without its outer double
    quotes is the argument; the observation is the serialized result, or the
    report of the error.  Every other name but [search_attractions] is an
    unknown action. *)
Theorem default_registry_wiring (m : pystr) (b : float) (raw : pystr) :
  let self := __init__ m b in
  let db := default_db_path in
  let text := strip_chars [dquote] raw in
  let single name query :=
    execute_action self name raw
    = ([ToolCall name (Positional text)],
       Return (observation_of (query db (PStr text)))) in
  execute_action self (utf8 "get_all_attractions") raw
  = ([ToolCall (utf8 "get_all_attractions") NoArgs],
     Return (observation_of (get_all_attractions db)))
  /\ single (utf8 "get_attraction_by_name") get_attraction_by_name
  /\ single (utf8 "get_attractions_by_category") get_attractions_by_category
  /\ single (utf8 "get_attractions_by_ward") get_attractions_by_ward
  /\ single (utf8 "get_transportation_info") get_transportation_info
  /\ single (utf8 "get_basic_info") get_basic_info
  /\ (forall action,
        ~ In action registered ->
        execute_action self action raw
        = ([], Return (unknown_action_observation action))).
Proof.
  cbv zeta.
  split.
  { rewrite (execute_action_no_argument _ _ raw
               (method0 (utf8 "get_all_attractions")
                  (get_all_attractions default_db_path))).
    - reflexivity.
    - reflexivity.
    - vm_compute. intuition discriminate.
    - vm_compute. discriminate. }
  repeat split.
  - wired raw (utf8 "get_attraction_by_name") (utf8 "name")
      (get_attraction_by_name default_db_path).
  - wired raw (utf8 "get_attractions_by_category") (utf8 "category")
      (get_attractions_by_category default_db_path).
  - wired raw (utf8 "get_attractions_by_ward") (utf8 "ward")
      (get_attractions_by_ward default_db_path).
  - wired raw (utf8 "get_transportation_info") (utf8 "name")
      (get_transportation_info default_db_path).
  - wired raw (utf8 "get_basic_info") (utf8 "name")
      (get_basic_info default_db_path).
  - intros action Hn. apply execute_action_unknown.
    apply lookup_none_In. exact Hn.
Qed.



End Registry.

(** When the model cannot be reached the run raises the error of the
    request, which is its only event. *)
Lemma plan_travel_raises_only_example :
  exists pre m h temperature reply,
    Agent.trace (@Agent.plan_travel DemoStore.disconnected
                   (Demo.fresh DemoStore.disconnected) Demo.query)
    = pre ++ [Agent.ModelCall m h temperature reply]
    /\ (reply = Raise (mk_exn (OtherException (utf8 "APIConnectionError"))
                         (utf8 "Connection error."))
        \/ exists c, reply = Return c
             /\ Agent.calculate_cost (Demo.fresh DemoStore.disconnected)
                  (usage_prompt_tokens c) (usage_completion_tokens c)
                = Raise (mk_exn (OtherException (utf8 "APIConnectionError"))
                           (utf8 "Connection error."))).
Proof.
  apply (@plan_travel_raises_only DemoStore.disconnected
           (Demo.fresh DemoStore.disconnected) Demo.query).
  vm_compute. reflexivity.
Defined.

(* ================================================================== *)
(** * The format of a reply and the parser *)

Section Format.
Import Agent.

Lemma mismatch_drop (lit suf s : pystr) :
  mismatch lit suf = true -> drop_prefix lit (suf ++ s) = None.
Proof.
  revert suf. induction lit as [|a lit IH]; intros [|b suf]; simpl;
    try discriminate.
  destruct (a =? b)%N; [apply IH | reflexivity].
Qed.

Lemma after_first_skip (lit pre s : pystr) :
  all_mismatch lit pre = true -> after_first lit (pre ++ s) = after_first lit s.
Proof.
  induction pre as [|c pre IH]; [reflexivity|].
  cbn [all_mismatch]. intros H. apply andb_true_iff in H. destruct H as [H1 H2].
  change ((c :: pre) ++ s) with (c :: pre ++ s). cbn [after_first].
  change (c :: pre ++ s) with ((c :: pre) ++ s).
  rewrite (mismatch_drop _ _ _ H1). now apply IH.
Qed.

Lemma occurs_in_tail (lit pre : pystr) (d : N) :
  ~ occurs_in lit (d :: pre) -> ~ occurs_in lit pre.
Proof. intros H (a & b & ->). apply H. now exists (d :: a), b. Qed.

Lemma after_first_past (lit pre tail : pystr) (c : N) :
  lit <> [] -> ~ In c lit -> ~ occurs_in lit pre ->
  after_first lit (pre ++ c :: tail) = after_first lit tail.
Proof.
  intros Hne Hc. induction pre as [|d pre IH]; intros Ho.
  - destruct lit as [|a lit]; [congruence|].
    cbn [app after_first drop_prefix].
    destruct (N.eqb_spec a c) as [->|ne]; [exfalso; apply Hc; now left|].
    reflexivity.
  - change ((d :: pre) ++ c :: tail) with (d :: pre ++ c :: tail).
    cbn [after_first].
    destruct (drop_prefix lit (d :: pre ++ c :: tail)) as [r|] eqn:E.
    + exfalso. apply drop_prefix_sound in E.
      change (d :: pre ++ c :: tail) with ((d :: pre) ++ c :: tail) in E.
      apply app_eq_app in E. destruct E as (l & [[E1 E2]|[E1 E2]]).
      * apply Ho. exists [], l. exact E1.
      * destruct l as [|c' l].
        -- apply Ho. exists [], []. simpl. rewrite E1. now rewrite !app_nil_r.
        -- injection E2 as <- _. apply Hc. rewrite E1. apply in_or_app.
           right. now left.
    + apply IH. exact (occurs_in_tail _ _ _ Ho).
Qed.

Lemma after_first_here (lit r : pystr) : after_first lit (lit ++ r) = Some r.
Proof.
  assert (H : drop_prefix lit (lit ++ r) = Some r) by now apply drop_prefix_sound.
  destruct (lit ++ r); simpl; now rewrite H.
Qed.

Lemma take_line_whole (s : pystr) : ~ In newline s -> take_line s = s.
Proof.
  induction s as [|c s IH]; intros H; [reflexivity|]. simpl.
  destruct (N.eqb_spec c newline) as [->|ne]; [exfalso; apply H; now left|].
  rewrite IH; [reflexivity|]. intros Hin. apply H. now right.
Qed.

Lemma take_line_before (s rest : pystr) :
  ~ In newline s -> take_line (s ++ newline :: rest) = s.
Proof.
  induction s as [|c s IH]; intros H.
  - reflexivity.
  - simpl. destruct (N.eqb_spec c newline) as [->|ne]; [exfalso; apply H; now left|].
    rewrite IH; [reflexivity|]. intros Hin. apply H. now right.
Qed.

Lemma visible_no_newline (s : pystr) :
  Forall (fun c => isspace c = false) s -> ~ In newline s.
Proof.
  intros H Hin. rewrite Forall_forall in H. specialize (H _ Hin). discriminate.
Qed.

Lemma visible_no_marker (lit s : pystr) (c : N) :
  In c lit -> isspace c = true ->
  Forall (fun c => isspace c = false) s -> ~ occurs_in lit s.
Proof.
  intros Hin Hc H (a & b & ->). rewrite Forall_forall in H.
  assert (Hs : isspace c = false).
  { apply H. apply in_or_app. right. apply in_or_app. now left. }
  congruence.
Qed.

Lemma visible_stripped (s : pystr) :
  Forall (fun c => isspace c = false) s -> stripped s.
Proof.
  intros H. rewrite Forall_forall in H. split; intros c s' ->; apply H.
  - now left.
  - apply in_or_app. right. now left.
Qed.

(** X11: The parser reads back the format that the system prompt asks for.  A
    reply made of a thought, an action name and an action input on three
    lines, each after its marker, is parsed into that name and that input:
    provided the thought contains neither marker, the name is not empty
    and has no white space, and the input is one line without white space
    at its ends. *)
Theorem requested_format_is_parsed (thought action action_input : pystr) :
  ~ occurs_in (utf8 "Action:") thought ->
  ~ occurs_in (utf8 "Action Input:") thought ->
  action <> [] ->
  Forall (fun c => isspace c = false) action ->
  ~ In newline action_input ->
  stripped action_input ->
  extract_action (formatted thought action action_input)
  = (action, action_input).
Proof.
  intros Ht1 Ht2 Hne Hvis Hline Hstr.
  unfold extract_action, formatted. f_equal.
  - unfold search_group.
    rewrite after_first_skip by (vm_compute; reflexivity).
    change (thought ++ [newline] ++ ?x) with (thought ++ newline :: x).
    rewrite after_first_past;
      [ | vm_compute; discriminate | vm_compute; intuition discriminate
        | exact Ht1 ].
    change (utf8 "Action: " ++ action ++ [newline] ++ utf8 "Action Input: "
            ++ action_input)
      with (utf8 "Action:" ++ 32%N :: action ++ newline
            :: utf8 "Action Input: " ++ action_input).
    rewrite after_first_here.
    cbn [lstrip_by]. change (isspace 32) with true. cbv iota.
    rewrite lstrip_by_id.
    2:{ intros c s' E. rewrite Forall_forall in Hvis. apply Hvis.
        destruct action as [|a action']; [congruence|].
        simpl in E. injection E as <- _. now left. }
    rewrite take_line_before by now apply visible_no_newline.
    apply strip_by_id; apply (visible_stripped _ Hvis).
  - unfold search_group.
    rewrite after_first_skip by (vm_compute; reflexivity).
    change (thought ++ [newline] ++ ?x) with (thought ++ newline :: x).
    rewrite after_first_past;
      [ | vm_compute; discriminate | vm_compute; intuition discriminate
        | exact Ht2 ].
    rewrite after_first_skip by (vm_compute; reflexivity).
    change (action ++ [newline] ++ ?x) with (action ++ newline :: x).
    rewrite after_first_past;
      [ | vm_compute; discriminate | vm_compute; intuition discriminate | ].
    2:{ apply (visible_no_marker _ _ 32%N); [|reflexivity|exact Hvis].
        vm_compute. tauto. }
    change (utf8 "Action Input: " ++ action_input)
      with (utf8 "Action Input:" ++ 32%N :: action_input).
    rewrite after_first_here.
    cbn [lstrip_by]. change (isspace 32) with true. cbv iota.
    rewrite lstrip_by_id by apply Hstr.
    rewrite take_line_whole by exact Hline.
    apply strip_by_id; apply Hstr.
Qed.

End Format.
(* ================================================================== *)
(** * DataWriter *)

Section Dicts.

Lemma lookup_assign_same (k : pystr) (v : pyval) (d : list (pystr * pyval)) :
  lookup k (assign k v d) = Some v.
Proof.
  induction d as [|[k' v'] d IH]; simpl.
  - now rewrite eqb_refl.
  - destruct (Str.eqb k k') eqn:E; simpl; [now rewrite eqb_refl | now rewrite E].
Qed.

Lemma lookup_assign_other (k k0 : pystr) (v : pyval) (d : list (pystr * pyval)) :
  k <> k0 -> lookup k (assign k0 v d) = lookup k d.
Proof.
  intros Hne. induction d as [|[k' v'] d IH]; simpl.
  - apply eqb_neq in Hne. now rewrite Hne.
  - destruct (Str.eqb k0 k') eqn:E; simpl.
    + apply eqb_eq in E. subst k'. apply eqb_neq in Hne. now rewrite Hne.
    + destruct (Str.eqb k k'); [reflexivity | exact IH].
Qed.

Lemma lookup_app_one {V} (k k0 : pystr) (v : V) (d : list (pystr * V)) :
  lookup k (d ++ [(k0, v)])
  = match lookup k d with
    | Some x => Some x
    | None => if Str.eqb k k0 then Some v else None
    end.
Proof.
  induction d as [|[k' v'] d IH]; simpl; [reflexivity|].
  destruct (Str.eqb k k'); [reflexivity | exact IH].
Qed.

Lemma lookup_setdefault (k k0 : pystr) (v : pyval) (d : list (pystr * pyval)) :
  lookup k (DataWriter.setdefault k0 v d)
  = match lookup k d with
    | Some x => Some x
    | None => if Str.eqb k k0 then Some v else None
    end.
Proof.
  unfold DataWriter.setdefault. destruct (lookup k0 d) as [x|] eqn:E.
  - destruct (lookup k d) eqn:Ek; [reflexivity|].
    destruct (Str.eqb k k0) eqn:Eq; [|reflexivity].
    apply eqb_eq in Eq. congruence.
  - apply lookup_app_one.
Qed.

Lemma lookup_fold_setdefault (k : pystr) (ds d : list (pystr * pyval)) :
  lookup k (fold_left (fun d kv => DataWriter.setdefault (fst kv) (snd kv) d) ds d)
  = match lookup k d with
    | Some x => Some x
    | None => lookup k ds
    end.
Proof.
  revert d. induction ds as [|[k1 v1] ds IH]; intros d; simpl.
  - now destruct (lookup k d).
  - rewrite IH, lookup_setdefault. simpl.
    destruct (lookup k d); [reflexivity|]. now destruct (Str.eqb k k1).
Qed.

End Dicts.

Section Indexing.
Import Text.
Local Open Scope Z_scope.

Lemma find_from_first (c : N) (pre rest : pystr) (i : Z) :
  ~ In c pre -> find_from i c (pre ++ c :: rest) = i + Z.of_nat (List.length pre).
Proof.
  revert i. induction pre as [|d pre IH]; intros i H.
  - simpl. rewrite N.eqb_refl. lia.
  - cbn [app find_from].
    destruct (N.eqb_spec d c) as [->|ne]; [exfalso; apply H; now left|].
    rewrite IH by (intros Hin; apply H; now right).
    cbn [List.length]. lia.
Qed.

Lemma rfind_from_absent (c : N) (s : pystr) (i : Z) :
  ~ In c s -> rfind_from i c s = -1.
Proof.
  revert i. induction s as [|d s IH]; intros i H; [reflexivity|].
  cbn [rfind_from]. rewrite IH by (intros Hin; apply H; now right).
  simpl. destruct (N.eqb_spec d c) as [->|ne]; [exfalso; apply H; now left|].
  reflexivity.
Qed.

Lemma rfind_from_last (c : N) (pre post : pystr) (i : Z) :
  0 <= i -> ~ In c post ->
  rfind_from i c (pre ++ c :: post) = i + Z.of_nat (List.length pre).
Proof.
  revert i. induction pre as [|d pre IH]; intros i Hi H.
  - cbn [app rfind_from]. rewrite (rfind_from_absent _ _ _ H).
    simpl. rewrite N.eqb_refl. lia.
  - cbn [app rfind_from]. rewrite IH by (lia || exact H).
    destruct (Z.eqb_spec (i + 1 + Z.of_nat (List.length pre)) (-1)); [lia|].
    cbn [List.length]. lia.
Qed.

Lemma slice_middle (pre mid post : pystr) :
  slice (Z.of_nat (List.length pre))
        (Z.of_nat (List.length pre) + Z.of_nat (List.length mid))
        (pre ++ mid ++ post)
  = mid.
Proof.
  unfold slice, clamp. rewrite !length_app.
  destruct (Z.ltb_spec (Z.of_nat (List.length pre)) 0); [lia|].
  destruct (Z.ltb_spec (Z.of_nat (List.length pre) + Z.of_nat (List.length mid)) 0);
    [lia|].
  rewrite !Z.min_l by lia.
  replace (Z.to_nat (Z.of_nat (List.length pre) + Z.of_nat (List.length mid)
                     - Z.of_nat (List.length pre)))
    with (List.length mid) by lia.
  rewrite Nat2Z.id.
  rewrite skipn_app, skipn_all, Nat.sub_diag. simpl.
  rewrite firstn_app, firstn_all, Nat.sub_diag. simpl. apply app_nil_r.
Qed.

(** The text between the first opening brace and the last closing one. *)
Lemma between_braces (pre body post : pystr) :
  ~ In lbrace pre -> ~ In rbrace post ->
  let content := pre ++ lbrace :: body ++ rbrace :: post in
  let start := find lbrace content in
  let end_ := rfind rbrace content + 1 in
  (negb (start =? -1) && (start <? end_) = true)%bool
  /\ slice start end_ content = lbrace :: body ++ [rbrace].
Proof.
  intros Hpre Hpost. cbv zeta. unfold find, rfind.
  rewrite (find_from_first _ _ _ _ Hpre).
  replace (pre ++ lbrace :: body ++ rbrace :: post)
    with ((pre ++ lbrace :: body) ++ rbrace :: post)
    by (now rewrite <- app_assoc).
  rewrite (rfind_from_last _ _ _ _ (Z.le_refl 0) Hpost).
  rewrite length_app. cbn [List.length]. split.
  - apply andb_true_iff. split.
    + apply negb_true_iff. apply Z.eqb_neq. lia.
    + apply Z.ltb_lt. lia.
  - replace ((pre ++ lbrace :: body) ++ rbrace :: post)
      with (pre ++ (lbrace :: body ++ [rbrace]) ++ post)
      by (rewrite <- !app_assoc; simpl; now rewrite <- app_assoc).
    replace (0 + Z.of_nat (List.length pre + S (List.length body)) + 1)
      with (Z.of_nat (List.length pre)
            + Z.of_nat (List.length (lbrace :: body ++ [rbrace])))
      by (cbn [List.length]; rewrite length_app; simpl; lia).
    replace (0 + Z.of_nat (List.length pre)) with (Z.of_nat (List.length pre)) by lia.
    apply slice_middle.
Qed.

End Indexing.

Section Writer.
Import Text DataWriter.
Context {ext : Externals} {lib : Library}.

Lemma _save_data_eq (self : DataWriter) (df : frame) :
  _save_data self df
  = ([Saved (db_path self) df (write_parquet df (db_path self))],
     Return (succeeded (write_parquet df (db_path self)))).
Proof.
  unfold _save_data, try_except, tbind, ret.
  destruct (write_parquet df (db_path self)); reflexivity.
Qed.

(** The steps of [_add_structured_attraction], one after the other. *)
Lemma _add_structured_attraction_eq (self : DataWriter) (attraction_data : pyval) :
  _add_structured_attraction self attraction_data
  = match prepare attraction_data with
    | Raise _ => ([], Return false)
    | Return d =>
      match (name <- DataReader.getitem (utf8 "name") (PDict d) ;;
             DataReader.str_filter (utf8 "name")
               (fun r s => DataReader.cell_equals (col_name r) s) name
               (_load_data self)) with
      | Raise _ => ([], Return false)
      | Return same =>
        if (0 <? List.length same)%nat then ([], Return false)
        else
          match pl_DataFrame d with
          | Raise _ => ([], Return false)
          | Return new_record =>
            match (if (0 <? List.length (_load_data self))%nat
                   then pl_concat (_load_data self) new_record
                   else Return new_record) with
            | Raise _ => ([], Return false)
            | Return df =>
              ([Saved (db_path self) df (write_parquet df (db_path self))],
               Return (succeeded (write_parquet df (db_path self))))
            end
          end
      end
    end.
Proof.
  unfold _add_structured_attraction.
  destruct (prepare attraction_data) as [d|e]; [|reflexivity].
  cbn [lift tbind].
  destruct (name <- DataReader.getitem (utf8 "name") (PDict d) ;;
            DataReader.str_filter (utf8 "name")
              (fun r s => DataReader.cell_equals (col_name r) s) name
              (_load_data self)) as [same|e]; [|reflexivity].
  destruct (0 <? List.length same)%nat; [reflexivity|].
  destruct (pl_DataFrame d) as [new_record|e]; [|reflexivity].
  cbn [lift tbind].
  destruct (if (0 <? List.length (_load_data self))%nat
            then pl_concat (_load_data self) new_record
            else Return new_record) as [df|e]; [|reflexivity].
  rewrite _save_data_eq. reflexivity.
Qed.

Lemma add_structured_attraction_outcome_aux (self : DataWriter)
    (attraction_data : pyval) :
  exists t b, _add_structured_attraction self attraction_data = (t, Return b).
Proof.
  rewrite _add_structured_attraction_eq.
  destruct (prepare attraction_data) as [d|e]; [|now exists [], false].
  destruct (name <- DataReader.getitem (utf8 "name") (PDict d) ;; _) as [same|e];
    [|now exists [], false].
  destruct (0 <? List.length same)%nat; [now exists [], false|].
  destruct (pl_DataFrame d) as [new_record|e]; [|now exists [], false].
  destruct (if (0 <? List.length (_load_data self))%nat then _ else _) as [df|e];
    [|now exists [], false].
  now do 2 eexists.
Qed.

(** X12: [_add_structured_attraction] never raises.  It writes the table at most
    once, to the path of the writer, and it returns [True] exactly when
    that one write was made and succeeded; in every other case it returns
    [False], and the only write it may have attempted is one that failed. *)
Theorem add_structured_attraction_outcome (self : DataWriter)
    (attraction_data : pyval) :
  exists t b,
    _add_structured_attraction self attraction_data = (t, Return b) /\
    (t = [] /\ b = false
     \/ exists df,
          t = [Saved (db_path self) df (write_parquet df (db_path self))]
          /\ b = succeeded (write_parquet df (db_path self))).
Proof.
  rewrite _add_structured_attraction_eq.
  destruct (prepare attraction_data) as [d|e];
    [|now exists [], false; split; [|left]].
  destruct (name <- DataReader.getitem (utf8 "name") (PDict d) ;; _) as [same|e];
    [|now exists [], false; split; [|left]].
  destruct (0 <? List.length same)%nat;
    [now exists [], false; split; [|left]|].
  destruct (pl_DataFrame d) as [new_record|e];
    [|now exists [], false; split; [|left]].
  destruct (if (0 <? List.length (_load_data self))%nat then _ else _) as [df|e];
    [|now exists [], false; split; [|left]].
  do 2 eexists. split; [reflexivity|]. right. now exists df.
Qed.

Lemma check_required_dict (d : list (pystr * pyval)) (k : pystr) :
  In k required_fields -> lookup k d = None ->
  exists e, check_required required_fields (PDict d) = Raise e.
Proof.
  intros Hin Hk. unfold required_fields in *.
  cbn [check_required contains_key bind].
  destruct (lookup (utf8 "name") d) eqn:E1;
    [|now eexists].
  destruct (lookup (utf8 "city") d) eqn:E2;
    [|now eexists].
  destruct (lookup (utf8 "ward") d) eqn:E3;
    [|now eexists].
  destruct (lookup (utf8 "description") d) eqn:E4;
    [|now eexists].
  destruct Hin as [<-|[<-|[<-|[<-|[]]]]]; congruence.
Qed.

Lemma prepare_not_dict (v : pyval) :
  (forall d, v <> PDict d) -> exists e, prepare v = Raise e.
Proof.
  intros H. unfold prepare.
  destruct (check_required required_fields v) as [[]|e]; [|now exists e].
  unfold bind. destruct v; try (now eexists). now destruct (H d).
Qed.

(** X13: What is not a dict, and a dict that lacks one of the four required
    fields, is rejected: the result is [False] and nothing is written,
    whatever the table holds. *)
Theorem rejected_without_writing (self : DataWriter) (attraction_data : pyval) :
  (forall d, attraction_data <> PDict d)
  \/ (exists d k, attraction_data = PDict d /\ In k required_fields
                  /\ lookup k d = None) ->
  _add_structured_attraction self attraction_data = ([], Return false).
Proof.
  intros H.
  assert (E : exists e, prepare attraction_data = Raise e).
  { destruct H as [H|(d & k & -> & Hin & Hk)].
    - now apply prepare_not_dict.
    - unfold prepare. destruct (check_required_dict d k Hin Hk) as (e & ->).
      now exists e. }
  destruct E as (e & E). now rewrite _add_structured_attraction_eq, E.
Qed.

Lemma join_if_list_other (k0 k : pystr) (d d' : list (pystr * pyval)) :
  join_if_list k0 d = Return d' -> k <> k0 -> lookup k d' = lookup k d.
Proof.
  unfold join_if_list, bind.
  destruct (DataReader.getitem k0 (PDict d)) as [v|e]; [|discriminate].
  destruct v; try (intros [= <-]; reflexivity).
  destruct (str_items 0 l) as [items|e]; [|discriminate].
  intros [= <-] Hne. now apply lookup_assign_other.
Qed.

Lemma dump_if_dict_other (k0 k : pystr) (d d' : list (pystr * pyval)) :
  dump_if_dict k0 d = Return d' -> k <> k0 -> lookup k d' = lookup k d.
Proof.
  unfold dump_if_dict, bind.
  destruct (DataReader.getitem k0 (PDict d)) as [v|e]; [|discriminate].
  destruct v; try (intros [= <-]; reflexivity).
  destruct (json_dumps_line (PDict d0)) as [text|e]; [|discriminate].
  intros [= <-] Hne. now apply lookup_assign_other.
Qed.

Lemma getitem_dict (k : pystr) (d : list (pystr * pyval)) :
  DataReader.getitem k (PDict d)
  = match lookup k d with
    | Some x => Return x
    | None => Raise (mk_exn KeyError k)
    end.
Proof. reflexivity. Qed.

Lemma getitem_lookup (k : pystr) (d : list (pystr * pyval)) (v : pyval) :
  DataReader.getitem k (PDict d) = Return v <-> lookup k d = Some v.
Proof.
  simpl. destruct (lookup k d); split; congruence.
Qed.

Lemma join_if_list_same (k : pystr) (d d' : list (pystr * pyval)) :
  join_if_list k d = Return d' ->
  (forall l, lookup k d = Some (PList l) ->
     exists items, str_items 0 l = Return items
                   /\ lookup k d' = Some (PStr (join [comma] items)))
  /\ ((forall l, lookup k d <> Some (PList l)) -> d' = d)
  /\ (forall l, lookup k d' <> Some (PList l)).
Proof.
  unfold join_if_list, bind. simpl DataReader.getitem.
  destruct (lookup k d) as [v|] eqn:E; [|discriminate].
  destruct v;
    try (intros [= <-]; repeat split;
         [intros ? [=] | rewrite E; discriminate]).
  destruct (str_items 0 l) as [items|e] eqn:Ei; [|discriminate].
  intros [= <-]. repeat split.
  - intros l' [= <-]. exists items. split; [exact Ei|]. apply lookup_assign_same.
  - intros H. now destruct (H l).
  - intros l'. rewrite lookup_assign_same. discriminate.
Qed.

Lemma dump_if_dict_same (k : pystr) (d d' : list (pystr * pyval)) :
  dump_if_dict k d = Return d' -> forall x, lookup k d' <> Some (PDict x).
Proof.
  unfold dump_if_dict, bind. simpl DataReader.getitem.
  destruct (lookup k d) as [v|] eqn:E; [|discriminate].
  destruct v; try (intros [= <-]; rewrite E; discriminate).
  destruct (json_dumps_line (PDict d0)) as [text|e]; [|discriminate].
  intros [= <-] x. rewrite lookup_assign_same. discriminate.
Qed.

(** The three conversions of [prepare], named. *)
Lemma prepare_steps (d d' : list (pystr * pyval)) :
  prepare (PDict d) = Return d' ->
  exists d1 d2,
    join_if_list (utf8 "categories")
      (assign (utf8 "last_updated") (PStr today) (set_defaults d)) = Return d1
    /\ dump_if_dict (utf8 "transportation") d1 = Return d2
    /\ join_if_list (utf8 "nearby_attractions") d2 = Return d'.
Proof.
  unfold prepare, bind.
  destruct (check_required required_fields (PDict d)) as [[]|e]; [|discriminate].
  destruct (join_if_list (utf8 "categories") _) as [d1|e]; [|discriminate].
  destruct (dump_if_dict (utf8 "transportation") d1) as [d2|e] eqn:E2;
    [|discriminate].
  intros H. exists d1, d2. repeat split; assumption.
Qed.

Lemma lookup_start (k : pystr) (d : list (pystr * pyval)) :
  k <> utf8 "last_updated" ->
  lookup k (assign (utf8 "last_updated") (PStr today) (set_defaults d))
  = match lookup k d with
    | Some v => Some v
    | None => lookup k defaults
    end.
Proof.
  intros H. rewrite lookup_assign_other by exact H.
  apply lookup_fold_setdefault.
Qed.

(** X14: The record that is stored.  A field that the caller gave keeps its
    value and a field that was not given gets its default, for every field
    but the four that are converted; the date of the last update is always
    today's, whatever the caller gave; the two list fields are never stored
    as lists and the transportation is never stored as a dict. *)
Theorem prepare_keeps_and_fills (d d' : list (pystr * pyval)) :
  prepare (PDict d) = Return d' ->
  (forall k,
     ~ In k converted_fields ->
     lookup k d' = match lookup k d with
                   | Some v => Some v
                   | None => lookup k defaults
                   end) /\
  lookup (utf8 "last_updated") d' = Some (PStr today) /\
  (forall l, lookup (utf8 "categories") d' <> Some (PList l)) /\
  (forall l, lookup (utf8 "nearby_attractions") d' <> Some (PList l)) /\
  (forall x, lookup (utf8 "transportation") d' <> Some (PDict x)).
Proof.
  intros H. destruct (prepare_steps _ _ H) as (d1 & d2 & H1 & H2 & H3).
  split; [|split; [|split; [|split]]].
  - intros k Hk. unfold converted_fields in Hk.
    assert (N1 : k <> utf8 "categories") by (intros ->; apply Hk; now left).
    assert (N2 : k <> utf8 "transportation")
      by (intros ->; apply Hk; right; now left).
    assert (N3 : k <> utf8 "nearby_attractions")
      by (intros ->; apply Hk; right; right; now left).
    assert (N4 : k <> utf8 "last_updated")
      by (intros ->; apply Hk; right; right; right; now left).
    rewrite (join_if_list_other _ k _ _ H3 N3).
    rewrite (dump_if_dict_other _ k _ _ H2 N2).
    rewrite (join_if_list_other _ k _ _ H1 N1).
    now apply lookup_start.
  - rewrite (join_if_list_other _ _ _ _ H3) by (vm_compute; discriminate).
    rewrite (dump_if_dict_other _ _ _ _ H2) by (vm_compute; discriminate).
    rewrite (join_if_list_other _ _ _ _ H1) by (vm_compute; discriminate).
    apply lookup_assign_same.
  - intros l.
    rewrite (join_if_list_other _ _ _ _ H3) by (vm_compute; discriminate).
    rewrite (dump_if_dict_other _ _ _ _ H2) by (vm_compute; discriminate).
    apply (join_if_list_same _ _ _ H1).
  - intros l. apply (join_if_list_same _ _ _ H3).
  - intros x.
    rewrite (join_if_list_other _ _ _ _ H3) by (vm_compute; discriminate).
    apply (dump_if_dict_same _ _ _ H2).
Qed.

Lemma str_items_map (l : list pystr) (i : nat) :
  str_items i (map PStr l) = Return l.
Proof.
  revert i. induction l as [|s l IH]; intros i; [reflexivity|].
  simpl. now rewrite IH.
Qed.

Lemma split_field_join (l : list pystr) :
  Forall comma_free l -> l <> [[]] ->
  DataReader.split_field (Some (join [comma] l)) = PList (map PStr l).
Proof.
  intros Hall Hne. unfold DataReader.split_field.
  destruct (join [comma] l) as [|c s] eqn:E.
  - destruct (join_nil_inv _ E) as [->| ->]; [reflexivity | congruence].
  - rewrite <- E. rewrite split_join; [reflexivity| |exact Hall].
    intros ->. discriminate.
Qed.

Lemma lookup_categories_start (d : list (pystr * pyval)) :
  lookup (utf8 "categories")
    (assign (utf8 "last_updated") (PStr today) (set_defaults d))
  = match lookup (utf8 "categories") d with
    | Some v => Some v
    | None => Some (PList [])
    end.
Proof.
  rewrite lookup_start by (vm_compute; discriminate).
  now destruct (lookup (utf8 "categories") d).
Qed.

Lemma lookup_nearby_start (d : list (pystr * pyval)) :
  lookup (utf8 "nearby_attractions")
    (assign (utf8 "last_updated") (PStr today) (set_defaults d))
  = match lookup (utf8 "nearby_attractions") d with
    | Some v => Some v
    | None => Some (PList [])
    end.
Proof.
  rewrite lookup_start by (vm_compute; discriminate).
  now destruct (lookup (utf8 "nearby_attractions") d).
Qed.

(** X15: A list field comes back from the table as it went in.  When the caller
    gives a list of strings for the categories or for the nearby
    attractions, none of them with a comma and the list not the one empty
    string alone, the writer stores a text that the reader splits into
    that same list; a field that the caller left out is stored as the
    empty text, which the reader reports as the empty list. *)
Theorem list_field_round_trip (d d' : list (pystr * pyval)) (k : pystr) :
  prepare (PDict d) = Return d' ->
  In k [utf8 "categories"; utf8 "nearby_attractions"] ->
  (forall l,
     lookup k d = Some (PList (map PStr l)) ->
     Forall comma_free l -> l <> [[]] ->
     lookup k d' = Some (PStr (join [comma] l))
     /\ DataReader.split_field (Some (join [comma] l)) = PList (map PStr l)) /\
  (lookup k d = None ->
   lookup k d' = Some (PStr [])
   /\ DataReader.split_field (Some []) = PList []).
Proof.
  intros H Hk. destruct (prepare_steps _ _ H) as (d1 & d2 & H1 & H2 & H3).
  assert (G : forall l,
            match lookup k d with Some v => Some v | None => Some (PList []) end
            = Some (PList (map PStr l)) ->
            lookup k d' = Some (PStr (join [comma] l))).
  { intros l Hl. destruct Hk as [<-|[<-|[]]].
    - rewrite (join_if_list_other _ _ _ _ H3) by (vm_compute; discriminate).
      rewrite (dump_if_dict_other _ _ _ _ H2) by (vm_compute; discriminate).
      destruct (join_if_list_same _ _ _ H1) as (Hs & _).
      rewrite lookup_categories_start in Hs.
      destruct (Hs _ Hl) as (items & Hi & ->).
      rewrite str_items_map in Hi. now injection Hi as <-.
    - destruct (join_if_list_same _ _ _ H3) as (Hs & _).
      rewrite (dump_if_dict_other _ _ _ _ H2) in Hs by (vm_compute; discriminate).
      rewrite (join_if_list_other _ _ _ _ H1) in Hs by (vm_compute; discriminate).
      rewrite lookup_nearby_start in Hs.
      destruct (Hs _ Hl) as (items & Hi & ->).
      rewrite str_items_map in Hi. now injection Hi as <-. }
  split.
  - intros l Hl Hall Hne. split; [|now apply split_field_join].
    apply G. now rewrite Hl.
  - intros Hn. split; [|reflexivity]. apply (G []). now rewrite Hn.
Qed.

(** X16: The transportation comes back from the table as it went in.  When
    the caller gives a dict for the transportation, the writer stores its
    JSON text; the reader decodes the stored text when it builds a record,
    so for a codec whose decoder reads back what its encoder wrote, the
    record that the reader builds has that same dict as its
    transportation. *)
Theorem transportation_round_trip (d d' : list (pystr * pyval))
    (t : list (pystr * pyval)) (text : pystr) :
  prepare (PDict d) = Return d' ->
  lookup (utf8 "transportation") d = Some (PDict t) ->
  json_dumps_line (PDict t) = Return text ->
  text <> [] ->
  json_decode text = Some (PDict t) ->
  lookup (utf8 "transportation") d' = Some (PStr text)
  /\ DataReader.load_transportation (Some text) = PDict t.
Proof.
  intros H Ht Hd Hne Hj.
  destruct (prepare_steps _ _ H) as (d1 & d2 & H1 & H2 & H3). split.
  - rewrite (join_if_list_other _ _ _ _ H3) by (vm_compute; discriminate).
    assert (E1 : lookup (utf8 "transportation") d1 = Some (PDict t)).
    { rewrite (join_if_list_other _ _ _ _ H1) by (vm_compute; discriminate).
      rewrite lookup_start by (vm_compute; discriminate). now rewrite Ht. }
    unfold dump_if_dict in H2. rewrite getitem_dict, E1 in H2.
    unfold bind in H2. rewrite Hd in H2. injection H2 as <-.
    apply lookup_assign_same.
  - unfold DataReader.load_transportation.
    destruct text as [|c s]; [congruence|].
    unfold DataReader.json_loads. now rewrite Hj.
Qed.

Lemma prepare_name (d d' : list (pystr * pyval)) :
  prepare (PDict d) = Return d' ->
  lookup (utf8 "name") d' = lookup (utf8 "name") d.
Proof.
  intros H. destruct (prepare_steps _ _ H) as (d1 & d2 & H1 & H2 & H3).
  rewrite (join_if_list_other _ _ _ _ H3) by (vm_compute; discriminate).
  rewrite (dump_if_dict_other _ _ _ _ H2) by (vm_compute; discriminate).
  rewrite (join_if_list_other _ _ _ _ H1) by (vm_compute; discriminate).
  rewrite lookup_start by (vm_compute; discriminate).
  destruct (lookup (utf8 "name") d) eqn:E; [reflexivity|].
  exfalso. unfold prepare in H.
  destruct (check_required_dict d (utf8 "name")) as (e & He);
    [now left | exact E |].
  rewrite He in H. discriminate.
Qed.

(** X17: An attraction whose name a row of the table already has is not added:
    the result is [False] and nothing is written, whatever the other
    fields are. *)
Theorem duplicate_name_not_added (self : DataWriter) (d : list (pystr * pyval))
    (name : pystr) (r : row) :
  lookup (utf8 "name") d = Some (PStr name) ->
  In r (_load_data self) ->
  col_name r = Some name ->
  _add_structured_attraction self (PDict d) = ([], Return false).
Proof.
  intros Hn Hin Hr. rewrite _add_structured_attraction_eq.
  destruct (prepare (PDict d)) as [d'|e] eqn:Hp; [|reflexivity].
  rewrite <- (prepare_name _ _ Hp) in Hn. rewrite getitem_dict, Hn. unfold bind, DataReader.str_filter.
  fold (name_matches name).
  destruct (DataReader.df_filter (name_matches name) (_load_data self))
    as [|r' rest] eqn:E.
  - exfalso.
    assert (H : In r (DataReader.df_filter (name_matches name) (_load_data self))).
    { apply df_filter_In. split; [exact Hin | now apply name_matches_spec]. }
    rewrite E in H. destruct H.
  - reflexivity.
Qed.

(** X18: What is written when a new attraction is accepted.  If the table has
    rows, the frame written is the one [pl.concat] makes of the whole table
    and the new record.  If the table is empty or cannot be read, the frame
    written is the new record alone: it replaces the file.  The result
    tells whether the write succeeded. *)
Theorem accepted_attraction_is_written (self : DataWriter)
    (attraction_data : pyval) (d : list (pystr * pyval)) (name : pystr)
    (new_record : frame) :
  prepare attraction_data = Return d ->
  lookup (utf8 "name") d = Some (PStr name) ->
  unnamed name (_load_data self) ->
  pl_DataFrame d = Return new_record ->
  let written df :=
    ([Saved (db_path self) df (write_parquet df (db_path self))],
     Return (succeeded (write_parquet df (db_path self)))) in
  (forall e,
     read_parquet (db_path self) = Raise e ->
     _add_structured_attraction self attraction_data = written new_record) /\
  (_load_data self = [] ->
   _add_structured_attraction self attraction_data = written new_record) /\
  (forall df,
     _load_data self <> [] ->
     pl_concat (_load_data self) new_record = Return df ->
     _add_structured_attraction self attraction_data = written df) /\
  (forall e,
     _load_data self <> [] ->
     pl_concat (_load_data self) new_record = Raise e ->
     _add_structured_attraction self attraction_data = ([], Return false)).
Proof.
  intros Hp Hn Hu Hf. cbv zeta.
  assert (E : _add_structured_attraction self attraction_data
              = match (if (0 <? List.length (_load_data self))%nat
                       then pl_concat (_load_data self) new_record
                       else Return new_record) with
                | Raise _ => ([], Return false)
                | Return df =>
                  ([Saved (db_path self) df (write_parquet df (db_path self))],
                   Return (succeeded (write_parquet df (db_path self))))
                end).
  { rewrite _add_structured_attraction_eq, Hp, getitem_dict, Hn. unfold bind, DataReader.str_filter. fold (name_matches name).
    apply unnamed_filter in Hu. rewrite Hu. simpl. now rewrite Hf. }
  assert (Hempty : _load_data self = [] ->
                   _add_structured_attraction self attraction_data
                   = ([Saved (db_path self) new_record
                         (write_parquet new_record (db_path self))],
                      Return (succeeded (write_parquet new_record (db_path self))))).
  { intros H0. rewrite E, H0. reflexivity. }
  split; [|split; [exact Hempty|split]].
  - intros e He. apply Hempty. unfold _load_data, DataReader._load_data.
    now rewrite He.
  - intros df Hne Hc. rewrite E.
    destruct (_load_data self); [congruence|]. simpl. now rewrite Hc.
  - intros e Hne Hc. rewrite E.
    destruct (_load_data self); [congruence|]. simpl. now rewrite Hc.
Qed.

Lemma from_braces_ValueError (content : pystr) (e : exn) :
  from_braces content = Raise e -> is_ValueError e.
Proof.
  unfold from_braces.
  destruct (negb (find lbrace content =? -1)%Z
            && (find lbrace content <? rfind rbrace content + 1)%Z).
  - destruct (DataReader.json_loads _); [discriminate|]. now intros [= <-].
  - now intros [= <-].
Qed.

(** X19: [extract_structured_data] without a key raises at once and asks
    nothing.  With a key it makes exactly one request, to [qwen-flash] at
    temperature 0.3, with the system message and the prompt built around
    the text; a reply that is JSON is returned decoded, and whatever goes
    wrong is raised as a [ValueError]. *)
Theorem extract_structured_data_outcome (self : DataWriter) (text : pystr) :
  (truthy (api_key self) = false ->
   extract_structured_data self text
   = ([], Raise (ValueError (utf8 "API密钥未配置")))) /\
  (truthy (api_key self) = true ->
   let messages := [ mk_message (utf8 "system") system_text;
                     mk_message (utf8 "user") (prompt text) ] in
   let reply := chat_completions_create (utf8 "qwen-flash") messages 0.3%float in
   exists r,
     extract_structured_data self text
     = ([Request (utf8 "qwen-flash") messages 0.3%float reply], r)
     /\ (forall e, r = Raise e -> is_ValueError e)
     /\ (forall c v,
           reply = Return c -> json_decode (message_content c) = Some v ->
           r = Return v)).
Proof.
  unfold extract_structured_data. split; intros Hk; rewrite Hk; [reflexivity|].
  cbv zeta. cbn [negb].
  destruct (chat_completions_create _ _ _) as [c|e0].
  - unfold DataReader.json_loads at 1.
    destruct (json_decode (message_content c)) as [v|] eqn:Hd.
    + eexists. split; [reflexivity|]. split; [discriminate|].
      intros c' v' [= <-]. rewrite Hd. now intros [= <-].
    + cbn [is_JSONDecodeError exn_type].
      eexists. split; [reflexivity|]. split.
      * intros e. apply from_braces_ValueError.
      * intros c' v' [= <-]. rewrite Hd. discriminate.
  - destruct (is_JSONDecodeError e0);
      (eexists; split; [reflexivity|]; split;
       [now intros e [= <-] | discriminate]).
Qed.

(** X20: A reply that wraps its JSON in other text.  When the reply as a whole
    is not JSON, the text from its first opening brace to its last closing
    brace is decoded in its place: the value is returned if that text is
    JSON, and a [ValueError] is raised if it is not. *)
Theorem braces_are_extracted (self : DataWriter) (text : pystr) (c : completion)
    (pre body post : pystr) :
  truthy (api_key self) = true ->
  chat_completions_create (utf8 "qwen-flash")
    [ mk_message (utf8 "system") system_text;
      mk_message (utf8 "user") (prompt text) ] 0.3%float = Return c ->
  message_content c = pre ++ lbrace :: body ++ rbrace :: post ->
  ~ In lbrace pre -> ~ In rbrace post ->
  json_decode (message_content c) = None ->
  exists r,
    snd (extract_structured_data self text) = r /\
    match json_decode (lbrace :: body ++ [rbrace]) with
    | Some v => r = Return v
    | None => exists e, r = Raise e /\ is_ValueError e
    end.
Proof.
  intros Hk Hc Hm Hpre Hpost Hd. unfold extract_structured_data.
  rewrite Hk. cbv zeta. cbn [negb]. rewrite Hc.
  unfold DataReader.json_loads at 1. rewrite Hd.
  cbn [is_JSONDecodeError exn_type snd]. eexists. split; [reflexivity|].
  unfold from_braces. rewrite Hm.
  destruct (between_braces pre body post Hpre Hpost) as (Hg & Hs).
  cbv zeta in Hg, Hs. rewrite Hg, Hs. unfold DataReader.json_loads.
  destruct (json_decode (lbrace :: body ++ [rbrace])); [reflexivity|].
  eexists. split; [reflexivity|]. reflexivity.
Qed.

Lemma try_except_returns {A} (body : traced A) (handler : exn -> traced A)
    (t : list event) (a : A) :
  body = (t, Return a) -> try_except body handler = (t, Return a).
Proof. now intros ->. Qed.


(** X22: A writer built where there is no configuration file has the empty
    string for its key.  It still adds structured data, and it refuses
    every free text with [False], asking nothing and writing nothing. *)
Theorem writer_without_configuration (db config : pystr) (e : exn) :
  load_json_file config = Raise e ->
  is_FileNotFoundError e = true ->
  __init__ db config = Return (mk_writer db config (PStr [])) /\
  forall self,
    __init__ db config = Return self ->
    (forall is_structured text,
       add_attraction_data self is_structured (PStr text) = ([], Return false)) /\
    (forall d,
       add_attraction_data self true (PDict d)
       = _add_structured_attraction self (PDict d)).
Proof.
  intros Hl He.
  assert (E : __init__ db config = Return (mk_writer db config (PStr []))).
  { unfold __init__, _load_config. rewrite Hl. simpl. now rewrite He. }
  split; [exact E|]. intros self. rewrite E. intros [= <-]. split.
  - intros is_structured text.
    unfold add_attraction_data, extract_structured_data. simpl.
    destruct is_structured; reflexivity.
  - intros d. unfold add_attraction_data.
    destruct (add_structured_attraction_outcome_aux
                (mk_writer db config (PStr [])) (PDict d)) as (t & b & ->).
    reflexivity.
Qed.

End Writer.
(* ================================================================== *)
(** * Examples for the further properties *)


(** The request of the scripted model is in the format, and is parsed. *)
Lemma requested_format_is_parsed_example :
  Agent.extract_action (message_content Demo.tool_request)
  = (utf8 "get_basic_info", Demo.quoted (utf8 "晴空塔")).
Proof.
  apply (requested_format_is_parsed (utf8 "查询景点") (utf8 "get_basic_info")
           (Demo.quoted (utf8 "晴空塔"))).
  - apply after_first_none. vm_compute. reflexivity.
  - apply after_first_none. vm_compute. reflexivity.
  - vm_compute. discriminate.
  - vm_compute. repeat constructor.
  - vm_compute. intuition discriminate.
  - change (Demo.quoted (utf8 "晴空塔")) with (strip (Demo.quoted (utf8 "晴空塔"))).
    apply strip_stripped.
Defined.

(** A record without a city is refused. *)
Lemma rejected_without_writing_example :
  @DataWriter._add_structured_attraction Demo.direct DemoStore.lib
    DemoStore.writer (PDict [(utf8 "name", PStr (utf8 "东京晴空塔"))])
  = ([], Return false).
Proof.
  apply (@rejected_without_writing Demo.direct DemoStore.lib).
  right. exists [(utf8 "name", PStr (utf8 "东京晴空塔"))], (utf8 "city").
  split; [reflexivity|]. split; [right; left; reflexivity | reflexivity].
Defined.

Lemma stored_disneyland :
  @DataWriter.prepare DemoStore.lib (PDict DemoStore.disneyland)
  = Return (DemoStore.stored DemoStore.disneyland).
Proof. vm_compute. reflexivity. Qed.

(** The price that was not given is stored as unknown, and the date is
    today's. *)
Lemma prepare_keeps_and_fills_example :
  lookup (utf8 "ticket_price") (DemoStore.stored DemoStore.disneyland)
  = Some (PStr (utf8 "未知"))
  /\ lookup (utf8 "last_updated") (DemoStore.stored DemoStore.disneyland)
     = Some (PStr (utf8 "2025-08-09")).
Proof.
  destruct (@prepare_keeps_and_fills DemoStore.lib DemoStore.disneyland
              (DemoStore.stored DemoStore.disneyland) stored_disneyland)
    as (H1 & H2 & _).
  split; [|exact H2].
  apply (H1 (utf8 "ticket_price")). vm_compute. intuition discriminate.
Defined.

(** The three categories of the record come back as they went in. *)
Lemma list_field_round_trip_example :
  let tags := [utf8 "主题公园"; utf8 "娱乐"; utf8 "家庭"] in
  lookup (utf8 "categories") (DemoStore.stored DemoStore.disneyland)
  = Some (PStr (Text.join [comma] tags))
  /\ DataReader.split_field (Some (Text.join [comma] tags))
     = PList (map PStr tags).
Proof.
  cbv zeta.
  apply (proj1 (@list_field_round_trip DemoStore.lib DemoStore.disneyland
                  (DemoStore.stored DemoStore.disneyland) (utf8 "categories")
                  stored_disneyland (or_introl eq_refl))).
  - reflexivity.
  - repeat constructor; vm_compute; intuition discriminate.
  - discriminate.
Defined.

(** The temple is in the table already. *)
Lemma duplicate_name_not_added_example :
  @DataWriter._add_structured_attraction Demo.direct DemoStore.lib
    DemoStore.writer
    (PDict [ (utf8 "name", PStr (utf8 "浅草寺"));
             (utf8 "city", PStr (utf8 "东京"));
             (utf8 "ward", PStr (utf8 "台东区"));
             (utf8 "description", PStr (utf8 "寺庙")) ])
  = ([], Return false).
Proof.
  apply (@duplicate_name_not_added Demo.direct DemoStore.lib DemoStore.writer
           _ (utf8 "浅草寺") Demo.asakusa).
  - reflexivity.
  - left. reflexivity.
  - reflexivity.
Defined.

Lemma stored_disneyland_name :
  lookup (utf8 "name") (DemoStore.stored DemoStore.disneyland)
  = Some (PStr (utf8 "东京迪士尼乐园")).
Proof. vm_compute. reflexivity. Qed.

(** Without the file of the table, the record that is added is all that is
    written. *)
Lemma accepted_attraction_is_written_example :
  @DataWriter._add_structured_attraction DemoStore.offline DemoStore.lib
    DemoStore.writer (PDict DemoStore.disneyland)
  = ([@DataWriter.Saved DemoStore.lib (DataWriter.db_path DemoStore.writer)
        [DemoStore.stored DemoStore.disneyland] (Return tt)],
     Return true).
Proof.
  pose proof (@accepted_attraction_is_written DemoStore.offline DemoStore.lib
                DemoStore.writer (PDict DemoStore.disneyland)
                (DemoStore.stored DemoStore.disneyland)
                (utf8 "东京迪士尼乐园")
                [DemoStore.stored DemoStore.disneyland]
                stored_disneyland stored_disneyland_name
                (fun r H => match H with end) eq_refl) as H.
  cbv zeta in H. destruct H as (H & _).
  exact (H (mk_exn (OtherException (utf8 "FileNotFoundError"))
              (utf8 "No such file or directory")) eq_refl).
Defined.

(** The JSON inside the fence is what is extracted. *)
Lemma braces_are_extracted_example :
  snd (@DataWriter.extract_structured_data DemoStore.fencing DemoStore.lib
         DemoStore.writer (utf8 "东京晴空塔高634米"))
  = Return (PDict [(utf8 "name", PStr (utf8 "东京晴空塔"))]).
Proof.
  destruct (@braces_are_extracted DemoStore.fencing DemoStore.lib
              DemoStore.writer (utf8 "东京晴空塔高634米") DemoStore.fenced_reply
              (utf8 "```json" ++ [newline])
              (Text.quote (utf8 "name") ++ utf8 ": "
               ++ Text.quote (utf8 "东京晴空塔"))
              ([newline] ++ utf8 "```"))
    as (r & <- & H).
  - reflexivity.
  - reflexivity.
  - vm_compute. reflexivity.
  - vm_compute. intuition discriminate.
  - vm_compute. intuition discriminate.
  - vm_compute. reflexivity.
  - vm_compute in H. vm_compute. exact H.
Defined.

(** Where there is no configuration file, a free text is refused. *)
Lemma writer_without_configuration_example :
  @DataWriter.__init__ DemoStore.lib Agent.default_db_path (utf8 "config.json")
  = Return (DataWriter.mk_writer Agent.default_db_path (utf8 "config.json")
              (PStr [])).
Proof.
  apply (@writer_without_configuration Demo.direct DemoStore.lib
           Agent.default_db_path (utf8 "config.json")
           (mk_exn (OtherException (utf8 "FileNotFoundError"))
              (utf8 "No such file or directory"))).
  - reflexivity.
  - reflexivity.
Defined.

Lemma stored_skytree :
  @DataWriter.prepare DemoStore.lib (PDict DemoStore.skytree)
  = Return (DemoStore.stored DemoStore.skytree).
Proof. vm_compute. reflexivity. Qed.

(** The way to the tower is read back as it was given. *)
Lemma transportation_round_trip_example :
  lookup (utf8 "transportation") (DemoStore.stored DemoStore.skytree)
  = Some (PStr DemoStore.skytree_way)
  /\ @DataReader.load_transportation Demo.direct (Some DemoStore.skytree_way)
     = PDict [(utf8 "地铁", PStr (utf8 "半藏门线押上站步行3分钟"))].
Proof.
  apply (@transportation_round_trip Demo.direct DemoStore.lib DemoStore.skytree
           (DemoStore.stored DemoStore.skytree)
           [(utf8 "地铁", PStr (utf8 "半藏门线押上站步行3分钟"))]
           DemoStore.skytree_way stored_skytree eq_refl).
  - vm_compute. reflexivity.
  - vm_compute. discriminate.
  - vm_compute. reflexivity.
Defined.
